(** * nematus/model_updater.py: sub-batch partitioning and gradient combination

    A shallow embedding of [ModelUpdater] and [_ModelUpdateGraph._sum_gradients]
    from [nematus/model_updater.py], followed by the properties of the
    partitioners, of the materializer (split, trim, weight, pad), of the weight
    normalization and of the per-round gradient combination.

    Conventions of the embedding:
    - Python exceptions are values of [exn]; a computation that can raise
      returns a [result].
    - numpy arrays are indexed (sequence position, example); see [ndarray].
    - integer-valued numpy scalars (mask entries, lengths, token counts) are
      in [Z]; indices and start points, which the code builds from [range],
      are in [nat].
    - the only floating-point behaviour that is modelled is the outcome class
      of a numpy scalar division (finite / inf / nan), see [npfloat]; finite
      quotients are exact rationals.
    - the arithmetic of [Z] is exact, where numpy's integers wrap around and
      its floats round: the embedding computes what the code computes as long
      as the lengths and token counts are those of 0/1 masks, and every
      property that depends on their values assumes such masks ([is_mask]). *)

From Stdlib Require Import List ZArith QArith Bool Lia Arith.
From Stdlib Require String.
Import ListNotations String.StringSyntax.

Delimit Scope string_scope with string.

Set Implicit Arguments.

(** ** Exceptions and results

    [LoopBoundReached] is not a Python exception: it marks a [while True] loop
    that is still running at the iteration bound of the model (see
    [run_loop]). *)

Inductive exn : Type :=
| AssertionError
| UnboundLocalError
| ValueError
| IndexError
| OverflowError
| ZeroDivisionError
| TypeError
| LoopBoundReached.

Inductive result (A : Type) : Type :=
| Ok (a : A)
| Raise (e : exn).

Arguments Ok {A} a.
Arguments Raise {A} e.

Definition bind {A B : Type} (r : result A) (k : A -> result B) : result B :=
  match r with
  | Ok a => k a
  | Raise e => Raise e
  end.

Notation "'do' x <- r ; k" := (bind r (fun x => k))
  (at level 10, x pattern, r at level 100, k at level 200).

(** [assert c] *)
Definition py_assert (c : bool) : result unit :=
  if c then Ok tt else Raise AssertionError.

(** [l[i]] for a non-negative index [i]. *)
Definition getitem {A : Type} (l : list A) (i : nat) : result A :=
  match nth_error l i with
  | Some a => Ok a
  | None => Raise IndexError
  end.

(** [max(l)] and [numpy.max(l)] on a one-dimensional sequence: both raise
    [ValueError] on an empty one. *)
Definition py_max (l : list Z) : result Z :=
  match l with
  | [] => Raise ValueError
  | a :: l' => Ok (fold_left Z.max l' a)
  end.

(** [math.ceil(a / n)] for an integer-valued [a] and a nonzero [n]. *)
Definition ceil_div (a n : Z) : Z := - ((- a) / n).

(** ** Loops

    [while True: body] over a loop state [S].  One run of the body either
    raises, leaves the loop ([Brk]) or goes round again ([Cont]).  The loop is
    run with a bound on the number of iterations; [None] means the bound was
    reached. *)

Inductive ctl (S : Type) : Type :=
| Brk (s : S)
| Cont (s : S).

Arguments Brk {S} s.
Arguments Cont {S} s.

Fixpoint while_true {S : Type} (fuel : nat) (body : S -> result (ctl S)) (s : S)
  : option (result S) :=
  match fuel with
  | O => None
  | Datatypes.S fuel' =>
      match body s with
      | Raise e => Some (Raise e)
      | Ok (Brk s') => Some (Ok s')
      | Ok (Cont s') => while_true fuel' body s'
      end
  end.

(** ** Arrays

    A numpy array whose last two axes are (sequence position, example index):
    [rows] lists the sequence positions, each row holding one entry per
    example, and [batch] is [a.shape[-1]].  Every operation of the module
    addresses the leading factor axis of [x] through [...] only, so for [x]
    an entry of type [A] is the vector of factors at that position. *)

Record ndarray (A : Type) : Type := NdArray {
  batch : nat;
  rows : list (list A)
}.

Arguments NdArray {A} batch rows.

Definition seq_len {A : Type} (a : ndarray A) : nat := length (rows a).

Definition well_shaped {A : Type} (a : ndarray A) : bool :=
  forallb (fun r => length r =? batch a)%nat (rows a).

(** [l[p:q]] for non-negative [p], [q]. *)
Definition slice {A : Type} (p q : nat) (l : list A) : list A :=
  firstn (q - p) (skipn p l).

(** [a[..., p:q]] *)
Definition take_examples {A : Type} (a : ndarray A) (p q : nat) : ndarray A :=
  NdArray (Nat.min q (batch a) - Nat.min p (batch a)) (map (slice p q) (rows a)).

(** [a[..., -1:]] *)
Definition last_example {A : Type} (a : ndarray A) : ndarray A :=
  take_examples a (batch a - 1) (batch a).

(** [l[0:n]] for an integer [n] of either sign. *)
Definition py_prefix {A : Type} (n : Z) (l : list A) : list A :=
  if (n <? 0)%Z then firstn (length l - Z.to_nat (- n)) l
  else firstn (Z.to_nat n) l.

(** [a[..., 0:l, :]] *)
Definition take_positions {A : Type} (a : ndarray A) (l : Z) : ndarray A :=
  NdArray (batch a) (py_prefix l (rows a)).

Definition add_rows (r1 r2 : list Z) : list Z :=
  map (fun '(u, v) => (u + v)%Z) (combine r1 r2).

(** [numpy.sum(m, axis=0)]: one sum per example. *)
Definition sum_axis0 (m : ndarray Z) : list Z :=
  fold_left add_rows (rows m) (repeat 0%Z (batch m)).

Definition zsum (l : list Z) : Z := fold_left Z.add l 0%Z.

(** [numpy.sum(m)] *)
Definition np_sum (m : ndarray Z) : Z := zsum (map zsum (rows m)).

(** [numpy.concatenate(l, axis=-1)] of arrays of one sequence length; numpy
    refuses an empty list. *)
Definition hstack {A : Type} (a b : ndarray A) : ndarray A :=
  NdArray (batch a + batch b)
          (map (fun '(r1, r2) => r1 ++ r2) (combine (rows a) (rows b))).

Definition concatenate {A : Type} (l : list (ndarray A)) : result (ndarray A) :=
  match l with
  | [] => Raise ValueError
  | a :: l' => Ok (fold_left hstack l' a)
  end.

(** [[f(a) for a in l]] where [f] can raise. *)
Fixpoint map_result {A B : Type} (f : A -> result B) (l : list A)
  : result (list B) :=
  match l with
  | [] => Ok []
  | a :: l' =>
      do b <- f a;
      do bs <- map_result f l';
      Ok (b :: bs)
  end.

(** [range(0, stop, step)] for a positive [step]. *)
Definition range_step (stop step : nat) : list nat :=
  map (fun k => k * step)%nat (seq 0 ((stop + step - 1) / step)).

(** ** numpy scalar division

    The weights of the sub-batches are numpy scalars ([numpy.sum] results), and
    so is their [sum]: [w / sum(weights)] is a numpy true division, also for a
    Python [0.0] on the left.  With numpy's default error settings a zero
    divisor gives [nan] (for [0 / 0]) or a signed [inf], with a
    [RuntimeWarning] and no exception. *)

Inductive npfloat : Type :=
| Finite (q : Q)
| Inf (negative : bool)
| NaN.

Definition np_truediv (a b : Z) : npfloat :=
  if (b =? 0)%Z
  then (if (a =? 0)%Z then NaN else Inf (a <? 0)%Z)
  else Finite (inject_Z a / inject_Z b).

(** ** ModelUpdater: the two partitioners *)

Module ModelUpdater.

Section Partitioners.

Variables source_lengths target_lengths : list Z.
Variable num_sents : nat.

(** The body of [for j in range(i+1, num_sents)] in [_split_minibatch_into_n],
    over the remaining values of [j]; the result is [next_start_point]. *)
Fixpoint scan_into_n (soft_limit : Z) (i : nat) (js : list nat)
  (s_longest t_longest : Z) : result (option nat) :=
  match js with
  | [] => Ok None
  | j :: js' =>
      do sj <- getitem source_lengths j;
      do tj <- getitem target_lengths j;
      let s_longest := Z.max s_longest sj in
      let t_longest := Z.max t_longest tj in
      let s_tokens := (s_longest * (Z.of_nat j - Z.of_nat i + 1))%Z in
      let t_tokens := (t_longest * (Z.of_nat j - Z.of_nat i + 1))%Z in
      if (s_tokens + t_tokens >? soft_limit)%Z
      then Ok (Some (j + 1)%nat)
      else scan_into_n soft_limit i js' s_longest t_longest
  end.

(** [range(i+1, num_sents)] *)
Definition range_from (i : nat) : list nat := seq (i + 1) (num_sents - (i + 1)).

(** One iteration of the [while True] loop of [_split_minibatch_into_n]. *)
Definition into_n_body (soft_limit : Z) (start_points : list nat)
  : result (ctl (list nat)) :=
  do i <- getitem start_points (length start_points - 1);
  do s_longest <- getitem source_lengths i;
  do t_longest <- getitem target_lengths i;
  do next_start_point <-
     scan_into_n soft_limit i (range_from i) s_longest t_longest;
  match next_start_point with
  | None => Ok (Brk start_points)
  | Some p =>
      if (num_sents <=? p)%nat then Ok (Brk start_points)
      else Ok (Cont (start_points ++ [p]))
  end.

(** The body of the [for] loop of the token-limited branch of
    [_split_minibatch_for_device_size]. *)
Fixpoint scan_for_tokens (max_tokens_per_device : Z) (i : nat) (js : list nat)
  (s_longest t_longest : Z) : result (option nat) :=
  match js with
  | [] => Ok None
  | j :: js' =>
      do sj <- getitem source_lengths j;
      do tj <- getitem target_lengths j;
      let s_longest := Z.max s_longest sj in
      let t_longest := Z.max t_longest tj in
      let s_tokens := (s_longest * (Z.of_nat j - Z.of_nat i + 1))%Z in
      let t_tokens := (t_longest * (Z.of_nat j - Z.of_nat i + 1))%Z in
      if (s_tokens >? max_tokens_per_device)%Z
         || (t_tokens >? max_tokens_per_device)%Z
      then Ok (Some j)
      else scan_for_tokens max_tokens_per_device i js' s_longest t_longest
  end.

(** One iteration of the [while True] loop of the token-limited branch. *)
Definition for_tokens_body (max_tokens_per_device : Z) (start_points : list nat)
  : result (ctl (list nat)) :=
  do i <- getitem start_points (length start_points - 1);
  do s_longest <- getitem source_lengths i;
  do t_longest <- getitem target_lengths i;
  do next_start_point <-
     scan_for_tokens max_tokens_per_device i (range_from i) s_longest t_longest;
  match next_start_point with
  | None => Ok (Brk start_points)
  | Some p => Ok (Cont (start_points ++ [p]))
  end.

End Partitioners.

(** A loop that has not left after [fuel] iterations is reported as [None] by
    [while_true]; the partitioners run their loops with [num_sents + 1]
    iterations, which is shown below to be more than any run needs. *)
Definition run_loop (fuel : nat) (body : list nat -> result (ctl (list nat)))
  : result (list nat) :=
  match while_true fuel body [0%nat] with
  | Some r => r
  | None => Raise LoopBoundReached
  end.

(** The soft limit of [_split_minibatch_into_n]:
    [math.ceil((s_total + t_total) / n)].  For [n = 0] the numpy quotient is
    [inf] or [nan], on which [math.ceil] raises. *)
Definition soft_limit_of (source_lengths target_lengths : list Z)
  (num_sents : nat) (n : Z) : result Z :=
  do s_max <- py_max source_lengths;
  do t_max <- py_max target_lengths;
  let s_total := (s_max * Z.of_nat num_sents)%Z in
  let t_total := (t_max * Z.of_nat num_sents)%Z in
  if (n =? 0)%Z
  then Raise (if (s_total + t_total =? 0)%Z then ValueError else OverflowError)
  else Ok (ceil_div (s_total + t_total) n).

Definition _split_minibatch_into_n (x_mask y_mask : ndarray Z) (n : Z)
  : result (list nat) :=
  let source_lengths := sum_axis0 x_mask in
  let target_lengths := sum_axis0 y_mask in
  do _ <- py_assert (length source_lengths =? length target_lengths)%nat;
  let num_sents := length source_lengths in
  do soft_limit <- soft_limit_of source_lengths target_lengths num_sents n;
  do start_points <-
     run_loop (num_sents + 1)
              (into_n_body source_lengths target_lengths num_sents soft_limit);
  do _ <- py_assert (Z.of_nat (length start_points) <=? n)%Z;
  Ok start_points.

(** In the sentence-limited branch [num_sents] is read before any assignment
    to it (it is a local of the function, assigned in the other branch only),
    so Python raises [UnboundLocalError] there. *)
Definition _split_minibatch_for_device_size (x_mask y_mask : ndarray Z)
  (max_sents_per_device max_tokens_per_device : Z) : result (list nat) :=
  do _ <- py_assert ((max_sents_per_device =? 0)%Z
                     || (max_tokens_per_device =? 0)%Z);
  do _ <- py_assert (negb ((max_sents_per_device =? 0)%Z
                           && (max_tokens_per_device =? 0)%Z));
  if negb (max_sents_per_device =? 0)%Z
  then Raise UnboundLocalError
  else
    let source_lengths := sum_axis0 x_mask in
    let target_lengths := sum_axis0 y_mask in
    do _ <- py_assert (length source_lengths =? length target_lengths)%nat;
    let num_sents := length source_lengths in
    run_loop (num_sents + 1)
             (for_tokens_body source_lengths target_lengths num_sents
                              max_tokens_per_device).

(** ** ModelUpdater: splitting, trimming, weighting and padding *)

(** [split_array] of [_split_and_pad_minibatch] *)
Definition split_array {A : Type} (a : ndarray A) (start_points : list nat)
  : list (ndarray A) :=
  let batch_size := batch a in
  let next_points := tl start_points ++ [batch_size] in
  map (fun '(p, q) => take_examples a p q) (combine start_points next_points).

(** [trim_arrays] of [_split_and_pad_minibatch] *)
Definition trim_arrays {A : Type} (arrays : list (ndarray A))
  (new_seq_lens : list Z) : list (ndarray A) :=
  map (fun '(a, l) => take_positions a l) (combine arrays new_seq_lens).

(** [[int(numpy.max(numpy.sum(m, axis=0))) for m in split_mask]] *)
Definition max_lens_of (split_mask : list (ndarray Z)) : result (list Z) :=
  map_result (fun m => py_max (sum_axis0 m)) split_mask.

(** [pad] of [_split_and_pad_minibatch]; the list is extended in place, here
    the extended list is returned. *)
Definition pad {A : Type} (split_a : list (ndarray A)) (padding_size : nat)
  : result (list (ndarray A)) :=
  do _ <- py_assert (0 <? length split_a)%nat;
  do first <- getitem split_a 0;
  let dummy_array := last_example first in
  Ok (split_a ++ repeat dummy_array padding_size).

(** The five lists returned by [_split_and_pad_minibatch]. *)
Record split_minibatch : Type := SplitMinibatch {
  split_x : list (ndarray (list Z));
  split_x_mask : list (ndarray Z);
  split_y : list (ndarray Z);
  split_y_mask : list (ndarray Z);
  weights : list Z
}.

(** [num_replicas] is [len(self._replicas)]. *)
Definition _split_and_pad_minibatch (num_replicas : nat)
  (x : ndarray (list Z)) (x_mask : ndarray Z) (y y_mask : ndarray Z)
  (start_points : list nat) : result split_minibatch :=
  let split_x := split_array x start_points in
  let split_x_mask := split_array x_mask start_points in
  let split_y := split_array y start_points in
  let split_y_mask := split_array y_mask start_points in
  do max_lens <- max_lens_of split_x_mask;
  let split_x := trim_arrays split_x max_lens in
  let split_x_mask := trim_arrays split_x_mask max_lens in
  do max_lens <- max_lens_of split_y_mask;
  let split_y := trim_arrays split_y max_lens in
  let split_y_mask := trim_arrays split_y_mask max_lens in
  let weights :=
    map (fun '(s, t) => (np_sum s + np_sum t)%Z)
        (combine split_x_mask split_y_mask) in
  do remainder <-
     (if (num_replicas =? 0)%nat then Raise ZeroDivisionError
      else Ok (length start_points mod num_replicas)%nat);
  let padding_size :=
    if (remainder =? 0)%nat then 0%nat else (num_replicas - remainder)%nat in
  do split_x <- pad split_x padding_size;
  do split_x_mask <- pad split_x_mask padding_size;
  do split_y <- pad split_y padding_size;
  do split_y_mask <- pad split_y_mask padding_size;
  let weights := weights ++ repeat 0%Z padding_size in
  Ok (SplitMinibatch split_x split_x_mask split_y split_y_mask weights).

(** ** ModelUpdater.update, up to the session runs *)

(** The fields of [self._config] that [update] reads. *)
Record config : Type := Config {
  max_sentences_per_device : Z;
  max_tokens_per_device : Z;
  gradient_aggregation_steps : Z
}.

(** What one replica is fed in one accumulation run. *)
Record replica_feed : Type := ReplicaFeed {
  feed_weight : npfloat;
  feed_x : ndarray (list Z);
  feed_x_mask : ndarray Z;
  feed_y : ndarray Z;
  feed_y_mask : ndarray Z
}.

(** [[w / sum(weights) for w in weights]] *)
Definition normalize (weights : list Z) : list npfloat :=
  map (fun w => np_truediv w (zsum weights)) weights.

(** The [feed_dict] of the run that starts at sub-batch [i]: one entry per
    replica [j]. *)
Definition feed_dict_at (num_replicas : nat) (sm : split_minibatch)
  (normalized_weights : list npfloat) (i : nat) : result (list replica_feed) :=
  map_result
    (fun j =>
       do w <- getitem normalized_weights (i + j);
       do fx <- getitem (split_x sm) (i + j);
       do fxm <- getitem (split_x_mask sm) (i + j);
       do fy <- getitem (split_y sm) (i + j);
       do fym <- getitem (split_y_mask sm) (i + j);
       Ok (ReplicaFeed w fx fxm fy fym))
    (seq 0 num_replicas).

(** The choice of the partitioner in [update]. *)
Definition start_points_of (cfg : config) (num_replicas : nat)
  (x_mask y_mask : ndarray Z) : result (list nat) :=
  if negb (max_sentences_per_device cfg =? 0)%Z
     || negb (max_tokens_per_device cfg =? 0)%Z
  then _split_minibatch_for_device_size x_mask y_mask
         (max_sentences_per_device cfg) (max_tokens_per_device cfg)
  else
    let n := (Z.of_nat num_replicas * gradient_aggregation_steps cfg)%Z in
    _split_minibatch_into_n x_mask y_mask n.

(** [update] from its start to the end of the accumulation loop: the list of
    the feed dictionaries of the successive [session.run([accum_ops], ...)]
    calls, or the exception raised before the first of them.  (Nothing in the
    loop itself can raise once the feed dictionaries exist, short of the
    session.) *)
Definition update_feeds (cfg : config) (num_replicas : nat)
  (x : ndarray (list Z)) (x_mask : ndarray Z) (y y_mask : ndarray Z)
  : result (list (list replica_feed)) :=
  do start_points <- start_points_of cfg num_replicas x_mask y_mask;
  do sm <- _split_and_pad_minibatch num_replicas x x_mask y y_mask start_points;
  let normalized_weights := normalize (weights sm) in
  map_result (feed_dict_at num_replicas sm normalized_weights)
             (range_step (length (split_x sm)) num_replicas).

End ModelUpdater.

(** ** Test data: masks whose 1s are left-aligned *)

(** The mask of [seq_len] positions for examples of the given lengths. *)
Definition mask_of_lengths (seq_len : nat) (lengths : list nat) : ndarray Z :=
  NdArray (length lengths)
          (map (fun i => map (fun l => if (i <? l)%nat then 1%Z else 0%Z) lengths)
               (seq 0 seq_len)).

(** The minibatch of scenario A: four examples with source lengths
    [3,5,2,4] and target lengths [2,3,1,2]. *)
Definition x_a : ndarray (list Z) := NdArray 4 (repeat (repeat [7%Z] 4) 5).
Definition y_a : ndarray Z := NdArray 4 (repeat (repeat 9%Z 4) 3).
Definition x_mask_a : ndarray Z := mask_of_lengths 5 [3; 5; 2; 4]%nat.
Definition y_mask_a : ndarray Z := mask_of_lengths 3 [2; 3; 1; 2]%nat.

(** A minibatch of one example without a real token. *)
Definition x_empty : ndarray (list Z) := NdArray 1 [[[7%Z]]; [[8%Z]]].
Definition y_empty : ndarray Z := NdArray 1 [[5%Z]; [6%Z]].
Definition mask_empty : ndarray Z := NdArray 1 [[0%Z]; [0%Z]].

(** ** _ModelUpdateGraph._sum_gradients *)

Module ModelUpdateGraph.

(** A TensorFlow variable: its [name], and [uid] for its identity as an
    object, which is what [v == var] compares. *)
Record variable : Type := Var {
  name : String.string;
  uid : nat
}.

Definition variable_eqb (v1 v2 : variable) : bool :=
  String.eqb (name v1) (name v2) && (uid v1 =? uid v2)%nat.

Section SumGradients.

(** Gradient tensors [T] and weight scalars [W]: [scale g w] is [g * w] and
    [tensor_sum] is [tf.reduce_sum(tf.concat(axis=0, values=...), 0)] of the
    expanded tensors, their sum. *)
Variables T W : Type.
Variable scale : T -> W -> T.
Variable add : T -> T -> T.
Variable zero : T.

Definition tensor_sum (l : list T) : T := fold_left add l zero.

(** A (gradient, variable) pair; the gradient is [None] when the variable is
    not used by the loss. *)
Definition grad_var : Type := (option T * variable)%type.

(** The dictionary [d], in insertion order. *)
Definition grad_dict : Type := list (String.string * list grad_var).

(** [if v.name not in d: d[v.name] = []] followed by
    [d[v.name].append((g, v))]. *)
Fixpoint dict_append (d : grad_dict) (k : String.string) (gv : grad_var)
  : grad_dict :=
  match d with
  | [] => [(k, [gv])]
  | (k', l) :: d' =>
      if String.eqb k' k then (k', l ++ [gv]) :: d'
      else (k', l) :: dict_append d' k gv
  end.

(** The first pair of loops: group the pairs of all sub-batches by variable
    name. *)
Definition group_by_name (all_grad_vars : list (list grad_var)) : grad_dict :=
  fold_left
    (fun d grad_vars =>
       fold_left (fun d gv => dict_append d (name (snd gv)) gv) grad_vars d)
    all_grad_vars [].

(** [found_none_value] after the scan of [gv_list]. *)
Definition found_none_value (gv_list : list grad_var) : bool :=
  existsb (fun gv => match fst gv with None => true | Some _ => false end)
          gv_list.

(** The [for i, (g, v) in enumerate(gv_list)] loop, from index [i] on. *)
Fixpoint weighted_grads (var : variable) (weights : list W) (i : nat)
  (gv_list : list grad_var) : result (list T) :=
  match gv_list with
  | [] => Ok []
  | (g, v) :: rest =>
      do _ <- py_assert (variable_eqb v var);
      do w <- getitem weights i;
      do expanded <- match g with
                     | Some g => Ok (scale g w)
                     | None => Raise TypeError
                     end;
      do r <- weighted_grads var weights (S i) rest;
      Ok (expanded :: r)
  end.

(** One iteration of [for var_name, gv_list in list(d.items())]. *)
Definition avg_grad_var (weights : list W) (gv_list : list grad_var)
  : result grad_var :=
  do first <- getitem gv_list 0;
  let var := snd first in
  if found_none_value gv_list then Ok (None, var)
  else
    do weighted <- weighted_grads var weights 0 gv_list;
    Ok (Some (tensor_sum weighted), var).

Definition _sum_gradients (all_grad_vars : list (list grad_var))
  (weights : list W) : result (list grad_var) :=
  let d := group_by_name all_grad_vars in
  map_result (fun entry => avg_grad_var weights (snd entry)) d.

End SumGradients.

End ModelUpdateGraph.

(** * Vocabulary of the properties *)

Import ModelUpdater ModelUpdateGraph.

(** ** Masks and minibatches *)

(** The data-model invariant of a mask: every entry is 0 or 1. *)
Definition is_mask (m : ndarray Z) : bool :=
  forallb (forallb (fun v => (v =? 0)%Z || (v =? 1)%Z)) (rows m).

(** A mask entry. *)
Definition binary (v : Z) : Prop := v = 0%Z \/ v = 1%Z.

(** Two masks of one non-empty minibatch: numpy arrays (every row has
    [batch] entries) over the same, non-empty, set of examples. *)
Definition minibatch_masks (x_mask y_mask : ndarray Z) : bool :=
  well_shaped x_mask && well_shaped y_mask
  && (batch x_mask =? batch y_mask)%nat && (0 <? batch x_mask)%nat.

(** The arrays of one non-empty minibatch. *)
Definition minibatch (x : ndarray (list Z)) (x_mask y y_mask : ndarray Z)
  : bool :=
  minibatch_masks x_mask y_mask && well_shaped x && well_shaped y
  && (batch x =? batch x_mask)%nat && (batch y =? batch x_mask)%nat.

(** Row [r2] has no 1 where the row [r1] above it has a 0. *)
Definition row_above (r1 r2 : list Z) : bool :=
  forallb (fun '(u, v) => (v <=? u)%Z) (combine r1 r2).

(** Every row is above the next one. *)
Fixpoint left_aligned_rows (rs : list (list Z)) : bool :=
  match rs with
  | [] => true
  | r1 :: rs' =>
      match rs' with
      | [] => true
      | r2 :: _ => row_above r1 r2 && left_aligned_rows rs'
      end
  end.

(** In every example the 1s of the mask come first: no 1 follows a 0 along
    the sequence axis. *)
Definition left_aligned (m : ndarray Z) : bool := left_aligned_rows (rows m).

(** Column [k] of a list of rows: the mask of example [k]. *)
Definition col (k : nat) (rs : list (list Z)) : list Z :=
  map (fun r => nth k r 0%Z) rs.

(** Trimming a mask to [l] positions reaches exactly [l] positions and
    removes 0s only. *)
Definition trimmed_to (m : ndarray Z) (l : Z) : Prop :=
  py_max (sum_axis0 m) = Ok l
  /\ Z.of_nat (seq_len (take_positions m l)) = l
  /\ Forall (Forall (fun v => v = 0%Z)) (skipn (Z.to_nat l) (rows m))
  /\ np_sum (take_positions m l) = np_sum m.

(** ** Start points and sub-batches *)

(** [R] holds between every element of the list and the next one. *)
Fixpoint adjacent {A : Type} (R : A -> A -> Prop) (l : list A) : Prop :=
  match l with
  | [] => True
  | a :: l' =>
      match l' with
      | [] => True
      | b :: _ => R a b /\ adjacent R l'
      end
  end.

(** What start points are for a minibatch of [num_sents] examples: the first
    is 0, they increase strictly, and each is the index of an example. *)
Definition valid_start_points (num_sents : nat) (sp : list nat) : Prop :=
  hd_error sp = Some 0%nat /\ adjacent lt sp
  /\ Forall (fun p => (p < num_sents)%nat) sp.

(** A sub-batch that the split has closed: a start point and the next one. *)
Definition closed_bins (sp : list nat) : list (nat * nat) := combine sp (tl sp).

(** The sub-batches of a split, the last one included: every start point
    with the next one, the last start point with the number of examples. *)
Definition all_bins (num_sents : nat) (sp : list nat) : list (nat * nat) :=
  combine sp (tl sp ++ [num_sents]).

(** The padding that [_split_and_pad_minibatch] computes for [k] sub-batches
    and [num_replicas] replicas. *)
Definition padding_size_of (num_replicas k : nat) : nat :=
  if (k mod num_replicas =? 0)%nat then 0%nat
  else (num_replicas - k mod num_replicas)%nat.

(** The longest of the examples [i .. j]: what [s_longest] (or [t_longest])
    holds once the scan from [i] has taken in example [j]. *)
Definition range_max (l : list Z) (i j : nat) : Z :=
  fold_left Z.max (slice (i + 1) (j + 1) l) (nth i l 0%Z).

(** Example [j] is the one that overfills the sub-batch that starts at [i]
    in the fixed-count split. *)
Definition overfills (source_lengths target_lengths : list Z)
  (soft_limit : Z) (i j : nat) : Prop :=
  (range_max source_lengths i j * (Z.of_nat j - Z.of_nat i + 1)
   + range_max target_lengths i j * (Z.of_nat j - Z.of_nat i + 1)
   > soft_limit)%Z.

(** Taking example [j] into the sub-batch that starts at [i] would exceed
    the token limit, on the source or on the target side. *)
Definition exceeds (source_lengths target_lengths : list Z)
  (max_tokens : Z) (i j : nat) : Prop :=
  (range_max source_lengths i j * (Z.of_nat j - Z.of_nat i + 1)
   > max_tokens)%Z
  \/ (range_max target_lengths i j * (Z.of_nat j - Z.of_nat i + 1)
      > max_tokens)%Z.

(** The token count that the fixed-count scan compares with the soft limit
    when it closes the sub-batch [p .. q - 1]: [s_tokens + t_tokens] for its
    last example. *)
Definition bin_tokens (source_lengths target_lengths : list Z)
  (bin : nat * nat) : Z :=
  let '(p, q) := bin in
  (range_max source_lengths p (q - 1) * (Z.of_nat q - Z.of_nat p)
   + range_max target_lengths p (q - 1) * (Z.of_nat q - Z.of_nat p))%Z.

(** An example that is longer than the limit on either side. *)
Definition oversized (source_lengths target_lengths : list Z)
  (max_tokens : Z) (i : nat) : Prop :=
  (max_tokens < nth i source_lengths 0)%Z
  \/ (max_tokens < nth i target_lengths 0)%Z.

(** How two successive start points [p], [q] of the fixed-count split are
    related: [q - 1] is the first example after [p] that overfills the
    sub-batch starting at [p], and [q] is still an example. *)
Definition into_n_link (source_lengths target_lengths : list Z)
  (num_sents : nat) (soft_limit : Z) (p q : nat) : Prop :=
  exists j, q = (j + 1)%nat /\ (p < j)%nat /\ (q < num_sents)%nat
            /\ overfills source_lengths target_lengths soft_limit p j
            /\ forall j', (p < j' < j)%nat ->
                 ~ overfills source_lengths target_lengths soft_limit p j'.

(** How two successive start points [p], [q] of the token-limited split are
    related: [q] is the first example after [p] whose inclusion in the
    sub-batch starting at [p] would exceed the limit. *)
Definition for_tokens_link (source_lengths target_lengths : list Z)
  (num_sents : nat) (max_tokens : Z) (p q : nat) : Prop :=
  (p < q < num_sents)%nat
  /\ exceeds source_lengths target_lengths max_tokens p q
  /\ forall j, (p < j < q)%nat ->
       ~ exceeds source_lengths target_lengths max_tokens p j.

(** The loop invariant of both loops, for the link [R] of the loop. *)
Definition loop_inv (num_sents : nat) (R : nat -> nat -> Prop)
  (sp : list nat) : Prop :=
  hd_error sp = Some 0%nat /\ adjacent R sp
  /\ exists sp0 i, sp = sp0 ++ [i] /\ (i < num_sents)%nat.

(** The measure of both loops: the examples after the last start point. *)
Definition remaining (num_sents : nat) (sp : list nat) : nat :=
  num_sents - last sp 0%nat.

(** ** The gradients of one round *)

(** The pair is for a variable named [p]. *)
Definition named (T : Type) (p : String.string) (gv : grad_var T) : bool :=
  String.eqb (name (snd gv)) p.

(** The list that [d] holds for the key [k], empty when [k] is not a key. *)
Definition dict_get (T : Type) (d : grad_dict T) (k : String.string)
  : list (grad_var T) :=
  match find (fun entry => String.eqb (fst entry) k) d with
  | Some entry => snd entry
  | None => []
  end.

(** The keys of [d] are distinct, and each key holds a non-empty list of
    pairs for variables of that name. *)
Definition dict_ok (T : Type) (d : grad_dict T) : Prop :=
  NoDup (map fst d)
  /\ Forall (fun entry =>
               snd entry <> []
               /\ Forall (fun gv => name (snd gv) = fst entry) (snd entry))
            d.

(** The inner loop of the grouping: the pairs of one sub-batch. *)
Definition add_all (T : Type) (d : grad_dict T) (grad_vars : list (grad_var T))
  : grad_dict T :=
  fold_left (fun d gv => dict_append d (name (snd gv)) gv) grad_vars d.

(** The gradients of a list when none is [None]. *)
Fixpoint all_some (T : Type) (gs : list (option T)) : option (list T) :=
  match gs with
  | [] => Some []
  | None :: _ => None
  | Some g :: gs' =>
      match all_some gs' with
      | Some ts => Some (g :: ts)
      | None => None
      end
  end.

(** What [_sum_gradients] returns for a variable for which the sub-batches
    report the gradients [gs], in this order: [None] as soon as one of them
    is [None], and otherwise the sum of the gradients, the i-th scaled by the
    i-th weight. *)
Definition round_grad (T W : Type) (scale : T -> W -> T) (add : T -> T -> T)
  (zero : T) (gs : list (option T)) (weights : list W) : option T :=
  match all_some gs with
  | Some ts =>
      Some (tensor_sum add zero
              (map (fun '(g, w) => scale g w) (combine ts weights)))
  | None => None
  end.

(** The combination as C1 words it: a sub-batch that reports [None]
    contributes zero, the others are summed with their weights, and the
    result is [None] only when every sub-batch reports [None]. *)
Definition round_grad_claimed (T W : Type) (scale : T -> W -> T) (add : T -> T -> T)
  (zero : T) (gs : list (option T)) (weights : list W)
  : option T :=
  if forallb (fun g => match g with None => true | Some _ => false end) gs
  then None
  else Some (tensor_sum add zero
               (map (fun '(g, w) => match g with
                                    | Some t => scale t w
                                    | None => zero
                                    end)
                    (combine gs weights))).

(** The distinct names of a list in the order of their first occurrence: the
    keys of a dictionary to which the names are added one by one. *)
Definition first_seen (names : list String.string) : list String.string :=
  fold_left
    (fun seen k => if existsb (String.eqb k) seen then seen else seen ++ [k])
    names [].

(** ** Normalized weights *)

(** The sum of a list of rationals. *)
Definition qsum (l : list Q) : Q := fold_right Qplus 0 l.

(** * Properties *)

(** ** Results and loops *)

Lemma bind_ok {A B : Type} (r : result A) (k : A -> result B) (b : B) :
  bind r k = Ok b -> exists a, r = Ok a /\ k a = Ok b.
Proof.
  destruct r as [a|e]; simpl; intros H; [eauto | discriminate].
Qed.

Lemma getitem_ok {A : Type} (l : list A) (i : nat) (a : A) :
  getitem l i = Ok a <-> nth_error l i = Some a.
Proof.
  unfold getitem. destruct (nth_error l i); split; intros H;
    try discriminate; congruence.
Qed.

Lemma getitem_lt {A : Type} (l : list A) (i : nat) :
  (i < length l)%nat -> exists a, getitem l i = Ok a.
Proof.
  intros H. unfold getitem.
  destruct (nth_error l i) eqn:E; [eauto|].
  apply nth_error_None in E. lia.
Qed.

Lemma getitem_last {A : Type} (l : list A) (a : A) :
  getitem (l ++ [a]) (length (l ++ [a]) - 1) = Ok a.
Proof.
  apply getitem_ok. rewrite length_app. simpl.
  replace (length l + 1 - 1)%nat with (length l) by lia.
  rewrite nth_error_app2 by lia. now rewrite Nat.sub_diag.
Qed.

(** More iterations than a finished run needs change nothing. *)
Lemma while_true_more {S : Type} (body : S -> result (ctl S)) :
  forall fuel s r, while_true fuel body s = Some r ->
  forall fuel', (fuel <= fuel')%nat -> while_true fuel' body s = Some r.
Proof.
  induction fuel as [|fuel IH]; intros s r H fuel' Hle; [discriminate|].
  destruct fuel' as [|fuel']; [lia|]. simpl in *.
  destruct (body s) as [[s'|s']|e]; auto.
  apply IH with (fuel' := fuel') in H; [assumption | lia].
Qed.

(** Invariant rule: what holds when the loop is left. *)
Lemma while_true_inv {S : Type} (Inv Post : S -> Prop)
  (body : S -> result (ctl S)) :
  (forall s s', Inv s -> body s = Ok (Cont s') -> Inv s') ->
  (forall s s', Inv s -> body s = Ok (Brk s') -> Post s') ->
  forall fuel s r, Inv s -> while_true fuel body s = Some (Ok r) -> Post r.
Proof.
  intros Hc Hb. induction fuel as [|fuel IH]; intros s r Hi H; [discriminate|].
  simpl in H. destruct (body s) as [[s'|s']|e] eqn:E.
  - injection H as <-. eauto.
  - eauto.
  - discriminate.
Qed.

(** Variant rule: a body that never raises under the invariant and decreases
    a measure on every [Cont] leaves the loop within [measure s] + 1 runs. *)
Lemma while_true_variant {S : Type} (Inv : S -> Prop) (measure : S -> nat)
  (body : S -> result (ctl S)) :
  (forall s, Inv s -> exists c, body s = Ok c) ->
  (forall s s', Inv s -> body s = Ok (Cont s') ->
                Inv s' /\ (measure s' < measure s)%nat) ->
  forall fuel s, Inv s -> (measure s < fuel)%nat ->
  exists r, while_true fuel body s = Some (Ok r).
Proof.
  intros Hok Hdec. induction fuel as [|fuel IH]; intros s Hi Hm; [lia|].
  simpl. destruct (Hok s Hi) as [c Hc]. rewrite Hc. destruct c as [s'|s'].
  - eauto.
  - destruct (Hdec s s' Hi Hc) as [Hi' Hlt]. apply IH; [assumption | lia].
Qed.

(** ** Lists, slices and arrays *)

Lemma slice_app {A : Type} (p q r : nat) (l : list A) :
  (p <= q)%nat -> (q <= r)%nat -> slice p q l ++ slice q r l = slice p r l.
Proof.
  intros Hpq Hqr. unfold slice.
  replace (skipn q l) with (skipn (q - p) (skipn p l))
    by (rewrite skipn_skipn; f_equal; lia).
  replace (r - p)%nat with ((q - p) + (r - q))%nat by lia.
  generalize (skipn p l) as m, (q - p)%nat as a, (r - q)%nat as b.
  intros m a. revert m. induction a as [|a IH]; intros m b; simpl.
  - reflexivity.
  - destruct m as [|x m]; simpl.
    + now rewrite firstn_nil.
    + now rewrite IH.
Qed.

Lemma slice_all {A : Type} (n : nat) (l : list A) :
  (length l <= n)%nat -> slice 0 n l = l.
Proof.
  intros H. unfold slice. rewrite Nat.sub_0_r. simpl.
  now apply firstn_all2.
Qed.

Lemma length_slice {A : Type} (p q : nat) (l : list A) :
  length (slice p q l) = (Nat.min q (length l) - Nat.min p (length l))%nat.
Proof.
  unfold slice. rewrite length_firstn, length_skipn. lia.
Qed.

Lemma well_shaped_rows {A : Type} (a : ndarray A) :
  well_shaped a = true <-> Forall (fun r => length r = batch a) (rows a).
Proof.
  unfold well_shaped. rewrite forallb_forall, Forall_forall.
  split; intros H r Hr; specialize (H r Hr); now apply Nat.eqb_eq.
Qed.

Lemma length_add_rows (r1 r2 : list Z) :
  length r1 = length r2 -> length (add_rows r1 r2) = length r1.
Proof.
  intros H. unfold add_rows. rewrite length_map, length_combine. lia.
Qed.

Lemma length_fold_add_rows (rs : list (list Z)) :
  forall acc, Forall (fun r => length r = length acc) rs ->
  length (fold_left add_rows rs acc) = length acc.
Proof.
  induction rs as [|r rs IH]; intros acc H; simpl; [reflexivity|].
  inversion H as [|? ? Hr Hrs]; subst.
  rewrite IH; rewrite length_add_rows by congruence; [reflexivity|].
  eapply Forall_impl; [|exact Hrs]. simpl. intros; congruence.
Qed.

Lemma length_sum_axis0 (m : ndarray Z) :
  well_shaped m = true -> length (sum_axis0 m) = batch m.
Proof.
  intros H. apply well_shaped_rows in H. unfold sum_axis0.
  rewrite length_fold_add_rows; rewrite repeat_length; auto.
Qed.

Lemma getitem_nth (l : list Z) (j : nat) :
  (j < length l)%nat -> getitem l j = Ok (nth j l 0%Z).
Proof.
  intros H. apply getitem_ok. now apply nth_error_nth'.
Qed.

(** ** The scans of the two partitioners *)

Lemma range_max_refl (l : list Z) (i : nat) : range_max l i i = nth i l 0%Z.
Proof.
  unfold range_max, slice. now rewrite Nat.sub_diag.
Qed.

Lemma slice_snoc (l : list Z) (p q : nat) :
  (p <= q)%nat -> (q < length l)%nat ->
  slice p (q + 1) l = slice p q l ++ [nth q l 0%Z].
Proof.
  intros Hpq Hq. rewrite <- (slice_app (p := p) (q := q) (r := q + 1)) by lia.
  f_equal. unfold slice. replace (q + 1 - q)%nat with 1%nat by lia.
  rewrite <- (firstn_skipn q l) at 1.
  assert (Hlen : length (firstn q l) = q) by (rewrite length_firstn; lia).
  rewrite skipn_app, Hlen, Nat.sub_diag, skipn_all2 by lia. simpl.
  rewrite <- (firstn_skipn q l) at 2.
  rewrite app_nth2, Hlen, Nat.sub_diag by lia.
  destruct (skipn q l) as [|x m] eqn:E; [|reflexivity].
  apply (f_equal (@length Z)) in E. rewrite length_skipn in E. simpl in E. lia.
Qed.

Lemma range_max_step (l : list Z) (i j : nat) :
  (i <= j)%nat -> (j + 1 < length l)%nat ->
  range_max l i (j + 1) = Z.max (range_max l i j) (nth (j + 1) l 0%Z).
Proof.
  intros Hij Hj. unfold range_max.
  rewrite slice_snoc by lia. now rewrite fold_left_app.
Qed.

Lemma range_max_next (l : list Z) (i a : nat) :
  (i < a)%nat -> (a < length l)%nat ->
  Z.max (range_max l i (a - 1)) (nth a l 0%Z) = range_max l i a.
Proof.
  intros Hia Ha. pose proof (range_max_step l (i := i) (j := a - 1)) as H.
  replace (a - 1 + 1)%nat with a in H by lia. symmetry. apply H; lia.
Qed.

Lemma fold_max_le (l : list Z) (m : Z) :
  forall a, (a <= m)%Z -> Forall (fun v => (v <= m)%Z) l ->
  (fold_left Z.max l a <= m)%Z.
Proof.
  induction l as [|v l IH]; intros a Ha Hl; simpl; [assumption|].
  inversion Hl; subst. apply IH; [lia | assumption].
Qed.

Lemma fold_max_ge (l : list Z) :
  forall a, (a <= fold_left Z.max l a)%Z /\
            Forall (fun v => (v <= fold_left Z.max l a)%Z) l.
Proof.
  induction l as [|v l IH]; intros a; simpl; [split; [lia | constructor]|].
  destruct (IH (Z.max a v)) as [H1 H2]. split; [lia|].
  constructor; [lia | assumption].
Qed.

Lemma py_max_upper (l : list Z) (m : Z) :
  py_max l = Ok m -> Forall (fun v => (v <= m)%Z) l.
Proof.
  destruct l as [|a l]; simpl; intros H; [discriminate|].
  injection H as <-. destruct (fold_max_ge l a). now constructor.
Qed.

Lemma Forall_slice (P : Z -> Prop) (p q : nat) (l : list Z) :
  Forall P l -> Forall P (slice p q l).
Proof.
  intros H. unfold slice.
  assert (Hs : Forall P (skipn p l)).
  { rewrite <- (firstn_skipn p l) in H. now apply Forall_app in H. }
  rewrite <- (firstn_skipn (q - p) (skipn p l)) in Hs.
  now apply Forall_app in Hs.
Qed.

Lemma range_max_le (l : list Z) (m : Z) (i j : nat) :
  (i < length l)%nat -> Forall (fun v => (v <= m)%Z) l ->
  (range_max l i j <= m)%Z.
Proof.
  intros Hi Hl. unfold range_max. apply fold_max_le.
  - rewrite Forall_forall in Hl. apply Hl. now apply nth_In.
  - now apply Forall_slice.
Qed.

Lemma range_max_ge_first (l : list Z) (i j : nat) :
  (nth i l 0 <= range_max l i j)%Z.
Proof.
  unfold range_max. apply fold_max_ge.
Qed.

Section Scans.

Variables source_lengths target_lengths : list Z.
Variable num_sents : nat.
Hypothesis source_len : length source_lengths = num_sents.
Hypothesis target_len : length target_lengths = num_sents.

Lemma scan_into_n_spec (soft_limit : Z) (i : nat) :
  forall k a, (i < a)%nat -> (a + k <= num_sents)%nat ->
  exists r,
    scan_into_n source_lengths target_lengths soft_limit i (seq a k)
      (range_max source_lengths i (a - 1)) (range_max target_lengths i (a - 1))
    = Ok r
    /\ match r with
       | None => forall j, (a <= j < a + k)%nat -> ~ overfills source_lengths target_lengths soft_limit i j
       | Some p => exists j, p = (j + 1)%nat /\ (a <= j < a + k)%nat
                   /\ overfills source_lengths target_lengths soft_limit i j
                   /\ forall j', (a <= j' < j)%nat -> ~ overfills source_lengths target_lengths soft_limit i j'
       end.
Proof.
  induction k as [|k IH]; intros a Hia Hak; simpl.
  - exists None. split; [reflexivity | intros; lia].
  - rewrite !getitem_nth by lia. simpl.
    rewrite !range_max_next by lia.
    destruct (_ >? _)%Z eqn:E.
    + exists (Some (a + 1)%nat). split; [reflexivity|].
      exists a. repeat split; try lia.
      unfold overfills. apply Z.gtb_gt in E. lia.
    + assert (Hno : ~ overfills source_lengths target_lengths soft_limit i a).
      { unfold overfills. rewrite Z.gtb_ltb, Z.ltb_ge in E. lia. }
      destruct (IH (S a)) as [r [Hr Hspec]]; try lia.
      replace (S a - 1)%nat with a in Hr by lia.
      exists r. split; [exact Hr|].
      destruct r as [p|].
      * destruct Hspec as [j [-> [Hj [Hov Hbefore]]]].
        exists j. repeat split; try lia; [assumption|].
        intros j' Hj'. destruct (Nat.eq_dec j' a) as [->|]; [assumption|].
        apply Hbefore. lia.
      * intros j Hj. destruct (Nat.eq_dec j a) as [->|]; [assumption|].
        apply Hspec. lia.
Qed.

Lemma scan_for_tokens_spec (max_tokens : Z) (i : nat) :
  forall k a, (i < a)%nat -> (a + k <= num_sents)%nat ->
  exists r,
    scan_for_tokens source_lengths target_lengths max_tokens i (seq a k)
      (range_max source_lengths i (a - 1)) (range_max target_lengths i (a - 1))
    = Ok r
    /\ match r with
       | None => forall j, (a <= j < a + k)%nat -> ~ exceeds source_lengths target_lengths max_tokens i j
       | Some p => (a <= p < a + k)%nat /\ exceeds source_lengths target_lengths max_tokens i p
                   /\ forall j, (a <= j < p)%nat -> ~ exceeds source_lengths target_lengths max_tokens i j
       end.
Proof.
  induction k as [|k IH]; intros a Hia Hak; simpl.
  - exists None. split; [reflexivity | intros; lia].
  - rewrite !getitem_nth by lia. simpl.
    rewrite !range_max_next by lia.
    destruct (_ || _) eqn:E.
    + exists (Some a). split; [reflexivity|].
      repeat split; try lia.
      unfold exceeds. apply orb_true_iff in E.
      destruct E as [E|E]; apply Z.gtb_gt in E; [left | right]; lia.
    + assert (Hno : ~ exceeds source_lengths target_lengths max_tokens i a).
      { unfold exceeds. apply orb_false_iff in E. destruct E as [E1 E2].
        rewrite Z.gtb_ltb, Z.ltb_ge in E1, E2. lia. }
      destruct (IH (S a)) as [r [Hr Hspec]]; try lia.
      replace (S a - 1)%nat with a in Hr by lia.
      exists r. split; [exact Hr|].
      destruct r as [p|].
      * destruct Hspec as [Hp [Hex Hbefore]].
        repeat split; try lia; [assumption|].
        intros j Hj. destruct (Nat.eq_dec j a) as [->|]; [assumption|].
        apply Hbefore. lia.
      * intros j Hj. destruct (Nat.eq_dec j a) as [->|]; [assumption|].
        apply Hspec. lia.
Qed.

End Scans.

Section Bodies.

Variables source_lengths target_lengths : list Z.
Variable num_sents : nat.
Hypothesis source_len : length source_lengths = num_sents.
Hypothesis target_len : length target_lengths = num_sents.

Let overfills' := overfills source_lengths target_lengths.
Let exceeds' := exceeds source_lengths target_lengths.

(** One run of the body of the fixed-count loop from a list that ends in
    [i]: it never raises; it breaks when no example before the last one
    overfills the open sub-batch, and otherwise appends the index after the
    first example that does. *)
Lemma into_n_body_spec (soft_limit : Z) (sp0 : list nat) (i : nat) :
  (i < num_sents)%nat ->
  exists c,
    into_n_body source_lengths target_lengths num_sents soft_limit (sp0 ++ [i])
    = Ok c
    /\ match c with
       | Brk s' => s' = sp0 ++ [i]
                   /\ forall j, (i < j)%nat -> (j + 1 < num_sents)%nat ->
                                ~ overfills' soft_limit i j
       | Cont s' => exists j, s' = (sp0 ++ [i]) ++ [(j + 1)%nat]
                    /\ (i < j)%nat /\ (j + 1 < num_sents)%nat
                    /\ overfills' soft_limit i j
                    /\ forall j', (i < j' < j)%nat -> ~ overfills' soft_limit i j'
       end.
Proof.
  intros Hi. unfold into_n_body.
  rewrite getitem_last. simpl.
  rewrite !getitem_nth by lia. simpl.
  destruct (@scan_into_n_spec _ _ _ source_len target_len soft_limit i
              (num_sents - (i + 1)) (i + 1)) as [r [Hr Hspec]];
    try lia.
  replace (i + 1 - 1)%nat with i in Hr by lia.
  rewrite !range_max_refl in Hr. unfold range_from. rewrite Hr. simpl.
  destruct r as [p|].
  - destruct Hspec as [j [-> [Hj [Hov Hbefore]]]].
    destruct (num_sents <=? j + 1)%nat eqn:E.
    + apply Nat.leb_le in E. eexists. split; [reflexivity|].
      split; [reflexivity|]. intros j' H1 H2. apply Hbefore. lia.
    + apply Nat.leb_gt in E. eexists. split; [reflexivity|].
      exists j. repeat split; try lia; [assumption|].
      intros j' Hj'. apply Hbefore. lia.
  - eexists. split; [reflexivity|]. split; [reflexivity|].
    intros j H1 H2. apply Hspec. lia.
Qed.

(** One run of the body of the token-limited loop from a list that ends in
    [i]: it never raises; it breaks when no later example exceeds the limit of
    the open sub-batch, and otherwise appends the first one that does. *)
Lemma for_tokens_body_spec (max_tokens : Z) (sp0 : list nat) (i : nat) :
  (i < num_sents)%nat ->
  exists c,
    for_tokens_body source_lengths target_lengths num_sents max_tokens
                    (sp0 ++ [i])
    = Ok c
    /\ match c with
       | Brk s' => s' = sp0 ++ [i]
                   /\ forall j, (i < j < num_sents)%nat ->
                                ~ exceeds' max_tokens i j
       | Cont s' => exists p, s' = (sp0 ++ [i]) ++ [p]
                    /\ (i < p < num_sents)%nat
                    /\ exceeds' max_tokens i p
                    /\ forall j, (i < j < p)%nat -> ~ exceeds' max_tokens i j
       end.
Proof.
  intros Hi. unfold for_tokens_body.
  rewrite getitem_last. simpl.
  rewrite !getitem_nth by lia. simpl.
  destruct (@scan_for_tokens_spec _ _ _ source_len target_len max_tokens i
              (num_sents - (i + 1)) (i + 1)) as [r [Hr Hspec]];
    try lia.
  replace (i + 1 - 1)%nat with i in Hr by lia.
  rewrite !range_max_refl in Hr. unfold range_from. rewrite Hr. simpl.
  destruct r as [p|].
  - destruct Hspec as [Hp [Hex Hbefore]].
    eexists. split; [reflexivity|].
    exists p. repeat split; try lia; [assumption|].
    intros j Hj. apply Hbefore. lia.
  - eexists. split; [reflexivity|]. split; [reflexivity|].
    intros j Hj. apply Hspec. lia.
Qed.

End Bodies.

(** ** Start-point lists *)

Lemma adjacent_snoc (R : nat -> nat -> Prop) (l : list nat) (i p : nat) :
  adjacent R (l ++ [i]) -> R i p -> adjacent R ((l ++ [i]) ++ [p]).
Proof.
  intros H Hr. induction l as [|a l IH]; simpl in *.
  - auto.
  - destruct (l ++ [i]) as [|b m] eqn:E.
    + destruct l; discriminate.
    + simpl. destruct H as [Hab Hm]. split; [assumption|]. now apply IH.
Qed.

Lemma adjacent_impl (R R' : nat -> nat -> Prop) (l : list nat) :
  (forall a b, R a b -> R' a b) -> adjacent R l -> adjacent R' l.
Proof.
  intros Himp. induction l as [|a l IH]; simpl; [trivial|].
  destruct l as [|b m]; [trivial|]. intros [Hab Hm]. split; auto.
Qed.

Lemma adjacent_lt_bound (num_sents : nat) (l : list nat) :
  forall a, adjacent (fun p q => (p < q < num_sents)%nat) (a :: l) ->
            (a < num_sents)%nat ->
            adjacent lt (a :: l)
            /\ Forall (fun p => (p < num_sents)%nat) (a :: l).
Proof.
  induction l as [|b l IH]; intros a H Ha.
  - split; [exact I | repeat constructor; assumption].
  - destruct H as [Hab Hl]. destruct (IH b Hl) as [H1 H2]; [lia|].
    split; [split; [lia | assumption] | constructor; assumption].
Qed.

Section Loops.

Variables source_lengths target_lengths : list Z.
Variable num_sents : nat.
Hypothesis source_len : length source_lengths = num_sents.
Hypothesis target_len : length target_lengths = num_sents.
Hypothesis non_empty : (0 < num_sents)%nat.

Lemma loop_inv_init (R : nat -> nat -> Prop) : loop_inv num_sents R [0%nat].
Proof.
  split; [reflexivity|]. split; [exact I|]. now exists [], 0%nat.
Qed.

Lemma hd_error_snoc (l : list nat) (i p : nat) :
  hd_error ((l ++ [i]) ++ [p]) = hd_error (l ++ [i]).
Proof.
  destruct l; reflexivity.
Qed.

Lemma into_n_body_cont (soft_limit : Z) (s s' : list nat) :
  loop_inv num_sents (into_n_link source_lengths target_lengths num_sents soft_limit) s ->
  into_n_body source_lengths target_lengths num_sents soft_limit s
  = Ok (Cont s') ->
  loop_inv num_sents (into_n_link source_lengths target_lengths num_sents soft_limit) s'
  /\ exists sp0 i p, s = sp0 ++ [i] /\ s' = s ++ [p] /\ (i < p < num_sents)%nat.
Proof.
  intros [Hhd [Hadj [sp0 [i [-> Hi]]]]] Hbody.
  destruct (@into_n_body_spec _ _ _ source_len target_len soft_limit sp0 i Hi)
    as [c [Hc Hspec]].
  rewrite Hc in Hbody. injection Hbody as ->.
  destruct Hspec as [j [-> [Hij [Hj [Hov Hbefore]]]]].
  split.
  - split; [now rewrite hd_error_snoc|]. split.
    + apply adjacent_snoc; [assumption|]. exists j. auto.
    + exists (sp0 ++ [i]), (j + 1)%nat. auto.
  - exists sp0, i, (j + 1)%nat. repeat split; lia.
Qed.

Lemma for_tokens_body_cont (max_tokens : Z) (s s' : list nat) :
  loop_inv num_sents (for_tokens_link source_lengths target_lengths num_sents max_tokens) s ->
  for_tokens_body source_lengths target_lengths num_sents max_tokens s
  = Ok (Cont s') ->
  loop_inv num_sents (for_tokens_link source_lengths target_lengths num_sents max_tokens) s'
  /\ exists sp0 i p, s = sp0 ++ [i] /\ s' = s ++ [p] /\ (i < p < num_sents)%nat.
Proof.
  intros [Hhd [Hadj [sp0 [i [-> Hi]]]]] Hbody.
  destruct (@for_tokens_body_spec _ _ _ source_len target_len max_tokens sp0 i Hi)
    as [c [Hc Hspec]].
  rewrite Hc in Hbody. injection Hbody as ->.
  destruct Hspec as [p [-> [Hp [Hex Hbefore]]]].
  split.
  - split; [now rewrite hd_error_snoc|]. split.
    + apply adjacent_snoc; [assumption|]. repeat split; auto; lia.
    + exists (sp0 ++ [i]), p. split; [reflexivity | lia].
  - exists sp0, i, p. repeat split; lia.
Qed.

Lemma remaining_snoc (sp : list nat) (p : nat) :
  remaining num_sents (sp ++ [p]) = (num_sents - p)%nat.
Proof.
  unfold remaining. now rewrite last_last.
Qed.

Lemma into_n_loop_terminates (soft_limit : Z) :
  exists sp, forall fuel, (num_sents < fuel)%nat ->
    while_true fuel
      (into_n_body source_lengths target_lengths num_sents soft_limit) [0%nat]
    = Some (Ok sp).
Proof.
  destruct (while_true_variant (loop_inv num_sents (into_n_link source_lengths target_lengths num_sents soft_limit)) (remaining num_sents)
              (into_n_body source_lengths target_lengths num_sents soft_limit))
    with (fuel := S num_sents) (s := [0%nat]) as [sp Hsp].
  - intros s [_ [_ [sp0 [i [-> Hi]]]]].
    destruct (@into_n_body_spec _ _ _ source_len target_len soft_limit sp0 i Hi)
      as [c [Hc _]]. eauto.
  - intros s s' Hinv Hbody.
    destruct (into_n_body_cont Hinv Hbody)
      as [Hinv' [sp0 [i [p [-> [-> Hp]]]]]].
    split; [assumption|]. rewrite !remaining_snoc. lia.
  - apply loop_inv_init.
  - unfold remaining. simpl. lia.
  - exists sp. intros fuel Hfuel.
    apply while_true_more with (fuel := S num_sents); [assumption | lia].
Qed.

Lemma for_tokens_loop_terminates (max_tokens : Z) :
  exists sp, forall fuel, (num_sents < fuel)%nat ->
    while_true fuel
      (for_tokens_body source_lengths target_lengths num_sents max_tokens)
      [0%nat]
    = Some (Ok sp).
Proof.
  destruct (while_true_variant (loop_inv num_sents (for_tokens_link source_lengths target_lengths num_sents max_tokens)) (remaining num_sents)
              (for_tokens_body source_lengths target_lengths num_sents
                               max_tokens))
    with (fuel := S num_sents) (s := [0%nat]) as [sp Hsp].
  - intros s [_ [_ [sp0 [i [-> Hi]]]]].
    destruct (@for_tokens_body_spec _ _ _ source_len target_len max_tokens sp0 i Hi)
      as [c [Hc _]]. eauto.
  - intros s s' Hinv Hbody.
    destruct (for_tokens_body_cont Hinv Hbody)
      as [Hinv' [sp0 [i [p [-> [-> Hp]]]]]].
    split; [assumption|]. rewrite !remaining_snoc. lia.
  - apply loop_inv_init.
  - unfold remaining. simpl. lia.
  - exists sp. intros fuel Hfuel.
    apply while_true_more with (fuel := S num_sents); [assumption | lia].
Qed.

(** What the fixed-count loop returns: start points linked by
    [into_n_link], the last of which opens a sub-batch that no example before
    the last one of the minibatch overfills. *)
Lemma into_n_loop_result (soft_limit : Z) (fuel : nat) (sp : list nat) :
  while_true fuel
    (into_n_body source_lengths target_lengths num_sents soft_limit) [0%nat]
  = Some (Ok sp) ->
  loop_inv num_sents (into_n_link source_lengths target_lengths num_sents soft_limit) sp
  /\ forall j, (last sp 0 < j)%nat -> (j + 1 < num_sents)%nat ->
       ~ overfills source_lengths target_lengths soft_limit (last sp 0%nat) j.
Proof.
  intros H.
  refine (@while_true_inv _ (loop_inv num_sents (into_n_link source_lengths target_lengths num_sents soft_limit))
            (fun sp => loop_inv num_sents (into_n_link source_lengths target_lengths num_sents soft_limit) sp
               /\ forall j, (last sp 0 < j)%nat -> (j + 1 < num_sents)%nat ->
                    ~ overfills source_lengths target_lengths soft_limit
                        (last sp 0%nat) j)
            _ _ _ fuel [0%nat] sp _ H).
  - intros s s' Hinv Hbody. now destruct (into_n_body_cont Hinv Hbody).
  - intros s s' Hinv Hbody. pose proof Hinv as [_ [_ [sp0 [i [-> Hi]]]]].
    destruct (@into_n_body_spec _ _ _ source_len target_len soft_limit sp0 i Hi)
      as [c [Hc Hspec]].
    rewrite Hc in Hbody. injection Hbody as ->. destruct Hspec as [-> Hno].
    split; [assumption|]. now rewrite last_last.
  - apply loop_inv_init.
Qed.

(** What the token-limited loop returns: start points linked by
    [for_tokens_link], the last of which opens a sub-batch that holds the
    rest of the minibatch within the limit. *)
Lemma for_tokens_loop_result (max_tokens : Z) (fuel : nat) (sp : list nat) :
  while_true fuel
    (for_tokens_body source_lengths target_lengths num_sents max_tokens)
    [0%nat]
  = Some (Ok sp) ->
  loop_inv num_sents (for_tokens_link source_lengths target_lengths num_sents max_tokens) sp
  /\ forall j, (last sp 0 < j < num_sents)%nat ->
       ~ exceeds source_lengths target_lengths max_tokens (last sp 0%nat) j.
Proof.
  intros H.
  refine (@while_true_inv _ (loop_inv num_sents (for_tokens_link source_lengths target_lengths num_sents max_tokens))
            (fun sp => loop_inv num_sents (for_tokens_link source_lengths target_lengths num_sents max_tokens) sp
               /\ forall j, (last sp 0 < j < num_sents)%nat ->
                    ~ exceeds source_lengths target_lengths max_tokens
                        (last sp 0%nat) j)
            _ _ _ fuel [0%nat] sp _ H).
  - intros s s' Hinv Hbody. now destruct (for_tokens_body_cont Hinv Hbody).
  - intros s s' Hinv Hbody. pose proof Hinv as [_ [_ [sp0 [i [-> Hi]]]]].
    destruct (@for_tokens_body_spec _ _ _ source_len target_len max_tokens sp0 i Hi)
      as [c [Hc Hspec]].
    rewrite Hc in Hbody. injection Hbody as ->. destruct Hspec as [-> Hno].
    split; [assumption|]. now rewrite last_last.
  - apply loop_inv_init.
Qed.

End Loops.

(** ** Minibatches *)

Lemma minibatch_masks_lengths (x_mask y_mask : ndarray Z) :
  minibatch_masks x_mask y_mask = true ->
  length (sum_axis0 x_mask) = batch x_mask
  /\ length (sum_axis0 y_mask) = batch x_mask
  /\ (0 < batch x_mask)%nat.
Proof.
  unfold minibatch_masks. rewrite !andb_true_iff.
  intros [[[Hx Hy] Hb] Hn].
  apply Nat.eqb_eq in Hb. apply Nat.ltb_lt in Hn.
  rewrite !length_sum_axis0 by assumption. auto.
Qed.

Lemma py_max_ok (l : list Z) :
  (0 < length l)%nat -> exists m, py_max l = Ok m.
Proof.
  destruct l; simpl; [lia | eauto].
Qed.

Lemma run_loop_ok (fuel : nat) (body : list nat -> result (ctl (list nat)))
  (sp : list nat) :
  while_true fuel body [0%nat] = Some (Ok sp) -> run_loop fuel body = Ok sp.
Proof.
  unfold run_loop. now intros ->.
Qed.

(** [_split_minibatch_into_n] on the masks of a non-empty minibatch, for a
    nonzero [n]: the soft limit is computed, the loop returns, and only the
    closing assertion is left. *)
Lemma split_into_n_unfold (x_mask y_mask : ndarray Z) (n : Z) :
  minibatch_masks x_mask y_mask = true -> n <> 0%Z ->
  exists soft_limit sp,
    soft_limit_of (sum_axis0 x_mask) (sum_axis0 y_mask) (batch x_mask) n
    = Ok soft_limit
    /\ (forall fuel, (batch x_mask < fuel)%nat ->
          while_true fuel
            (into_n_body (sum_axis0 x_mask) (sum_axis0 y_mask) (batch x_mask)
                         soft_limit) [0%nat]
          = Some (Ok sp))
    /\ _split_minibatch_into_n x_mask y_mask n
       = if (Z.of_nat (length sp) <=? n)%Z then Ok sp else Raise AssertionError.
Proof.
  intros Hm Hn. destruct (minibatch_masks_lengths _ _ Hm) as [Hx [Hy Hpos]].
  destruct (py_max_ok (sum_axis0 x_mask)) as [s_max Hs]; [lia|].
  destruct (py_max_ok (sum_axis0 y_mask)) as [t_max Ht]; [lia|].
  assert (Hsoft : exists L,
             soft_limit_of (sum_axis0 x_mask) (sum_axis0 y_mask)
                           (batch x_mask) n = Ok L).
  { unfold soft_limit_of. rewrite Hs, Ht. simpl.
    apply Z.eqb_neq in Hn. rewrite Hn. eauto. }
  destruct Hsoft as [L HL].
  destruct (@into_n_loop_terminates _ _ _ Hx Hy Hpos L) as [sp Hsp].
  exists L, sp. split; [assumption|]. split; [assumption|].
  unfold _split_minibatch_into_n.
  rewrite Hx, Hy, Nat.eqb_refl. simpl. rewrite HL. simpl.
  rewrite (run_loop_ok _ _ (Hsp (batch x_mask + 1)%nat ltac:(lia))). simpl.
  destruct (_ <=? _)%Z; reflexivity.
Qed.

(** The token-limited branch of [_split_minibatch_for_device_size] on the
    masks of a non-empty minibatch returns what its loop returns. *)
Lemma split_for_tokens_unfold (x_mask y_mask : ndarray Z) (max_tokens : Z) :
  minibatch_masks x_mask y_mask = true -> max_tokens <> 0%Z ->
  exists sp,
    (forall fuel, (batch x_mask < fuel)%nat ->
       while_true fuel
         (for_tokens_body (sum_axis0 x_mask) (sum_axis0 y_mask) (batch x_mask)
                          max_tokens) [0%nat]
       = Some (Ok sp))
    /\ _split_minibatch_for_device_size x_mask y_mask 0 max_tokens = Ok sp.
Proof.
  intros Hm Hn. destruct (minibatch_masks_lengths _ _ Hm) as [Hx [Hy Hpos]].
  destruct (@for_tokens_loop_terminates _ _ _ Hx Hy Hpos max_tokens)
    as [sp Hsp].
  exists sp. split; [assumption|].
  unfold _split_minibatch_for_device_size. simpl.
  apply Z.eqb_neq in Hn. rewrite Hn. simpl.
  rewrite Hx, Hy, Nat.eqb_refl. simpl.
  apply run_loop_ok, Hsp. lia.
Qed.

(** C10.  On the masks of a non-empty minibatch both greedy loops terminate.
    One run of either body from a state whose last start point [i] is an
    example either leaves the loop with the state unchanged or appends a
    start point [p] with [i < p < num_sents]; hence each loop returns a list
    of start points, the same for every iteration bound above the number of
    examples, and the token-limited capacity split returns that list.  The
    fixed-count split returns its list too unless its closing assertion
    fails; it never hits the iteration bound. *)
Theorem split_loops_terminate (x_mask y_mask : ndarray Z) :
  minibatch_masks x_mask y_mask = true ->
  let source_lengths := sum_axis0 x_mask in
  let target_lengths := sum_axis0 y_mask in
  let num_sents := length source_lengths in
  (forall soft_limit sp0 i, (i < num_sents)%nat ->
     let body := into_n_body source_lengths target_lengths num_sents
                             soft_limit in
     body (sp0 ++ [i]) = Ok (Brk (sp0 ++ [i]))
     \/ exists p, body (sp0 ++ [i]) = Ok (Cont ((sp0 ++ [i]) ++ [p]))
                  /\ (i < p < num_sents)%nat)
  /\ (forall max_tokens sp0 i, (i < num_sents)%nat ->
        let body := for_tokens_body source_lengths target_lengths num_sents
                                    max_tokens in
        body (sp0 ++ [i]) = Ok (Brk (sp0 ++ [i]))
        \/ exists p, body (sp0 ++ [i]) = Ok (Cont ((sp0 ++ [i]) ++ [p]))
                     /\ (i < p < num_sents)%nat)
  /\ (forall soft_limit, exists sp, forall fuel, (num_sents < fuel)%nat ->
        while_true fuel
          (into_n_body source_lengths target_lengths num_sents soft_limit)
          [0%nat]
        = Some (Ok sp))
  /\ (forall max_tokens, exists sp, forall fuel, (num_sents < fuel)%nat ->
        while_true fuel
          (for_tokens_body source_lengths target_lengths num_sents max_tokens)
          [0%nat]
        = Some (Ok sp))
  /\ (forall n, n <> 0%Z ->
        exists sp, _split_minibatch_into_n x_mask y_mask n = Ok sp
                   \/ (_split_minibatch_into_n x_mask y_mask n
                       = Raise AssertionError
                       /\ (n < Z.of_nat (length sp))%Z))
  /\ (forall max_tokens, max_tokens <> 0%Z ->
        exists sp, _split_minibatch_for_device_size x_mask y_mask 0 max_tokens
                   = Ok sp).
Proof.
  intros Hm source_lengths target_lengths num_sents.
  destruct (minibatch_masks_lengths _ _ Hm) as [Hx [Hy Hpos]].
  assert (HN : num_sents = batch x_mask) by exact Hx.
  assert (Hy' : length target_lengths = num_sents) by (unfold target_lengths; lia).
  assert (Hpos' : (0 < num_sents)%nat) by lia.
  repeat split.
  - intros soft_limit sp0 i Hi body.
    destruct (@into_n_body_spec _ _ _ eq_refl Hy' soft_limit sp0 i Hi)
      as [c [Hc Hspec]].
    destruct c as [s'|s'].
    + destruct Hspec as [-> _]. now left.
    + destruct Hspec as [j [-> [Hij [Hj _]]]]. right.
      exists (j + 1)%nat. split; [assumption | lia].
  - intros max_tokens sp0 i Hi body.
    destruct (@for_tokens_body_spec _ _ _ eq_refl Hy' max_tokens sp0 i Hi)
      as [c [Hc Hspec]].
    destruct c as [s'|s'].
    + destruct Hspec as [-> _]. now left.
    + destruct Hspec as [p [-> [Hp _]]]. right. eauto.
  - intros soft_limit.
    exact (@into_n_loop_terminates _ _ _ eq_refl Hy' Hpos' soft_limit).
  - intros max_tokens.
    exact (@for_tokens_loop_terminates _ _ _ eq_refl Hy' Hpos' max_tokens).
  - intros n Hn.
    destruct (split_into_n_unfold _ _ Hm Hn) as [L [sp [_ [_ Hres]]]].
    exists sp. rewrite Hres.
    destruct (_ <=? _)%Z eqn:E; [now left|].
    right. split; [reflexivity|]. apply Z.leb_gt in E. lia.
  - intros max_tokens Hn.
    destruct (split_for_tokens_unfold _ _ Hm Hn) as [sp [_ Hres]]. eauto.
Qed.

(** ** Splitting is lossless *)

Lemma take_examples_hstack {A : Type} (a : ndarray A) (p q r : nat) :
  (p <= q)%nat -> (q <= r)%nat ->
  hstack (take_examples a p q) (take_examples a q r) = take_examples a p r.
Proof.
  intros Hpq Hqr. unfold hstack, take_examples. simpl. f_equal; [lia|].
  induction (rows a) as [|row rs IH]; simpl; [reflexivity|].
  now rewrite IH, slice_app.
Qed.

Lemma take_examples_all {A : Type} (a : ndarray A) :
  well_shaped a = true -> take_examples a 0 (batch a) = a.
Proof.
  intros H. apply well_shaped_rows in H. destruct a as [b rs].
  unfold take_examples. simpl in *. f_equal; [lia|].
  induction H as [|row rs Hrow Hrs IH]; simpl; [reflexivity|].
  rewrite IH. f_equal. apply slice_all. lia.
Qed.

Lemma fold_hstack_slices {A : Type} (a : ndarray A) (l : list nat) :
  forall p q, (p <= q)%nat -> adjacent lt (q :: l) ->
  Forall (fun k => (k < batch a)%nat) (q :: l) ->
  fold_left hstack
    (map (fun '(u, v) => take_examples a u v) (combine (q :: l) (l ++ [batch a])))
    (take_examples a p q)
  = take_examples a p (batch a).
Proof.
  induction l as [|q' l IH]; intros p q Hpq Hadj Hall.
  - simpl. apply take_examples_hstack; [assumption|].
    inversion Hall; subst. lia.
  - destruct Hadj as [Hqq' Hadj]. inversion Hall as [|? ? Hq Hall']; subst.
    change (combine (q :: q' :: l) ((q' :: l) ++ [batch a]))
      with ((q, q') :: combine (q' :: l) (l ++ [batch a])).
    cbn [map fold_left].
    rewrite take_examples_hstack by lia.
    apply IH; [lia | assumption | assumption].
Qed.

Lemma split_array_lossless {A : Type} (a : ndarray A) (sp : list nat) :
  well_shaped a = true -> valid_start_points (batch a) sp ->
  concatenate (split_array a sp) = Ok a.
Proof.
  intros Hw [Hhd [Hadj Hall]].
  destruct sp as [|p0 l]; [discriminate|]. injection Hhd as ->.
  unfold split_array, concatenate.
  destruct l as [|q l].
  - simpl. now rewrite take_examples_all.
  - change (combine (0%nat :: q :: l) (tl (0%nat :: q :: l) ++ [batch a]))
      with ((0%nat, q) :: combine (q :: l) (l ++ [batch a])).
    cbn [map]. f_equal.
    rewrite fold_hstack_slices.
    + now apply take_examples_all.
    + lia.
    + now destruct Hadj.
    + now inversion Hall.
Qed.

Lemma loop_inv_valid (num_sents : nat) (R : nat -> nat -> Prop)
  (sp : list nat) :
  (0 < num_sents)%nat ->
  (forall p q, R p q -> (p < q < num_sents)%nat) ->
  loop_inv num_sents R sp -> valid_start_points num_sents sp.
Proof.
  intros Hpos HR [Hhd [Hadj _]].
  destruct sp as [|p0 l]; [discriminate|]. injection Hhd as ->.
  apply adjacent_impl with (R' := fun p q => (p < q < num_sents)%nat) in Hadj;
    [|assumption].
  destruct (@adjacent_lt_bound num_sents l 0%nat Hadj Hpos) as [H1 H2].
  split; [reflexivity|]. split; assumption.
Qed.

Lemma run_loop_ok_inv (fuel : nat)
  (body : list nat -> result (ctl (list nat))) (sp : list nat) :
  run_loop fuel body = Ok sp -> while_true fuel body [0%nat] = Some (Ok sp).
Proof.
  unfold run_loop. destruct (while_true fuel body [0%nat]) as [r|];
    [now intros -> | discriminate].
Qed.

Lemma split_into_n_ok_inv (x_mask y_mask : ndarray Z) (n : Z) (sp : list nat) :
  _split_minibatch_into_n x_mask y_mask n = Ok sp ->
  exists soft_limit fuel,
    soft_limit_of (sum_axis0 x_mask) (sum_axis0 y_mask)
                  (length (sum_axis0 x_mask)) n = Ok soft_limit
    /\ while_true fuel
         (into_n_body (sum_axis0 x_mask) (sum_axis0 y_mask)
                      (length (sum_axis0 x_mask)) soft_limit) [0%nat]
       = Some (Ok sp)
    /\ (Z.of_nat (length sp) <= n)%Z.
Proof.
  unfold _split_minibatch_into_n. intros H.
  apply bind_ok in H as [? [_ H]].
  apply bind_ok in H as [L [HL H]].
  apply bind_ok in H as [sp' [Hloop H]].
  apply bind_ok in H as [u [Hassert H]]. injection H as ->.
  exists L, (length (sum_axis0 x_mask) + 1)%nat.
  split; [assumption|]. split; [now apply run_loop_ok_inv|].
  unfold py_assert in Hassert.
  destruct (_ <=? _)%Z eqn:E; [|discriminate]. now apply Z.leb_le.
Qed.

Lemma split_for_device_size_ok_inv (x_mask y_mask : ndarray Z)
  (max_sents max_tokens : Z) (sp : list nat) :
  _split_minibatch_for_device_size x_mask y_mask max_sents max_tokens = Ok sp ->
  max_sents = 0%Z /\ max_tokens <> 0%Z
  /\ exists fuel,
       while_true fuel
         (for_tokens_body (sum_axis0 x_mask) (sum_axis0 y_mask)
                          (length (sum_axis0 x_mask)) max_tokens) [0%nat]
       = Some (Ok sp).
Proof.
  unfold _split_minibatch_for_device_size. intros H.
  apply bind_ok in H as [? [_ H]].
  apply bind_ok in H as [u [Hassert H]].
  destruct (max_sents =? 0)%Z eqn:Es; simpl in H; [|discriminate].
  apply Z.eqb_eq in Es. split; [assumption|].
  unfold py_assert in Hassert. simpl in Hassert.
  destruct (max_tokens =? 0)%Z eqn:Et; simpl in Hassert; [discriminate|].
  apply Z.eqb_neq in Et. split; [assumption|].
  apply bind_ok in H as [? [_ H]].
  eexists. apply run_loop_ok_inv. eassumption.
Qed.

Lemma minibatch_inv (x : ndarray (list Z)) (x_mask y y_mask : ndarray Z) :
  minibatch x x_mask y y_mask = true ->
  minibatch_masks x_mask y_mask = true
  /\ well_shaped x = true /\ well_shaped y = true
  /\ well_shaped x_mask = true /\ well_shaped y_mask = true
  /\ batch x = batch x_mask /\ batch y = batch x_mask
  /\ batch y_mask = batch x_mask /\ (0 < batch x_mask)%nat.
Proof.
  unfold minibatch. rewrite !andb_true_iff, !Nat.eqb_eq.
  intros [[[[Hm Hx] Hy] Hbx] Hby]. pose proof Hm as Hm'.
  unfold minibatch_masks in Hm'.
  rewrite !andb_true_iff, Nat.eqb_eq, Nat.ltb_lt in Hm'.
  destruct Hm' as [[[? ?] ?] ?]. repeat split; auto.
Qed.

(** Whatever either partitioner returns on a non-empty minibatch is a valid
    list of start points. *)
Lemma partitioners_valid (x_mask y_mask : ndarray Z)
  (n max_sents max_tokens : Z) (sp : list nat) :
  minibatch_masks x_mask y_mask = true ->
  _split_minibatch_into_n x_mask y_mask n = Ok sp
  \/ _split_minibatch_for_device_size x_mask y_mask max_sents max_tokens
     = Ok sp ->
  valid_start_points (batch x_mask) sp.
Proof.
  intros Hm H. destruct (minibatch_masks_lengths _ _ Hm) as [Hx [Hy Hpos]].
  destruct H as [H|H].
  - apply split_into_n_ok_inv in H as [L [fuel [_ [Hloop _]]]].
    rewrite Hx in Hloop.
    apply (@into_n_loop_result _ _ _ Hx Hy Hpos) in Hloop as [Hinv _].
    apply loop_inv_valid with (R := into_n_link (sum_axis0 x_mask)
                                      (sum_axis0 y_mask) (batch x_mask) L);
      try assumption.
    intros p q [j [-> [Hpj [Hq _]]]]. lia.
  - apply split_for_device_size_ok_inv in H as [_ [_ [fuel Hloop]]].
    rewrite Hx in Hloop.
    apply (@for_tokens_loop_result _ _ _ Hx Hy Hpos) in Hloop as [Hinv _].
    apply loop_inv_valid with (R := for_tokens_link (sum_axis0 x_mask)
                                      (sum_axis0 y_mask) (batch x_mask)
                                      max_tokens);
      try assumption.
    intros p q [Hpq _]. lia.
Qed.

(** C3.  The start points that either partitioner returns for a non-empty
    minibatch begin at 0, increase strictly and are indices of examples, and
    the slices that [split_array] cuts at them (the sub-batches before
    trimming and padding), concatenated along the example axis, are the
    original [x], [x_mask], [y] and [y_mask]. *)
Theorem split_is_lossless (x : ndarray (list Z)) (x_mask y y_mask : ndarray Z)
  (n max_sents max_tokens : Z) (sp : list nat) :
  minibatch x x_mask y y_mask = true ->
  _split_minibatch_into_n x_mask y_mask n = Ok sp
  \/ _split_minibatch_for_device_size x_mask y_mask max_sents max_tokens
     = Ok sp ->
  (hd_error sp = Some 0%nat /\ adjacent lt sp
   /\ Forall (fun p => (p < batch x_mask)%nat) sp)
  /\ concatenate (split_array x sp) = Ok x
  /\ concatenate (split_array x_mask sp) = Ok x_mask
  /\ concatenate (split_array y sp) = Ok y
  /\ concatenate (split_array y_mask sp) = Ok y_mask.
Proof.
  intros Hmb H.
  destruct (minibatch_inv _ _ _ _ Hmb)
    as [Hm [Hwx [Hwy [Hwxm [Hwym [Hbx [Hby [Hbym Hpos]]]]]]]].
  pose proof (partitioners_valid _ _ _ _ _ Hm H) as Hvalid.
  split; [exact Hvalid|].
  repeat split; apply split_array_lossless; try assumption;
    congruence.
Qed.

(** ** The fixed-count split returns at most [n] start points *)

Lemma zsum_acc (l : list Z) :
  forall a, fold_left Z.add l a = (a + zsum l)%Z.
Proof.
  unfold zsum. induction l as [|v l IH]; intros a; simpl; [lia|].
  rewrite IH, (IH v). lia.
Qed.

Lemma zsum_cons (v : Z) (l : list Z) : zsum (v :: l) = (v + zsum l)%Z.
Proof.
  unfold zsum at 1. simpl. apply zsum_acc.
Qed.

Lemma zsum_app (l1 l2 : list Z) : zsum (l1 ++ l2) = (zsum l1 + zsum l2)%Z.
Proof.
  induction l1 as [|v l1 IH]; simpl; [reflexivity|].
  rewrite !zsum_cons, IH. lia.
Qed.

Lemma add_rows_nonneg (r1 r2 : list Z) :
  Forall (fun v => (0 <= v)%Z) r1 -> Forall (fun v => (0 <= v)%Z) r2 ->
  Forall (fun v => (0 <= v)%Z) (add_rows r1 r2).
Proof.
  intros H1. revert r2. unfold add_rows.
  induction H1 as [|u r1 Hu Hr1 IH]; intros r2 H2; simpl; [constructor|].
  destruct H2 as [|v r2 Hv Hr2]; simpl; constructor; [lia | auto].
Qed.

Lemma is_mask_rows (m : ndarray Z) :
  is_mask m = true -> Forall (Forall (fun v => v = 0%Z \/ v = 1%Z)) (rows m).
Proof.
  unfold is_mask. rewrite forallb_forall, Forall_forall. intros H r Hr.
  specialize (H r Hr). rewrite forallb_forall in H. rewrite Forall_forall.
  intros v Hv. specialize (H v Hv). apply orb_true_iff in H.
  destruct H as [H|H]; apply Z.eqb_eq in H; auto.
Qed.

Lemma sum_axis0_nonneg (m : ndarray Z) :
  is_mask m = true -> Forall (fun v => (0 <= v)%Z) (sum_axis0 m).
Proof.
  intros H. apply is_mask_rows in H. unfold sum_axis0.
  assert (Hacc : Forall (fun v => (0 <= v)%Z) (repeat 0%Z (batch m))).
  { apply Forall_forall. intros v Hv. apply repeat_spec in Hv. lia. }
  revert Hacc. generalize (repeat 0%Z (batch m)) as acc.
  induction H as [|r rs Hr Hrs IH]; intros acc Hacc; simpl; [assumption|].
  apply IH, add_rows_nonneg; [assumption|].
  eapply Forall_impl; [|exact Hr]. simpl. intros v [->| ->]; lia.
Qed.

Lemma ceil_div_upper (a n : Z) : (0 < n)%Z -> (a <= n * ceil_div a n)%Z.
Proof.
  intros Hn. unfold ceil_div.
  pose proof (Z.mul_div_le (- a) n Hn). lia.
Qed.

Lemma count_below_sum (soft_limit : Z) (costs : list Z) :
  Forall (fun c => (soft_limit < c)%Z) costs ->
  (Z.of_nat (length costs) * (soft_limit + 1) <= zsum costs)%Z.
Proof.
  induction 1 as [|c costs Hc Hcosts IH]; [unfold zsum; simpl; lia|].
  rewrite zsum_cons. cbn [length]. lia.
Qed.

Section FixedCount.

Variables source_lengths target_lengths : list Z.
Variable num_sents : nat.
Hypothesis source_len : length source_lengths = num_sents.
Hypothesis target_len : length target_lengths = num_sents.
Variables s_max t_max soft_limit : Z.
Hypothesis s_upper : Forall (fun v => (v <= s_max)%Z) source_lengths.
Hypothesis t_upper : Forall (fun v => (v <= t_max)%Z) target_lengths.

Let link := into_n_link source_lengths target_lengths num_sents soft_limit.

Lemma link_bin_tokens (p q : nat) :
  link p q ->
  (p < q < num_sents)%nat
  /\ (soft_limit < bin_tokens source_lengths target_lengths (p, q))%Z
  /\ (bin_tokens source_lengths target_lengths (p, q)
      <= (s_max + t_max) * (Z.of_nat q - Z.of_nat p))%Z.
Proof.
  intros [j [-> [Hpj [Hq [Hov _]]]]]. unfold overfills in Hov.
  unfold bin_tokens. replace (j + 1 - 1)%nat with j by lia.
  replace (Z.of_nat (j + 1) - Z.of_nat p)%Z
    with (Z.of_nat j - Z.of_nat p + 1)%Z by lia.
  split; [lia|]. split; [lia|].
  pose proof (@range_max_le source_lengths s_max p j ltac:(lia) s_upper).
  pose proof (@range_max_le target_lengths t_max p j ltac:(lia) t_upper).
  nia.
Qed.

Lemma closed_bins_cons (a b : nat) (l : list nat) :
  closed_bins (a :: b :: l) = (a, b) :: closed_bins (b :: l).
Proof. reflexivity. Qed.

(** Along a list of linked start points every closed sub-batch holds more
    tokens than the soft limit, and together they hold at most
    [(s_max + t_max)] times the number of examples before the last start
    point. *)
Lemma linked_bins (l : list nat) :
  forall a, adjacent link (a :: l) ->
  Forall (fun bin =>
            (soft_limit < bin_tokens source_lengths target_lengths bin)%Z)
         (closed_bins (a :: l))
  /\ (zsum (map (bin_tokens source_lengths target_lengths)
                (closed_bins (a :: l)))
      <= (s_max + t_max) * (Z.of_nat (last (a :: l) 0%nat) - Z.of_nat a))%Z
  /\ (a <= last (a :: l) 0)%nat
  /\ length (closed_bins (a :: l)) = length l.
Proof.
  induction l as [|b l IH]; intros a Hadj.
  - simpl. split; [constructor|]. split; [unfold zsum; simpl; lia|].
    split; [lia | reflexivity].
  - destruct Hadj as [Hab Hadj].
    destruct (IH b Hadj) as [Hall [Hsum [Hlast Hlen]]].
    destruct (link_bin_tokens Hab) as [Hlt [Hsoft Hbound]].
    rewrite closed_bins_cons.
    change (last (a :: b :: l) 0%nat) with (last (b :: l) 0%nat).
    split; [constructor; assumption|].
    split; [|split; [lia | simpl; now rewrite Hlen]].
    cbn [map]. rewrite zsum_cons. nia.
Qed.

End FixedCount.

(** C7.  For 0/1 masks of a non-empty minibatch and [n >= 1] the fixed-count
    split returns its start points, at most [n] of them: the assertion
    [len(start_points) <= n] holds.  Every sub-batch that the scan closed
    holds more tokens than the soft limit [ceil(total / n)], and the closed
    sub-batches together hold at most [total] tokens. *)
Theorem split_into_n_at_most_n (x_mask y_mask : ndarray Z) (n : Z) :
  minibatch_masks x_mask y_mask = true ->
  is_mask x_mask = true -> is_mask y_mask = true ->
  (1 <= n)%Z ->
  let source_lengths := sum_axis0 x_mask in
  let target_lengths := sum_axis0 y_mask in
  let num_sents := length source_lengths in
  exists s_max t_max sp,
    py_max source_lengths = Ok s_max /\ py_max target_lengths = Ok t_max
    /\ let total := (s_max * Z.of_nat num_sents
                     + t_max * Z.of_nat num_sents)%Z in
       let soft_limit := ceil_div total n in
       _split_minibatch_into_n x_mask y_mask n = Ok sp
       /\ (Z.of_nat (length sp) <= n)%Z
       /\ Forall (fun bin =>
                    (soft_limit
                     < bin_tokens source_lengths target_lengths bin)%Z)
                 (closed_bins sp)
       /\ (zsum (map (bin_tokens source_lengths target_lengths)
                     (closed_bins sp)) <= total)%Z.
Proof.
  intros Hm Hxm Hym Hn source_lengths target_lengths num_sents.
  destruct (minibatch_masks_lengths _ _ Hm) as [Hx [Hy Hpos]].
  assert (HN : num_sents = batch x_mask) by exact Hx.
  destruct (split_into_n_unfold _ _ Hm (n := n) ltac:(lia))
    as [L [sp [HL [Hloop Hres]]]].
  fold source_lengths target_lengths in HL, Hloop. rewrite <- HN in HL, Hloop.
  unfold soft_limit_of in HL.
  destruct (py_max source_lengths) as [s_max|] eqn:Hs; [|discriminate].
  destruct (py_max target_lengths) as [t_max|] eqn:Ht; [|discriminate].
  simpl in HL. destruct (n =? 0)%Z; [discriminate|]. injection HL as HL.
  exists s_max, t_max, sp. split; [reflexivity|]. split; [reflexivity|].
  intros total soft_limit.
  assert (HLs : L = soft_limit) by (subst L; reflexivity).
  clear HL. subst L.
  assert (Hy' : length target_lengths = num_sents)
    by (unfold target_lengths; lia).
  assert (Hpos' : (0 < num_sents)%nat) by lia.
  specialize (Hloop (S num_sents) ltac:(lia)).
  apply (@into_n_loop_result _ _ _ eq_refl Hy' Hpos') in Hloop
    as [[Hhd [Hadj [sp0 [i [Hsp Hi]]]]] _].
  destruct sp as [|p0 l]; [discriminate|]. injection Hhd as ->.
  pose proof (py_max_upper _ Hs) as Hsu.
  pose proof (py_max_upper _ Ht) as Htu.
  destruct (@linked_bins _ _ _ eq_refl Hy' s_max t_max soft_limit Hsu Htu
              l 0%nat Hadj) as [Hall [Hsum [_ Hlen]]].
  assert (Hlast : last (0%nat :: l) 0%nat = i) by (rewrite Hsp; apply last_last).
  rewrite Hlast in Hsum.
  assert (Hs0 : (0 <= s_max)%Z).
  { pose proof (sum_axis0_nonneg _ Hxm) as Hnn. fold source_lengths in Hnn.
    destruct source_lengths as [|v vs]; [discriminate|].
    inversion Hnn; inversion Hsu; subst. lia. }
  assert (Ht0 : (0 <= t_max)%Z).
  { pose proof (sum_axis0_nonneg _ Hym) as Hnn. fold target_lengths in Hnn.
    destruct target_lengths as [|v vs]; [discriminate|].
    inversion Hnn; inversion Htu; subst. lia. }
  pose proof (@count_below_sum soft_limit
                (map (bin_tokens source_lengths target_lengths)
                     (closed_bins (0%nat :: l)))) as Hcount.
  rewrite length_map, Hlen in Hcount.
  specialize (Hcount ltac:(now apply Forall_map)).
  pose proof (@ceil_div_upper total n ltac:(lia)) as Hceil.
  fold soft_limit in Hceil.
  assert (Htotal : (zsum (map (bin_tokens source_lengths target_lengths)
                              (closed_bins (0%nat :: l))) <= total)%Z).
  { unfold total. nia. }
  assert (Hlen_n : (Z.of_nat (length (0%nat :: l)) <= n)%Z).
  { cbn [length]. assert (0 <= total)%Z by (unfold total; nia).
    assert (0 <= soft_limit)%Z by nia. nia. }
  rewrite Hres. apply Z.leb_le in Hlen_n as Hb. rewrite Hb.
  repeat split; assumption.
Qed.

(** ** The token-limited split *)

Lemma adjacent_closed_bins (R : nat -> nat -> Prop) (l : list nat) :
  adjacent R l -> Forall (fun bin => R (fst bin) (snd bin)) (closed_bins l).
Proof.
  induction l as [|a l IH]; [constructor|].
  destruct l as [|b l]; [constructor|].
  intros [Hab Hl]. constructor; [exact Hab | exact (IH Hl)].
Qed.

Lemma range_max_ge_last (l : list Z) (p i : nat) :
  (p <= i)%nat -> (i < length l)%nat -> (nth i l 0 <= range_max l p i)%Z.
Proof.
  intros Hpi Hi. destruct (Nat.eq_dec p i) as [->|Hne].
  - rewrite range_max_refl. lia.
  - rewrite <- (@range_max_next l p i) by lia. lia.
Qed.

Section TokenLimited.

Variables source_lengths target_lengths : list Z.
Variable num_sents : nat.
Hypothesis source_len : length source_lengths = num_sents.
Hypothesis target_len : length target_lengths = num_sents.
Variable max_tokens : Z.
Hypothesis limit_pos : (0 < max_tokens)%Z.

Let link := for_tokens_link source_lengths target_lengths num_sents max_tokens.
Let exceeds' := exceeds source_lengths target_lengths max_tokens.

Lemma oversized_exceeds (p i : nat) :
  (p <= i)%nat -> (i < num_sents)%nat -> oversized source_lengths target_lengths max_tokens i -> exceeds' p i.
Proof.
  intros Hpi Hi [H|H]; [left | right].
  - pose proof (@range_max_ge_last source_lengths p i Hpi ltac:(lia)). nia.
  - pose proof (@range_max_ge_last target_lengths p i Hpi ltac:(lia)). nia.
Qed.

Lemma oversized_exceeds_next (i : nat) :
  (i + 1 < num_sents)%nat -> oversized source_lengths target_lengths max_tokens i -> exceeds' i (i + 1).
Proof.
  intros Hi [H|H]; [left | right].
  - pose proof (range_max_ge_first source_lengths i (i + 1)). nia.
  - pose proof (range_max_ge_first target_lengths i (i + 1)). nia.
Qed.

(** An oversized example is a start point. *)
Lemma oversized_starts (i : nat) (l : list nat) :
  (i < num_sents)%nat -> oversized source_lengths target_lengths max_tokens i ->
  forall a, (a <= i)%nat -> adjacent link (a :: l) ->
  (forall j, (last (a :: l) 0 < j < num_sents)%nat ->
             ~ exceeds' (last (a :: l) 0%nat) j) ->
  In i (a :: l).
Proof.
  intros Hi Hbig. induction l as [|b l IH]; intros a Hai Hadj Hfinal.
  - destruct (Nat.eq_dec a i) as [->|Hne]; [now left|].
    exfalso. apply (Hfinal i); [simpl; lia|].
    apply oversized_exceeds; simpl; auto.
  - destruct (Nat.eq_dec a i) as [->|Hne]; [now left|].
    destruct Hadj as [[Hab [Hex Hbefore]] Hadj].
    destruct (le_lt_dec b i) as [Hbi|Hib].
    + right. apply IH; assumption.
    + exfalso. apply (Hbefore i); [lia|].
      apply oversized_exceeds; [lia | assumption | assumption].
Qed.

(** The start point after an oversized one is the next example. *)
Lemma oversized_alone (i : nat) (l : list nat) :
  (i + 1 < num_sents)%nat -> oversized source_lengths target_lengths max_tokens i ->
  forall a, adjacent link (a :: l) -> In i (a :: l) ->
  (forall j, (last (a :: l) 0 < j < num_sents)%nat ->
             ~ exceeds' (last (a :: l) 0%nat) j) ->
  In (i + 1)%nat (a :: l).
Proof.
  intros Hi Hbig. induction l as [|b l IH]; intros a Hadj Hin Hfinal.
  - destruct Hin as [->|[]]. exfalso. apply (Hfinal (i + 1)%nat); [simpl; lia|].
    now apply oversized_exceeds_next.
  - destruct Hadj as [[Hab [Hex Hbefore]] Hadj].
    destruct Hin as [->|Hin].
    + destruct (Nat.eq_dec b (i + 1)) as [->|Hne]; [right; now left|].
      exfalso. apply (Hbefore (i + 1)%nat); [lia|].
      now apply oversized_exceeds_next.
    + right. apply IH; assumption.
Qed.

End TokenLimited.

(** C6.  With a token limit [max_tokens > 0] the capacity split of a
    non-empty 0/1-masked minibatch returns start points such that every
    start point [q]
    after a start point [p] is the first example after [p] whose inclusion
    in the sub-batch that starts at [p] would make the running maximum
    source length times the size, or the running maximum target length times
    the size, exceed the limit; the last sub-batch holds the rest of the
    minibatch within the limit; and an example that is itself longer than the
    limit is a start point and so is the example after it, so that it is
    alone in its sub-batch.  With source lengths [10,10,10] and the limit 15
    the start points are [0,1,2], whatever the target mask. *)
Theorem token_split_closes_before_overflow :
  (forall (x_mask y_mask : ndarray Z) (max_tokens : Z),
     minibatch_masks x_mask y_mask = true ->
     is_mask x_mask = true -> is_mask y_mask = true ->
     (0 < max_tokens)%Z ->
     let source_lengths := sum_axis0 x_mask in
     let target_lengths := sum_axis0 y_mask in
     let num_sents := length source_lengths in
     exists sp,
       _split_minibatch_for_device_size x_mask y_mask 0 max_tokens = Ok sp
       /\ Forall (fun bin =>
                    let p := fst bin in
                    let q := snd bin in
                    (p < q < num_sents)%nat
                    /\ exceeds source_lengths target_lengths max_tokens p q
                    /\ forall j, (p < j < q)%nat ->
                         ~ exceeds source_lengths target_lengths max_tokens p j)
                 (closed_bins sp)
       /\ (forall j, (last sp 0 < j < num_sents)%nat ->
             ~ exceeds source_lengths target_lengths max_tokens
                 (last sp 0%nat) j)
       /\ (forall i, (i < num_sents)%nat ->
             (max_tokens < nth i source_lengths 0)%Z
             \/ (max_tokens < nth i target_lengths 0)%Z ->
             In i sp /\ ((i + 1 < num_sents)%nat -> In (i + 1)%nat sp)))
  /\ (forall y_mask : ndarray Z,
        minibatch_masks (mask_of_lengths 10 [10; 10; 10]%nat) y_mask = true ->
        is_mask y_mask = true ->
        _split_minibatch_for_device_size
          (mask_of_lengths 10 [10; 10; 10]%nat) y_mask 0 15
        = Ok [0; 1; 2]%nat).
Proof.
  split.
  - intros x_mask y_mask max_tokens Hm _ _ Hpos
           source_lengths target_lengths num_sents.
    destruct (minibatch_masks_lengths _ _ Hm) as [Hx [Hy Hn]].
    assert (Hy' : length target_lengths = num_sents)
      by (unfold target_lengths, num_sents, source_lengths; lia).
    assert (Hn' : (0 < num_sents)%nat)
      by (unfold num_sents, source_lengths; lia).
    destruct (split_for_tokens_unfold _ _ Hm (max_tokens := max_tokens)
                ltac:(lia)) as [sp [Hloop Hres]].
    exists sp. split; [exact Hres|].
    specialize (Hloop (S (batch x_mask)) ltac:(lia)).
    rewrite <- Hx in Hloop. fold source_lengths target_lengths num_sents in Hloop.
    apply (@for_tokens_loop_result _ _ _ eq_refl Hy' Hn') in Hloop
      as [[Hhd [Hadj _]] Hfinal].
    split; [|split; [exact Hfinal|]].
    + apply adjacent_closed_bins in Hadj.
      eapply Forall_impl; [|exact Hadj].
      intros [p q] Hlink. exact Hlink.
    + intros i Hi Hbig.
      destruct sp as [|p0 l]; [discriminate|]. injection Hhd as ->.
      assert (Hin : In i (0%nat :: l)).
      { apply (@oversized_starts _ _ _ eq_refl Hy' max_tokens Hpos i l Hi Hbig
                 0%nat ltac:(lia) Hadj Hfinal). }
      split; [exact Hin|]. intros Hi1.
      apply (@oversized_alone _ _ _ eq_refl Hy' max_tokens Hpos i l Hi1 Hbig
               0%nat Hadj Hin Hfinal).
  - intros y_mask Hm _.
    destruct (minibatch_masks_lengths _ _ Hm) as [_ [Hy _]].
    unfold _split_minibatch_for_device_size.
    change (sum_axis0 (mask_of_lengths 10 [10; 10; 10]%nat))
      with [10; 10; 10]%Z.
    destruct (sum_axis0 y_mask) as [|t0 [|t1 [|t2 [|t3 ts]]]];
      try discriminate.
    reflexivity.
Qed.

(** ** The sentence-limited branch *)

(** C2.  With a nonzero [max_sents_per_device] (given here as a positive
    number) and [max_tokens_per_device = 0], the capacity split raises
    [UnboundLocalError] for every minibatch: it returns no chunks. *)
Theorem sentence_limited_split_raises (x_mask y_mask : ndarray Z)
  (max_sents : positive) :
  _split_minibatch_for_device_size x_mask y_mask (Z.pos max_sents) 0
  = Raise UnboundLocalError.
Proof.
  reflexivity.
Qed.

(** ** Scenario A *)

(** C9.  Source lengths [3,5,2,4], target lengths [2,3,1,2], [n = 2]: the
    soft limit is 16, the start points are [0, 3], the unnormalized weights
    of the two sub-batches are 16 and 6, and [update] feeds the replicas the
    weights 16/22 and 6/22, both with one replica and two aggregation steps
    and with two replicas and one step. *)
Theorem scenario_fixed_split (x : ndarray (list Z)) (y : ndarray Z) :
  let x_mask := mask_of_lengths 5 [3; 5; 2; 4]%nat in
  let y_mask := mask_of_lengths 3 [2; 3; 1; 2]%nat in
  sum_axis0 x_mask = [3; 5; 2; 4]%Z
  /\ sum_axis0 y_mask = [2; 3; 1; 2]%Z
  /\ soft_limit_of (sum_axis0 x_mask) (sum_axis0 y_mask) 4 2 = Ok 16%Z
  /\ ceil_div (5 * 4 + 3 * 4) 2 = 16%Z
  /\ _split_minibatch_into_n x_mask y_mask 2 = Ok [0; 3]%nat
  /\ (exists sm,
        _split_and_pad_minibatch 1 x x_mask y y_mask [0; 3]%nat = Ok sm
        /\ weights sm = [16; 6]%Z)
  /\ (exists sm,
        _split_and_pad_minibatch 2 x x_mask y y_mask [0; 3]%nat = Ok sm
        /\ weights sm = [16; 6]%Z)
  /\ normalize [16; 6]%Z = [Finite (16 # 22); Finite (6 # 22)]
  /\ (exists feeds,
        update_feeds (Config 0 0 2) 1 x x_mask y y_mask = Ok feeds
        /\ map (map feed_weight) feeds
           = [[Finite (16 # 22)]; [Finite (6 # 22)]])
  /\ (exists feeds,
        update_feeds (Config 0 0 1) 2 x x_mask y y_mask = Ok feeds
        /\ map (map feed_weight) feeds
           = [[Finite (16 # 22); Finite (6 # 22)]]).
Proof.
  intros x_mask y_mask.
  repeat split; try reflexivity; eexists; split; reflexivity.
Qed.

(** ** Splitting, trimming and padding *)

Lemma length_split_array {A : Type} (a : ndarray A) (sp : list nat) :
  length (split_array a sp) = length sp.
Proof.
  unfold split_array. rewrite length_map, length_combine, length_app.
  destruct sp; cbn [length tl]; lia.
Qed.

Lemma take_examples_shape {A : Type} (a : ndarray A) (p q : nat) :
  well_shaped a = true -> (p < q)%nat -> (q <= batch a)%nat ->
  well_shaped (take_examples a p q) = true
  /\ batch (take_examples a p q) = (q - p)%nat.
Proof.
  intros Hw Hpq Hq. split; [|simpl; lia].
  apply well_shaped_rows. apply well_shaped_rows in Hw.
  unfold take_examples. simpl. apply Forall_map.
  eapply Forall_impl; [|exact Hw]. simpl. intros r Hr.
  rewrite length_slice, Hr. reflexivity.
Qed.

(** The slices cut at valid start points are arrays of at least one
    example. *)
Lemma split_array_shapes {A : Type} (a : ndarray A) (sp : list nat) :
  well_shaped a = true -> valid_start_points (batch a) sp ->
  Forall (fun s => well_shaped s = true /\ (0 < batch s)%nat)
         (split_array a sp).
Proof.
  intros Hw [_ [Hadj Hall]]. unfold split_array.
  induction sp as [|p l IH]; [constructor|].
  inversion Hall as [|? ? Hp Hl]; subst.
  destruct l as [|q l].
  - simpl. constructor; [|constructor].
    destruct (take_examples_shape a Hw Hp (Nat.le_refl _)) as [H1 H2].
    split; [assumption | lia].
  - destruct Hadj as [Hpq Hadj].
    change (combine (p :: q :: l) (tl (p :: q :: l) ++ [batch a]))
      with ((p, q) :: combine (q :: l) (tl (q :: l) ++ [batch a])).
    cbn [map]. constructor; [|now apply IH].
    assert (Hq : (q < batch a)%nat) by now inversion Hl.
    destruct (@take_examples_shape A a p q Hw Hpq ltac:(lia)) as [H1 H2].
    split; [assumption | lia].
Qed.

Lemma map_result_ok {A B : Type} (f : A -> result B) (l : list A) :
  Forall (fun a => exists b, f a = Ok b) l ->
  exists bs, map_result f l = Ok bs /\ Forall2 (fun a b => f a = Ok b) l bs.
Proof.
  induction 1 as [|a l [b Hb] Hl [bs [Hbs Hall]]]; simpl.
  - exists []. split; [reflexivity | constructor].
  - rewrite Hb, Hbs. simpl. exists (b :: bs).
    split; [reflexivity | now constructor].
Qed.

Lemma max_lens_of_ok (split_mask : list (ndarray Z)) :
  Forall (fun s => well_shaped s = true /\ (0 < batch s)%nat) split_mask ->
  exists max_lens,
    max_lens_of split_mask = Ok max_lens
    /\ Forall2 (fun m l => py_max (sum_axis0 m) = Ok l) split_mask max_lens.
Proof.
  intros H. apply map_result_ok.
  eapply Forall_impl; [|exact H]. simpl. intros m [Hw Hb].
  apply py_max_ok. rewrite length_sum_axis0; assumption.
Qed.

Lemma length_trim_arrays {A : Type} (arrays : list (ndarray A))
  (lens : list Z) :
  length arrays = length lens ->
  length (trim_arrays arrays lens) = length arrays.
Proof.
  intros H. unfold trim_arrays. rewrite length_map, length_combine. lia.
Qed.

Lemma pad_ok {A : Type} (first : ndarray A) (rest : list (ndarray A))
  (padding_size : nat) :
  pad (first :: rest) padding_size
  = Ok ((first :: rest) ++ repeat (last_example first) padding_size).
Proof.
  reflexivity.
Qed.

Lemma padding_size_multiple (num_replicas k : nat) :
  (0 < num_replicas)%nat ->
  ((k + padding_size_of num_replicas k) mod num_replicas = 0)%nat
  /\ (padding_size_of num_replicas k < num_replicas)%nat.
Proof.
  intros HR. unfold padding_size_of.
  pose proof (Nat.mod_upper_bound k num_replicas ltac:(lia)) as Hlt.
  destruct (k mod num_replicas =? 0)%nat eqn:E.
  - apply Nat.eqb_eq in E. rewrite Nat.add_0_r. split; [assumption | lia].
  - apply Nat.eqb_neq in E. split; [|lia].
    pose proof (Nat.div_mod_eq k num_replicas) as Hk.
    replace (k + (num_replicas - k mod num_replicas))%nat
      with ((k / num_replicas + 1) * num_replicas)%nat by nia.
    apply Nat.Div0.mod_mul.
Qed.

(** [_split_and_pad_minibatch] on a non-empty minibatch and valid start
    points: nothing raises, and the five lists are the trimmed slices
    followed by the padding. *)
Lemma split_and_pad_unfold (num_replicas : nat)
  (x : ndarray (list Z)) (x_mask y y_mask : ndarray Z) (sp : list nat) :
  minibatch x x_mask y y_mask = true ->
  valid_start_points (batch x_mask) sp ->
  (0 < num_replicas)%nat ->
  exists x_lens y_lens fx fxm fy fym rx rxm ry rym,
    Forall2 (fun m l => py_max (sum_axis0 m) = Ok l)
            (split_array x_mask sp) x_lens
    /\ Forall2 (fun m l => py_max (sum_axis0 m) = Ok l)
               (split_array y_mask sp) y_lens
    /\ trim_arrays (split_array x sp) x_lens = fx :: rx
    /\ trim_arrays (split_array x_mask sp) x_lens = fxm :: rxm
    /\ trim_arrays (split_array y sp) y_lens = fy :: ry
    /\ trim_arrays (split_array y_mask sp) y_lens = fym :: rym
    /\ length (fx :: rx) = length sp /\ length (fxm :: rxm) = length sp
    /\ length (fy :: ry) = length sp /\ length (fym :: rym) = length sp
    /\ let padding_size := padding_size_of num_replicas (length sp) in
       _split_and_pad_minibatch num_replicas x x_mask y y_mask sp
       = Ok (SplitMinibatch
               ((fx :: rx) ++ repeat (last_example fx) padding_size)
               ((fxm :: rxm) ++ repeat (last_example fxm) padding_size)
               ((fy :: ry) ++ repeat (last_example fy) padding_size)
               ((fym :: rym) ++ repeat (last_example fym) padding_size)
               (map (fun '(s, t) => (np_sum s + np_sum t)%Z)
                    (combine (fxm :: rxm) (fym :: rym))
                ++ repeat 0%Z padding_size)).
Proof.
  intros Hmb Hvalid HR.
  destruct (minibatch_inv _ _ _ _ Hmb)
    as [Hm [Hwx [Hwy [Hwxm [Hwym [Hbx [Hby [Hbym Hpos]]]]]]]].
  assert (Hvy : valid_start_points (batch y_mask) sp) by now rewrite Hbym.
  destruct (max_lens_of_ok (split_array_shapes x_mask Hwxm Hvalid))
    as [x_lens [Hxl Hxall]].
  destruct (max_lens_of_ok (split_array_shapes y_mask Hwym Hvy))
    as [y_lens [Hyl Hyall]].
  pose proof (Forall2_length Hxall) as Hlx.
  pose proof (Forall2_length Hyall) as Hly.
  rewrite length_split_array in Hlx, Hly.
  assert (Hk : (0 < length sp)%nat).
  { destruct Hvalid as [Hhd _]. destruct sp; [discriminate | simpl; lia]. }
  assert (Hne : forall (A : Type) (a : ndarray A) (lens : list Z),
             length lens = length sp ->
             exists f r, trim_arrays (split_array a sp) lens = f :: r
                         /\ length (f :: r) = length sp).
  { intros A a lens Hlen.
    pose proof (@length_trim_arrays A (split_array a sp) lens) as Hl.
    rewrite length_split_array in Hl. specialize (Hl (eq_sym Hlen)).
    destruct (trim_arrays (split_array a sp) lens) as [|f r];
      [simpl in Hl; lia|].
    exists f, r. split; [reflexivity | assumption]. }
  destruct (Hne _ x x_lens (eq_sym Hlx)) as [fx [rx [Ex Lx]]].
  destruct (Hne _ x_mask x_lens (eq_sym Hlx)) as [fxm [rxm [Exm Lxm]]].
  destruct (Hne _ y y_lens (eq_sym Hly)) as [fy [ry [Ey Ly]]].
  destruct (Hne _ y_mask y_lens (eq_sym Hly)) as [fym [rym [Eym Lym]]].
  exists x_lens, y_lens, fx, fxm, fy, fym, rx, rxm, ry, rym.
  repeat (split; [assumption|]).
  intros padding_size. unfold _split_and_pad_minibatch.
  rewrite Hxl. cbn [bind]. rewrite Hyl. cbn [bind].
  rewrite Ex, Exm, Ey, Eym.
  destruct (num_replicas =? 0)%nat eqn:E0; [apply Nat.eqb_eq in E0; lia|].
  cbn [bind]. fold (padding_size_of num_replicas (length sp)).
  fold padding_size. rewrite !pad_ok. reflexivity.
Qed.





(** ** Trimming *)

Lemma nth_add_rows (k : nat) (r1 : list Z) :
  forall r2, length r1 = length r2 ->
  nth k (add_rows r1 r2) 0%Z = (nth k r1 0 + nth k r2 0)%Z.
Proof.
  unfold add_rows. revert k.
  induction r1 as [|u r1 IH]; intros k r2 Hlen; destruct r2 as [|v r2];
    try discriminate; destruct k; simpl; try reflexivity.
  apply IH. simpl in Hlen. lia.
Qed.

Lemma nth_fold_add_rows (k : nat) (rs : list (list Z)) :
  forall acc, Forall (fun r => length r = length acc) rs ->
  nth k (fold_left add_rows rs acc) 0%Z = (nth k acc 0 + zsum (col k rs))%Z.
Proof.
  induction rs as [|r rs IH]; intros acc H; simpl.
  - unfold zsum. simpl. lia.
  - inversion H as [|? ? Hr Hrs]; subst.
    rewrite IH.
    + rewrite nth_add_rows by congruence. rewrite zsum_cons. lia.
    + rewrite length_add_rows by congruence.
      eapply Forall_impl; [|exact Hrs]. simpl. intros; congruence.
Qed.

Lemma nth_sum_axis0 (m : ndarray Z) (k : nat) :
  well_shaped m = true ->
  nth k (sum_axis0 m) 0%Z = zsum (col k (rows m)).
Proof.
  intros H. apply well_shaped_rows in H. unfold sum_axis0.
  rewrite nth_fold_add_rows by (now rewrite repeat_length).
  rewrite nth_repeat. lia.
Qed.

Lemma col_binary (k : nat) (rs : list (list Z)) :
  Forall (Forall binary) rs -> Forall binary (col k rs).
Proof.
  intros H. unfold col. apply Forall_map.
  eapply Forall_impl; [|exact H]. simpl. intros r Hr.
  destruct (Nat.lt_ge_cases k (length r)) as [Hk|Hk].
  - rewrite Forall_forall in Hr. apply Hr. now apply nth_In.
  - rewrite nth_overflow by assumption. now left.
Qed.

Lemma row_above_nth (r1 r2 : list Z) (k : nat) :
  row_above r1 r2 = true -> length r1 = length r2 -> (k < length r1)%nat ->
  (nth k r2 0 <= nth k r1 0)%Z.
Proof.
  unfold row_above. rewrite forallb_forall. intros H Hlen Hk.
  assert (Hin : In (nth k r1 0%Z, nth k r2 0%Z) (combine r1 r2)).
  { rewrite <- combine_nth by assumption.
    apply nth_In. rewrite length_combine. lia. }
  apply H in Hin. now apply Z.leb_le.
Qed.

Lemma col_nonincreasing (k b : nat) (rs : list (list Z)) :
  left_aligned_rows rs = true -> Forall (fun r => length r = b) rs ->
  (k < b)%nat -> adjacent (fun u v => (v <= u)%Z) (col k rs).
Proof.
  intros Hla Hlen Hk. induction rs as [|r1 rs IH]; [exact I|].
  destruct rs as [|r2 rs]; [exact I|].
  simpl in Hla. apply andb_true_iff in Hla as [Habove Hla].
  inversion Hlen as [|? ? H1 Hrest]; subst. inversion Hrest; subst.
  split.
  - apply row_above_nth; [assumption | congruence | assumption].
  - apply IH; assumption.
Qed.

Lemma zsum_binary_bounds (c : list Z) :
  Forall binary c -> (0 <= zsum c <= Z.of_nat (length c))%Z.
Proof.
  induction 1 as [|v c Hv Hc IH]; [unfold zsum; simpl; lia|].
  rewrite zsum_cons. cbn [length]. destruct Hv; lia.
Qed.

(** In a non-increasing 0/1 column a 1 at position [i] means at least
    [i + 1] ones. *)
Lemma nonincreasing_ones (c : list Z) :
  Forall binary c -> adjacent (fun u v => (v <= u)%Z) c ->
  forall i, nth i c 0%Z = 1%Z -> (Z.of_nat i + 1 <= zsum c)%Z.
Proof.
  induction 1 as [|v c Hv Hc IH]; intros Hadj i Hi.
  - destruct i; discriminate.
  - rewrite zsum_cons. pose proof (zsum_binary_bounds Hc) as Hb.
    destruct i as [|i]; simpl in Hi; [lia|].
    destruct c as [|w c]; [destruct i; discriminate|].
    destruct Hadj as [Hwv Hadj].
    specialize (IH Hadj i Hi).
    assert (1 <= w)%Z.
    { clear - Hadj Hi Hc. revert w c Hadj Hi Hc.
      induction i as [|i IHi]; intros w c Hadj Hi Hc; simpl in Hi; [lia|].
      destruct c as [|w' c]; [destruct i; discriminate|].
      destruct Hadj as [Hw Hadj]. inversion Hc; subst.
      specialize (IHi w' c Hadj Hi ltac:(assumption)). lia. }
    destruct Hv; lia.
Qed.

Lemma forallb_firstn {A : Type} (f : A -> bool) (n : nat) (l : list A) :
  forallb f l = true -> forallb f (firstn n l) = true.
Proof.
  revert l. induction n as [|n IH]; intros [|a l] H; simpl; auto.
  simpl in H. apply andb_true_iff in H as [Ha Hl].
  now rewrite Ha, IH.
Qed.

Lemma forallb_skipn {A : Type} (f : A -> bool) (n : nat) (l : list A) :
  forallb f l = true -> forallb f (skipn n l) = true.
Proof.
  revert l. induction n as [|n IH]; intros [|a l] H; simpl; auto.
  simpl in H. apply andb_true_iff in H as [_ Hl]. now apply IH.
Qed.

Lemma forallb_slice {A : Type} (f : A -> bool) (p q : nat) (l : list A) :
  forallb f l = true -> forallb f (slice p q l) = true.
Proof.
  intros H. unfold slice. now apply forallb_firstn, forallb_skipn.
Qed.

Lemma combine_skipn {A B : Type} (n : nat) (l : list A) :
  forall l' : list B,
  combine (skipn n l) (skipn n l') = skipn n (combine l l').
Proof.
  revert l. induction n as [|n IH]; intros l l'; [reflexivity|].
  destruct l as [|a l]; [reflexivity|].
  destruct l' as [|b l']; simpl; [now rewrite combine_nil | apply IH].
Qed.

Lemma combine_slice {A B : Type} (p q : nat) (l : list A) (l' : list B) :
  combine (slice p q l) (slice p q l') = slice p q (combine l l').
Proof.
  unfold slice. now rewrite <- combine_firstn, combine_skipn.
Qed.

Lemma is_mask_take_examples (m : ndarray Z) (p q : nat) :
  is_mask m = true -> is_mask (take_examples m p q) = true.
Proof.
  unfold is_mask, take_examples. simpl.
  induction (rows m) as [|r rs IH]; simpl; [reflexivity|].
  intros H. apply andb_true_iff in H as [Hr Hrs].
  now rewrite forallb_slice, IH.
Qed.

Lemma left_aligned_take_examples (m : ndarray Z) (p q : nat) :
  left_aligned m = true -> left_aligned (take_examples m p q) = true.
Proof.
  unfold left_aligned, take_examples. simpl.
  induction (rows m) as [|r1 rs IH]; [reflexivity|].
  destruct rs as [|r2 rs]; [reflexivity|].
  intros H. simpl in H. apply andb_true_iff in H as [Habove Hrs].
  change (left_aligned_rows (map (slice p q) (r1 :: r2 :: rs)))
    with (row_above (slice p q r1) (slice p q r2)
          && left_aligned_rows (map (slice p q) (r2 :: rs))).
  rewrite (IH Hrs), andb_true_r.
  unfold row_above in *. rewrite combine_slice. now apply forallb_slice.
Qed.

Lemma Forall_split_array {A : Type} (P : ndarray A -> Prop) (a : ndarray A)
  (sp : list nat) :
  (forall p q, P (take_examples a p q)) -> Forall P (split_array a sp).
Proof.
  intros H. unfold split_array. apply Forall_forall. intros s Hs.
  apply in_map_iff in Hs as [[p q] [<- _]]. apply H.
Qed.

Lemma Forall2_and_left {A B : Type} (R : A -> B -> Prop) (P : A -> Prop)
  (l : list A) (l' : list B) :
  Forall2 R l l' -> Forall P l -> Forall2 (fun a b => R a b /\ P a) l l'.
Proof.
  induction 1 as [|a b l l' Hab Hl IH]; intros HP; [constructor|].
  inversion HP; subst. constructor; auto.
Qed.

Lemma sum_axis0_le_seq_len (m : ndarray Z) :
  well_shaped m = true -> is_mask m = true ->
  Forall (fun v => (v <= Z.of_nat (seq_len m))%Z) (sum_axis0 m).
Proof.
  intros Hw Hm. apply Forall_forall. intros v Hv.
  apply (In_nth _ _ 0%Z) in Hv as [k [Hk <-]].
  rewrite nth_sum_axis0 by assumption.
  pose proof (zsum_binary_bounds (col_binary k (is_mask_rows _ Hm))) as Hb.
  assert (Hlen : length (col k (rows m)) = seq_len m)
    by (unfold col; apply length_map).
  rewrite Hlen in Hb. lia.
Qed.

Lemma py_max_bounds (l : list Z) (m lo hi : Z) :
  py_max l = Ok m ->
  Forall (fun v => (lo <= v)%Z) l -> Forall (fun v => (v <= hi)%Z) l ->
  (lo <= m <= hi)%Z.
Proof.
  destruct l as [|a l]; simpl; intros H Hlo Hhi; [discriminate|].
  injection H as <-. inversion Hlo; inversion Hhi; subst. split.
  - pose proof (fold_max_ge l a). lia.
  - now apply fold_max_le.
Qed.

Lemma zsum_zeros (l : list Z) : Forall (fun v => v = 0%Z) l -> zsum l = 0%Z.
Proof.
  induction 1 as [|v l Hv Hl IH]; [reflexivity|].
  rewrite zsum_cons. lia.
Qed.

Lemma trim_mask_spec (m : ndarray Z) (l : Z) :
  well_shaped m = true -> is_mask m = true -> left_aligned m = true ->
  py_max (sum_axis0 m) = Ok l -> trimmed_to m l.
Proof.
  intros Hw Hm Hla Hl.
  destruct (py_max_bounds Hl (sum_axis0_nonneg _ Hm)
              (sum_axis0_le_seq_len _ Hw Hm)) as [Hl0 Hln].
  assert (Hzero : Forall (Forall (fun v => v = 0%Z))
                         (skipn (Z.to_nat l) (rows m))).
  { apply Forall_forall. intros r Hr. apply Forall_forall. intros v Hv.
    apply In_nth_error in Hr as [i Hi]. rewrite nth_error_skipn in Hi.
    apply (In_nth _ _ 0%Z) in Hv as [k [Hk Hv]].
    pose proof (is_mask_rows _ Hm) as Hbin.
    assert (Hrb : Forall binary r).
    { rewrite Forall_forall in Hbin. apply Hbin.
      eapply nth_error_In; eassumption. }
    assert (Hvb : binary v).
    { rewrite Forall_forall in Hrb. apply Hrb. subst v. now apply nth_In. }
    destruct Hvb as [Hv0|Hv1]; [assumption|]. exfalso.
    assert (Hrlen : length r = batch m).
    { apply well_shaped_rows in Hw. rewrite Forall_forall in Hw.
      apply Hw. eapply nth_error_In; eassumption. }
    assert (Hcol : nth (Z.to_nat l + i) (col k (rows m)) 0%Z = 1%Z).
    { unfold col. apply nth_error_nth.
      rewrite nth_error_map, Hi. simpl. congruence. }
    apply nonincreasing_ones in Hcol.
    - assert (Hle : (zsum (col k (rows m)) <= l)%Z).
      { rewrite <- nth_sum_axis0 by assumption.
        pose proof (py_max_upper _ Hl) as Hup. rewrite Forall_forall in Hup.
        apply Hup, nth_In. rewrite length_sum_axis0 by assumption. lia. }
      lia.
    - now apply col_binary.
    - apply col_nonincreasing with (b := batch m);
        [assumption | now apply well_shaped_rows | lia]. }
  assert (Hpre : py_prefix l (rows m) = firstn (Z.to_nat l) (rows m)).
  { unfold py_prefix. destruct (l <? 0)%Z eqn:E; [|reflexivity].
    apply Z.ltb_lt in E. lia. }
  split; [assumption|]. split; [|split; [assumption|]].
  - unfold seq_len, take_positions. simpl. rewrite Hpre, length_firstn.
    unfold seq_len in Hln. lia.
  - unfold np_sum, take_positions. simpl. rewrite Hpre.
    rewrite <- (firstn_skipn (Z.to_nat l) (rows m)) at 2.
    rewrite map_app, zsum_app.
    rewrite (zsum_zeros (l := map zsum (skipn (Z.to_nat l) (rows m)))); [lia|].
    apply Forall_map. eapply Forall_impl; [|exact Hzero].
    simpl. intros r Hr. now apply zsum_zeros.
Qed.

Lemma seq_len_take_examples {A : Type} (a : ndarray A) (p q : nat) :
  seq_len (take_examples a p q) = seq_len a.
Proof.
  unfold seq_len, take_examples. simpl. apply length_map.
Qed.








(** ** Normalization of the weights *)

Lemma zsum_nonneg_zero (ws : list Z) :
  Forall (fun w => (0 <= w)%Z) ws -> zsum ws = 0%Z ->
  Forall (fun w => w = 0%Z) ws.
Proof.
  induction 1 as [|w ws Hw Hws IH]; intros Hsum; [constructor|].
  rewrite zsum_cons in Hsum.
  assert (0 <= zsum ws)%Z.
  { clear - Hws. induction Hws as [|v vs Hv Hvs IHv]; [unfold zsum; simpl; lia|].
    rewrite zsum_cons. lia. }
  constructor; [lia | apply IH; lia].
Qed.

Lemma normalize_zero_sum (ws : list Z) :
  Forall (fun w => (0 <= w)%Z) ws -> zsum ws = 0%Z ->
  Forall (fun w => w = NaN) (normalize ws).
Proof.
  intros Hnn Hsum. unfold normalize. rewrite Hsum. apply Forall_map.
  eapply Forall_impl; [|exact (zsum_nonneg_zero Hnn Hsum)].
  simpl. intros w ->. reflexivity.
Qed.

Lemma np_sum_nonneg (m : ndarray Z) : is_mask m = true -> (0 <= np_sum m)%Z.
Proof.
  intros H. apply is_mask_rows in H. unfold np_sum.
  induction H as [|r rs Hr Hrs IH]; [unfold zsum; simpl; lia|].
  cbn [map]. rewrite zsum_cons.
  pose proof (zsum_binary_bounds Hr). lia.
Qed.

Lemma is_mask_take_positions (m : ndarray Z) (l : Z) :
  is_mask m = true -> is_mask (take_positions m l) = true.
Proof.
  unfold is_mask, take_positions, py_prefix. simpl. intros H.
  destruct (l <? 0)%Z; now apply forallb_firstn.
Qed.

Lemma is_mask_trimmed (m : ndarray Z) (sp : list nat) (lens : list Z) :
  is_mask m = true ->
  Forall (fun s => is_mask s = true) (trim_arrays (split_array m sp) lens).
Proof.
  intros H. unfold trim_arrays. apply Forall_forall. intros s Hs.
  apply in_map_iff in Hs as [[a l] [<- Hin]].
  apply in_combine_l in Hin. apply is_mask_take_positions.
  pose proof (@Forall_split_array Z (fun s => is_mask s = true) m sp
                (fun p q => is_mask_take_examples m p q H)) as Hall.
  rewrite Forall_forall in Hall. now apply Hall.
Qed.

Lemma weights_nonneg (sxm sym : list (ndarray Z)) (padding_size : nat) :
  Forall (fun s => is_mask s = true) sxm ->
  Forall (fun s => is_mask s = true) sym ->
  Forall (fun w => (0 <= w)%Z)
         (map (fun '(s, t) => (np_sum s + np_sum t)%Z) (combine sxm sym)
          ++ repeat 0%Z padding_size).
Proof.
  intros Hx Hy. apply Forall_app. split.
  - apply Forall_forall. intros w Hw.
    apply in_map_iff in Hw as [[s t] [<- Hin]].
    rewrite Forall_forall in Hx, Hy.
    pose proof (np_sum_nonneg _ (Hx _ (in_combine_l _ _ _ _ Hin))).
    pose proof (np_sum_nonneg _ (Hy _ (in_combine_r _ _ _ _ Hin))).
    lia.
  - apply Forall_forall. intros w Hw. apply repeat_spec in Hw. lia.
Qed.

(** The accumulation loop builds a feed dictionary for every round when the
    five lists have one length that is a multiple of the number of
    replicas. *)
Lemma feed_dicts_ok (num_replicas : nat) (sm : split_minibatch)
  (normalized_weights : list npfloat) (total : nat) :
  (0 < num_replicas)%nat -> (total mod num_replicas = 0)%nat ->
  length normalized_weights = total -> length (split_x sm) = total ->
  length (split_x_mask sm) = total -> length (split_y sm) = total ->
  length (split_y_mask sm) = total ->
  exists feeds,
    map_result (feed_dict_at num_replicas sm normalized_weights)
               (range_step total num_replicas) = Ok feeds
    /\ length feeds = (total / num_replicas)%nat
    /\ Forall (fun feed =>
                 length feed = num_replicas
                 /\ Forall (fun f => In (feed_weight f) normalized_weights)
                           feed)
              feeds.
Proof.
  intros HR Hmod Hw Hx Hxm Hy Hym.
  pose proof (Nat.div_mod_eq total num_replicas) as Hdiv.
  rewrite Hmod, Nat.add_0_r in Hdiv.
  assert (Hcount : ((total + num_replicas - 1) / num_replicas
                    = total / num_replicas)%nat).
  { rewrite Hdiv at 1.
    replace (num_replicas * (total / num_replicas) + num_replicas - 1)%nat
      with ((total / num_replicas) * num_replicas + (num_replicas - 1))%nat
      by lia.
    rewrite Nat.div_add_l by lia.
    rewrite (Nat.div_small (num_replicas - 1)) by lia. lia. }
  assert (Hround : forall i, In i (range_step total num_replicas) ->
            exists feed,
              feed_dict_at num_replicas sm normalized_weights i = Ok feed
              /\ length feed = num_replicas
              /\ Forall (fun f => In (feed_weight f) normalized_weights) feed).
  { intros i Hi. unfold range_step in Hi.
    apply in_map_iff in Hi as [k [<- Hk]]. apply in_seq in Hk.
    rewrite Hcount in Hk.
    assert (Hbound : forall j, (j < num_replicas)%nat ->
                               (k * num_replicas + j < total)%nat) by nia.
    unfold feed_dict_at.
    assert (Hgen : forall js,
               Forall (fun j => (j < num_replicas)%nat) js ->
               exists feed,
                 map_result
                   (fun j =>
                      do w <- getitem normalized_weights
                                (k * num_replicas + j);
                      do fx <- getitem (split_x sm) (k * num_replicas + j);
                      do fxm <- getitem (split_x_mask sm)
                                  (k * num_replicas + j);
                      do fy <- getitem (split_y sm) (k * num_replicas + j);
                      do fym <- getitem (split_y_mask sm)
                                  (k * num_replicas + j);
                      Ok (ReplicaFeed w fx fxm fy fym)) js = Ok feed
                 /\ length feed = length js
                 /\ Forall (fun f => In (feed_weight f) normalized_weights)
                           feed).
    { induction 1 as [|j js Hj Hjs IH]; simpl.
      - exists []. repeat split; constructor.
      - specialize (Hbound j Hj).
        destruct (@getitem_lt _ normalized_weights (k * num_replicas + j))
          as [w Ew]; [lia|].
        destruct (@getitem_lt _ (split_x sm) (k * num_replicas + j))
          as [fx Efx]; [lia|].
        destruct (@getitem_lt _ (split_x_mask sm) (k * num_replicas + j))
          as [fxm Efxm]; [lia|].
        destruct (@getitem_lt _ (split_y sm) (k * num_replicas + j))
          as [fy Efy]; [lia|].
        destruct (@getitem_lt _ (split_y_mask sm) (k * num_replicas + j))
          as [fym Efym]; [lia|].
        rewrite Ew, Efx, Efxm, Efy, Efym. simpl.
        destruct IH as [feed [Hfeed [Hlen Hin]]]. rewrite Hfeed. simpl.
        eexists. split; [reflexivity|]. split; [simpl; now rewrite Hlen|].
        constructor; [|assumption]. simpl.
        apply getitem_ok in Ew. eapply nth_error_In; eassumption. }
    destruct (Hgen (seq 0 num_replicas)) as [feed [Hfeed [Hlen Hin]]].
    { apply Forall_forall. intros j Hj. apply in_seq in Hj. lia. }
    exists feed. rewrite length_seq in Hlen. auto. }
  destruct (@map_result_ok _ _
              (feed_dict_at num_replicas sm normalized_weights)
              (range_step total num_replicas)) as [feeds [Hfeeds Hall]].
  { apply Forall_forall. intros i Hi.
    destruct (Hround i Hi) as [feed [Hfeed _]]. eauto. }
  exists feeds. split; [assumption|]. split.
  - rewrite <- (Forall2_length Hall). unfold range_step.
    rewrite length_map, length_seq. exact Hcount.
  - clear Hfeeds. induction Hall as [|i feed idxs feeds Hi Hrest IH];
      constructor.
    + destruct (Hround i (or_introl eq_refl)) as [feed' [Hfeed' Hprops]].
      rewrite Hi in Hfeed'. injection Hfeed' as <-. exact Hprops.
    + apply IH. intros i' Hi'. apply Hround. now right.
Qed.

Lemma start_points_of_valid (cfg : config) (num_replicas : nat)
  (x_mask y_mask : ndarray Z) (sp : list nat) :
  minibatch_masks x_mask y_mask = true ->
  start_points_of cfg num_replicas x_mask y_mask = Ok sp ->
  valid_start_points (batch x_mask) sp.
Proof.
  intros Hm H. unfold start_points_of in H.
  destruct (_ || _) in H.
  - eapply partitioners_valid with (n := 0%Z); [exact Hm | right; exact H].
  - eapply partitioners_valid with (max_sents := 0%Z) (max_tokens := 0%Z);
      [exact Hm | left; exact H].
Qed.

(** C4, as the code has it.  When the unnormalized weights of the
    sub-batches of a non-empty 0/1-masked minibatch sum to 0, normalization
    raises nothing: every normalized weight is the numpy quotient 0 / 0,
    [nan], and [update] goes on to feed every sub-batch to a replica, in at
    least one accumulation run, each with the weight [nan]. *)
Theorem zero_weight_sum_is_dispatched (cfg : config) (num_replicas : nat)
  (x : ndarray (list Z)) (x_mask y y_mask : ndarray Z)
  (sp : list nat) (sm : split_minibatch) :
  minibatch x x_mask y y_mask = true ->
  is_mask x_mask = true -> is_mask y_mask = true ->
  (1 <= num_replicas)%nat ->
  start_points_of cfg num_replicas x_mask y_mask = Ok sp ->
  _split_and_pad_minibatch num_replicas x x_mask y y_mask sp = Ok sm ->
  zsum (weights sm) = 0%Z ->
  Forall (fun w => w = NaN) (normalize (weights sm))
  /\ exists feeds,
       update_feeds cfg num_replicas x x_mask y y_mask = Ok feeds
       /\ (0 < length feeds)%nat
       /\ (length feeds * num_replicas = length (split_x sm))%nat
       /\ Forall (fun feed =>
                    length feed = num_replicas
                    /\ Forall (fun f => feed_weight f = NaN) feed)
                 feeds.
Proof.
  intros Hmb Hxm Hym HR Hsp Hsm Hzero.
  destruct (minibatch_inv _ _ _ _ Hmb) as [Hm _].
  pose proof (start_points_of_valid _ _ _ _ Hm Hsp) as Hvalid.
  destruct (split_and_pad_unfold x x_mask y y_mask Hmb Hvalid HR)
    as [x_lens [y_lens [fx [fxm [fy [fym [rx [rxm [ry [rym
       [_ [_ [Ex [Exm [Ey [Eym [Lx [Lxm [Ly [Lym Hres]]]]]]]]]]]]]]]]]]]].
  cbv zeta in Hres. rewrite Hsm in Hres. injection Hres as ->.
  cbn [weights split_x] in *.
  destruct (padding_size_multiple (length sp) HR) as [Hmul Hlt].
  set (padding_size := padding_size_of num_replicas (length sp)) in *.
  set (ws := map (fun '(s, t) => (np_sum s + np_sum t)%Z)
                 (combine (fxm :: rxm) (fym :: rym))
             ++ repeat 0%Z padding_size) in *.
  assert (Hnn : Forall (fun w => (0 <= w)%Z) ws).
  { apply weights_nonneg.
    - rewrite <- Exm. now apply is_mask_trimmed.
    - rewrite <- Eym. now apply is_mask_trimmed. }
  pose proof (normalize_zero_sum Hnn Hzero) as Hnan.
  split; [exact Hnan|].
  set (total := (length sp + padding_size)%nat) in *.
  assert (Lw : length ws = total).
  { unfold ws. rewrite length_app, length_map, length_combine, repeat_length.
    rewrite Lxm, Lym. unfold total. lia. }
  set (sm := SplitMinibatch
               ((fx :: rx) ++ repeat (last_example fx) padding_size)
               ((fxm :: rxm) ++ repeat (last_example fxm) padding_size)
               ((fy :: ry) ++ repeat (last_example fy) padding_size)
               ((fym :: rym) ++ repeat (last_example fym) padding_size)
               ws) in *.
  destruct (@feed_dicts_ok num_replicas sm (normalize ws) total)
    as [feeds [Hfeeds [Hlen Hall]]];
    try lia; try assumption;
    try (unfold normalize; rewrite length_map; exact Lw);
    try (unfold sm; cbn [split_x split_x_mask split_y split_y_mask];
         rewrite length_app, repeat_length; unfold total; lia).
  exists feeds.
  assert (Ltot : length ((fx :: rx) ++ repeat (last_example fx) padding_size)
                 = total).
  { rewrite length_app, repeat_length. unfold total. lia. }
  split.
  - unfold update_feeds. rewrite Hsp. cbn [bind]. rewrite Hsm. cbn [bind].
    change (map_result
              (feed_dict_at num_replicas sm (normalize (weights sm)))
              (range_step (length (split_x sm)) num_replicas) = Ok feeds).
    change (length (split_x sm))
      with (length ((fx :: rx) ++ repeat (last_example fx) padding_size)).
    rewrite Ltot. exact Hfeeds.
  - pose proof (Nat.div_mod_eq total num_replicas) as Hdiv.
    rewrite Hmul, Nat.add_0_r in Hdiv.
    assert (Hk : (0 < length sp)%nat).
    { destruct Hvalid as [Hhd _]. destruct sp; [discriminate | simpl; lia]. }
    split; [rewrite Hlen; unfold total in *; nia|].
    split.
    { rewrite (Ltot : length (fx :: rx ++ repeat (last_example fx)
                                             padding_size) = total), Hlen.
      lia. }
    eapply Forall_impl; [|exact Hall]. simpl.
    intros feed [Hflen Hin]. split; [assumption|].
    eapply Forall_impl; [|exact Hin]. simpl. intros f Hf.
    rewrite Forall_forall in Hnan. now apply Hnan.
Qed.

(** C4 fails for a minibatch of one example with no real token: the weights
    sum to 0, and [update] raises nothing; it feeds the one sub-batch to the
    replica with the weight [nan]. *)
Lemma zero_weight_sum_counterexample :
  let x := NdArray 1 [[[7%Z]]; [[8%Z]]] in
  let y := NdArray 1 [[5%Z]; [6%Z]] in
  let m := NdArray 1 [[0%Z]; [0%Z]] in
  let cfg := Config 0 0 1 in
  minibatch x m y m = true /\ is_mask m = true
  /\ (exists sp sm,
        start_points_of cfg 1 m m = Ok sp
        /\ _split_and_pad_minibatch 1 x m y m sp = Ok sm
        /\ zsum (weights sm) = 0%Z)
  /\ (exists feeds,
        update_feeds cfg 1 x m y m = Ok feeds
        /\ map (map feed_weight) feeds = [[NaN]])
  /\ forall e, update_feeds cfg 1 x m y m <> Raise e.
Proof.
  repeat split; try reflexivity.
  - do 2 eexists. repeat split; reflexivity.
  - eexists. split; reflexivity.
  - intros e. discriminate.
Qed.

(** ** The gradients of one round *)

Section RoundGradients.

Variable T : Type.

Lemma dict_append_keys (d : grad_dict T) (k : String.string) (gv : grad_var T) :
  forall k', In k' (map fst (dict_append d k gv)) <->
             In k' (map fst d) \/ k' = k.
Proof.
  induction d as [|[k0 l0] d IH]; intros k'; simpl.
  - intuition.
  - destruct (String.eqb k0 k) eqn:E; simpl.
    + apply String.eqb_eq in E. subst. intuition.
    + rewrite IH. intuition.
Qed.

Lemma dict_append_ok (d : grad_dict T) (gv : grad_var T) :
  dict_ok d -> dict_ok (dict_append d (name (snd gv)) gv).
Proof.
  intros [Hnd Hall]. induction d as [|[k0 l0] d IH]; simpl.
  - split.
    + constructor; [intros [] | constructor].
    + constructor; [|constructor]. simpl.
      split; [discriminate | repeat constructor].
  - inversion Hnd as [|? ? Hnotin Hnd']; subst.
    inversion Hall as [|? ? [Hne Hnames] Hall']; subst. simpl in *.
    destruct (String.eqb k0 (name (snd gv))) eqn:E.
    + apply String.eqb_eq in E. split; [exact Hnd|].
      constructor; [|assumption]. simpl. split.
      * destruct l0; discriminate.
      * apply Forall_app. split; [assumption|]. repeat constructor. auto.
    + apply String.eqb_neq in E. destruct (IH Hnd' Hall') as [Hnd2 Hall2].
      split.
      * simpl. constructor; [|assumption].
        rewrite dict_append_keys. intros [H|H]; [auto | congruence].
      * constructor; [split; assumption | assumption].
Qed.

Lemma dict_get_append (d : grad_dict T) (k : String.string) (gv : grad_var T)
  (k' : String.string) :
  dict_get (dict_append d k gv) k'
  = if String.eqb k k' then dict_get d k' ++ [gv] else dict_get d k'.
Proof.
  unfold dict_get. induction d as [|[k0 l0] d IH]; simpl.
  - destruct (String.eqb k k'); reflexivity.
  - destruct (String.eqb k0 k) eqn:E; simpl.
    + apply String.eqb_eq in E. subst k0.
      destruct (String.eqb k k'); reflexivity.
    + destruct (String.eqb k0 k') eqn:E'; simpl.
      * apply String.eqb_eq in E'. subst k0. now rewrite String.eqb_sym, E.
      * exact IH.
Qed.

Lemma add_all_spec (grad_vars : list (grad_var T)) (p : String.string) :
  forall d, dict_ok d ->
  dict_ok (add_all d grad_vars)
  /\ dict_get (add_all d grad_vars) p
     = dict_get d p ++ filter (named p) grad_vars.
Proof.
  unfold add_all.
  induction grad_vars as [|gv gvs IH]; intros d Hd; simpl.
  - split; [assumption | now rewrite app_nil_r].
  - destruct (IH _ (dict_append_ok gv Hd)) as [Hok Hget].
    split; [assumption|]. rewrite Hget, dict_get_append. unfold named at 2.
    destruct (String.eqb (name (snd gv)) p); [|reflexivity].
    now rewrite <- app_assoc.
Qed.

Lemma group_by_name_spec (all_grad_vars : list (list (grad_var T)))
  (p : String.string) :
  dict_ok (group_by_name all_grad_vars)
  /\ dict_get (group_by_name all_grad_vars) p
     = concat (map (filter (named p)) all_grad_vars).
Proof.
  unfold group_by_name.
  assert (Hgen : forall d, dict_ok d ->
            dict_ok (fold_left (@add_all T) all_grad_vars d)
            /\ dict_get (fold_left (@add_all T) all_grad_vars d) p
               = dict_get d p ++ concat (map (filter (named p)) all_grad_vars)).
  { induction all_grad_vars as [|gvs rest IH]; intros d Hd; simpl.
    - split; [assumption | now rewrite app_nil_r].
    - destruct (add_all_spec gvs p Hd) as [Hok Hget].
      destruct (IH _ Hok) as [Hok' Hget'].
      split; [assumption|]. now rewrite Hget', Hget, <- app_assoc. }
  apply (Hgen []). split; constructor.
Qed.

End RoundGradients.

Section CombineRound.

Variables T W : Type.
Variable scale : T -> W -> T.
Variable add : T -> T -> T.
Variable zero : T.

Lemma map_result_inv {A B : Type} (f : A -> result B) (l : list A) :
  forall bs, map_result f l = Ok bs -> Forall2 (fun a b => f a = Ok b) l bs.
Proof.
  induction l as [|a l IH]; intros bs H; simpl in H.
  - injection H as <-. constructor.
  - apply bind_ok in H as [b [Hb H]]. apply bind_ok in H as [bs' [Hbs H]].
    injection H as <-. constructor; auto.
Qed.

Lemma all_some_map (gs : list (option T)) (ts : list T) :
  all_some gs = Some ts -> gs = map Some ts.
Proof.
  revert ts. induction gs as [|[g|] gs IH]; intros ts H; simpl in H.
  - injection H as <-. reflexivity.
  - destruct (all_some gs) as [ts'|]; [|discriminate].
    injection H as <-. simpl. now rewrite (IH ts').
  - discriminate.
Qed.

Lemma found_none_value_spec (v : variable) (gs : list (option T)) :
  found_none_value (map (fun g => (g, v)) gs)
  = match all_some gs with Some _ => false | None => true end.
Proof.
  unfold found_none_value.
  induction gs as [|[g|] gs IH]; simpl; try reflexivity.
  rewrite IH. now destruct (all_some gs).
Qed.

Lemma weighted_grads_spec (v : variable) (weights : list W) (ts : list T) :
  forall i r,
  weighted_grads scale v weights i (map (fun t => (Some t, v)) ts) = Ok r ->
  r = map (fun '(g, w) => scale g w) (combine ts (skipn i weights)).
Proof.
  induction ts as [|t ts IH]; intros i r H; simpl in H.
  - injection H as <-. reflexivity.
  - apply bind_ok in H as [u [_ H]].
    apply bind_ok in H as [w [Hw H]]. cbn [bind] in H.
    apply bind_ok in H as [r' [Hr' H]]. injection H as <-.
    apply getitem_ok in Hw.
    assert (Hskip : skipn i weights = w :: skipn (S i) weights).
    { clear - Hw. revert i Hw. induction weights as [|w0 ws IHw];
        intros [|i] Hw; simpl in *; try discriminate.
      - now injection Hw as ->.
      - now apply IHw. }
    rewrite Hskip. cbn [combine map]. f_equal. now apply IH.
Qed.

(** One variable: the pair that [_sum_gradients] builds from the list of the
    reported gradients. *)
Lemma avg_grad_var_spec (v : variable) (weights : list W)
  (gs : list (option T)) (o : grad_var T) :
  gs <> [] ->
  avg_grad_var scale add zero weights (map (fun g => (g, v)) gs) = Ok o ->
  o = (round_grad scale add zero gs weights, v).
Proof.
  intros Hne H. unfold avg_grad_var in H.
  destruct gs as [|g0 gs]; [contradiction|].
  cbn [map getitem nth_error bind snd] in H.
  change ((g0, v) :: map (fun g => (g, v)) gs)
    with (map (fun g => (g, v)) (g0 :: gs)) in H.
  rewrite found_none_value_spec in H. unfold round_grad.
  destruct (all_some (g0 :: gs)) as [ts|] eqn:E.
  - apply all_some_map in E. rewrite E in H.
    rewrite map_map in H.
    apply bind_ok in H as [r [Hr H]]. injection H as <-.
    apply weighted_grads_spec in Hr. now rewrite Hr.
  - now injection H as <-.
Qed.

Lemma avg_grad_var_name (weights : list W) (l : list (grad_var T))
  (k : String.string) (o : grad_var T) :
  Forall (fun gv => name (snd gv) = k) l ->
  avg_grad_var scale add zero weights l = Ok o -> name (snd o) = k.
Proof.
  intros Hall H. unfold avg_grad_var in H.
  destruct l as [|first l]; [discriminate|].
  cbn [getitem nth_error bind] in H. inversion Hall; subst.
  destruct (found_none_value (first :: l)).
  - now injection H as <-.
  - apply bind_ok in H as [r [_ H]]. now injection H as <-.
Qed.

(** The entry of the output for the key [p] is computed from the entry of
    the dictionary for [p]. *)
Lemma find_in_output (weights : list W) (p : String.string)
  (d : grad_dict T) :
  forall out,
  Forall (fun entry => Forall (fun gv => name (snd gv) = fst entry)
                              (snd entry)) d ->
  Forall2 (fun entry o => avg_grad_var scale add zero weights (snd entry)
                          = Ok o) d out ->
  match find (fun entry => String.eqb (fst entry) p) d with
  | Some entry =>
      exists o, find (named p) out = Some o
                /\ avg_grad_var scale add zero weights (snd entry) = Ok o
  | None => find (named p) out = None
  end.
Proof.
  induction d as [|e d IH]; intros out Hnames Hall.
  - inversion Hall; subst. reflexivity.
  - inversion Hall as [|? o ? out' Ho Hrest]; subst.
    inversion Hnames as [|? ? He Hd]; subst. simpl in Ho |- *.
    pose proof (@avg_grad_var_name weights _ _ _ He Ho) as Hkey.
    assert (Hn : named p o = String.eqb (fst e) p)
      by (unfold named; now rewrite Hkey).
    rewrite !Hn.
    destruct (String.eqb (fst e) p); [exists o; auto | now apply IH].
Qed.

Lemma NoDup_map_unique {A B : Type} (f : A -> B) (l : list A) (a b : A) :
  NoDup (map f l) -> In a l -> In b l -> f a = f b -> a = b.
Proof.
  induction l as [|c l IH]; intros Hnd Ha Hb Hf; [contradiction|].
  inversion Hnd as [|? ? Hnotin Hnd']; subst.
  destruct Ha as [->|Ha], Hb as [->|Hb]; auto.
  - exfalso. apply Hnotin. rewrite Hf. now apply in_map.
  - exfalso. apply Hnotin. rewrite <- Hf. now apply in_map.
Qed.

Lemma output_names (weights : list W) (d : grad_dict T) :
  forall out,
  Forall (fun entry => Forall (fun gv => name (snd gv) = fst entry)
                              (snd entry)) d ->
  Forall2 (fun entry o => avg_grad_var scale add zero weights (snd entry)
                          = Ok o) d out ->
  map (fun o => name (snd o)) out = map fst d.
Proof.
  induction d as [|e d IH]; intros out Hnames Hall.
  - inversion Hall; subst. reflexivity.
  - inversion Hall as [|? o ? out' Ho Hrest]; subst.
    inversion Hnames as [|? ? He Hd]; subst. simpl in Ho |- *.
    f_equal; [|now apply IH].
    exact (@avg_grad_var_name weights _ _ _ He Ho).
Qed.

End CombineRound.

Section SumGradientsSpec.

Variables T W : Type.
Variable scale : T -> W -> T.
Variable add : T -> T -> T.
Variable zero : T.

Lemma concat_reports (p : String.string) (v : variable)
  (all_grad_vars : list (list (grad_var T))) (gs : list (option T)) :
  Forall2 (fun grad_vars g => filter (named p) grad_vars = [(g, v)])
          all_grad_vars gs ->
  concat (map (filter (named p)) all_grad_vars) = map (fun g => (g, v)) gs.
Proof.
  induction 1 as [|grad_vars g rest gs Hg Hrest IH]; [reflexivity|].
  simpl. now rewrite Hg, IH.
Qed.

(** C1, as the code has it.  When every sub-batch of a round reports the
    variable named [p] once, sub-batch i with the gradient [g_i] (or [None]),
    then the pair that [_sum_gradients] returns for [p] holds [None] as soon
    as one [g_i] is [None], and otherwise the sum of the [g_i * weights[i]];
    it is the only pair returned for a variable of that name. *)
Theorem sum_gradients_any_unused
  (all_grad_vars : list (list (grad_var T))) (weights : list W)
  (out : list (grad_var T)) (p : String.string) (v : variable)
  (gs : list (option T)) :
  _sum_gradients scale add zero all_grad_vars weights = Ok out ->
  all_grad_vars <> [] ->
  Forall2 (fun grad_vars g => filter (named p) grad_vars = [(g, v)])
          all_grad_vars gs ->
  find (named p) out = Some (round_grad scale add zero gs weights, v)
  /\ forall o, In o out -> named p o = true ->
               o = (round_grad scale add zero gs weights, v).
Proof.
  intros Hout Hne Hreports. unfold _sum_gradients in Hout.
  apply map_result_inv in Hout.
  destruct (group_by_name_spec all_grad_vars p) as [[Hnd Hnames] Hget].
  rewrite (@concat_reports p v _ _ Hreports) in Hget.
  assert (Hgs : gs <> []).
  { intros ->. inversion Hreports; subst. now apply Hne. }
  assert (Hnames' : Forall (fun entry =>
                              Forall (fun gv => name (snd gv) = fst entry)
                                     (snd entry))
                           (group_by_name all_grad_vars)).
  { eapply Forall_impl; [|exact Hnames]. simpl. now intros e [_ H]. }
  pose proof (@find_in_output T W scale add zero weights p
                (group_by_name all_grad_vars) out Hnames' Hout) as Hfind.
  unfold dict_get in Hget.
  destruct (find (fun entry => String.eqb (fst entry) p)
                 (group_by_name all_grad_vars)) as [entry|] eqn:E.
  - destruct Hfind as [o [Ho Havg]]. rewrite Hget in Havg.
    apply avg_grad_var_spec in Havg; [|assumption]. subst o.
    split; [assumption|].
    intros o Hin Hnamed.
    apply find_some in Ho as [Hin0 Hnamed0].
    apply (@NoDup_map_unique _ _ (fun o => name (snd o)) out); try assumption.
    + rewrite (@output_names T W scale add zero weights
                 (group_by_name all_grad_vars) out Hnames' Hout).
      assumption.
    + unfold named in Hnamed, Hnamed0.
      apply String.eqb_eq in Hnamed, Hnamed0. congruence.
  - destruct gs; [contradiction | discriminate].
Qed.

End SumGradientsSpec.

(** C1 fails when one of two sub-batches reports a variable as unused: with
    the gradients 3 and [None] and the weights 1/2 and 1/2 the code returns
    [None] for the variable, where the claim has 3 * 1/2 + 0. *)
Lemma sum_gradients_counterexample :
  let p := Var "w"%string 0 in
  let all_grad_vars := [[(Some (3 # 1), p)]; [(None, p)]] in
  let weights := [1 # 2; 1 # 2] in
  _sum_gradients Qmult Qplus (0 # 1) all_grad_vars weights = Ok [(None, p)]
  /\ round_grad_claimed Qmult Qplus (0 # 1) [Some (3 # 1); None] weights
     = Some (Qplus (Qplus (0 # 1) (Qmult (3 # 1) (1 # 2))) (0 # 1))
  /\ forall out,
       _sum_gradients Qmult Qplus (0 # 1) all_grad_vars weights = Ok out ->
       find (named "w"%string) out
       <> Some (round_grad_claimed Qmult Qplus (0 # 1)
                  [Some (3 # 1); None] weights, p).
Proof.
  repeat split.
  intros out H. injection H as <-. discriminate.
Qed.

(** * Further properties *)

(** ** What the partitioners raise *)

Lemma fold_add_rows_nil (rs : list (list Z)) : fold_left add_rows rs [] = [].
Proof. induction rs as [|r rs IH]; [reflexivity | exact IH]. Qed.

Lemma sum_axis0_no_example (m : ndarray Z) :
  batch m = 0%nat -> sum_axis0 m = [].
Proof.
  intros H. unfold sum_axis0. rewrite H. apply fold_add_rows_nil.
Qed.

(** A minibatch without examples: the fixed-count split fails on
    [max(source_lengths)], the token-limited split on [source_lengths[0]]. *)
Theorem empty_minibatch_raises (x_mask y_mask : ndarray Z) :
  batch x_mask = 0%nat -> batch y_mask = 0%nat ->
  (forall n, _split_minibatch_into_n x_mask y_mask n = Raise ValueError)
  /\ (forall max_tokens, max_tokens <> 0%Z ->
        _split_minibatch_for_device_size x_mask y_mask 0 max_tokens
        = Raise IndexError).
Proof.
  intros Hx Hy. split.
  - intros n. unfold _split_minibatch_into_n.
    rewrite (sum_axis0_no_example _ Hx), (sum_axis0_no_example _ Hy).
    reflexivity.
  - intros max_tokens Hm. unfold _split_minibatch_for_device_size.
    rewrite (sum_axis0_no_example _ Hx), (sum_axis0_no_example _ Hy).
    apply Z.eqb_neq in Hm. rewrite Hm. reflexivity.
Qed.

(** Masks over different numbers of examples are refused by the assertion on
    the two length vectors, in both partitioners. *)
Theorem mismatched_masks_raise (x_mask y_mask : ndarray Z) :
  well_shaped x_mask = true -> well_shaped y_mask = true ->
  batch x_mask <> batch y_mask ->
  (forall n, _split_minibatch_into_n x_mask y_mask n = Raise AssertionError)
  /\ (forall max_tokens, max_tokens <> 0%Z ->
        _split_minibatch_for_device_size x_mask y_mask 0 max_tokens
        = Raise AssertionError).
Proof.
  intros Hx Hy Hne.
  assert (Hlen : (length (sum_axis0 x_mask) =? length (sum_axis0 y_mask))%nat
                 = false).
  { rewrite !length_sum_axis0 by assumption. now apply Nat.eqb_neq. }
  split.
  - intros n. unfold _split_minibatch_into_n. rewrite Hlen. reflexivity.
  - intros max_tokens Hm. unfold _split_minibatch_for_device_size.
    apply Z.eqb_neq in Hm. rewrite Hm, Hlen. reflexivity.
Qed.

(** [update] with a sentence limit in the configuration never gets past the
    partitioning: it raises [AssertionError] when a token limit is set as well
    and [UnboundLocalError] otherwise, whatever the minibatch. *)
Theorem update_with_sentence_limit_raises (cfg : config) (num_replicas : nat)
  (x : ndarray (list Z)) (x_mask y y_mask : ndarray Z) :
  max_sentences_per_device cfg <> 0%Z ->
  update_feeds cfg num_replicas x x_mask y y_mask
  = Raise (if (max_tokens_per_device cfg =? 0)%Z then UnboundLocalError
           else AssertionError).
Proof.
  intros H. apply Z.eqb_neq in H.
  unfold update_feeds, start_points_of, _split_minibatch_for_device_size.
  rewrite H. destruct (max_tokens_per_device cfg =? 0)%Z; reflexivity.
Qed.

(** The fixed-count split of a non-empty minibatch fails for every [n] below
    1: for [n = 0] on [math.ceil] of an infinite or undefined quotient, for a
    negative [n] on the final assertion. *)
Theorem split_into_n_needs_positive_n (x_mask y_mask : ndarray Z) (n : Z) :
  minibatch_masks x_mask y_mask = true ->
  (n = 0%Z ->
   _split_minibatch_into_n x_mask y_mask n = Raise ValueError
   \/ _split_minibatch_into_n x_mask y_mask n = Raise OverflowError)
  /\ ((n < 0)%Z ->
      _split_minibatch_into_n x_mask y_mask n = Raise AssertionError).
Proof.
  intros Hm. destruct (minibatch_masks_lengths _ _ Hm) as [Hx [Hy Hpos]].
  split.
  - intros ->. unfold _split_minibatch_into_n, soft_limit_of.
    rewrite Hx, Hy, Nat.eqb_refl. cbn [py_assert bind].
    destruct (@py_max_ok (sum_axis0 x_mask) ltac:(lia)) as [s Hs].
    destruct (@py_max_ok (sum_axis0 y_mask) ltac:(lia)) as [t Ht].
    rewrite Hs, Ht. cbn [bind Z.eqb].
    destruct (_ =? 0)%Z; [left | right]; reflexivity.
  - intros Hn.
    destruct (split_into_n_unfold _ _ Hm (n := n) ltac:(lia))
      as [L [sp [_ [_ Hres]]]].
    rewrite Hres.
    destruct (Z.leb_spec (Z.of_nat (length sp)) n); [lia | reflexivity].
Qed.

(** ** The shape of the splits *)

Lemma ceil_div_one (a : Z) : ceil_div a 1 = a.
Proof. unfold ceil_div. rewrite Z.div_1_r. lia. Qed.

Lemma py_max_nonneg (l : list Z) (m : Z) :
  py_max l = Ok m -> Forall (fun v => (0 <= v)%Z) l -> (0 <= m)%Z.
Proof.
  intros Hmax Hnn.
  destruct (@py_max_bounds l m 0%Z m Hmax Hnn (@py_max_upper l m Hmax))
    as [H _].
  exact H.
Qed.

(** With [n = 1], what [update] passes for one replica and one aggregation
    step, the fixed-count split leaves a 0/1-masked minibatch whole. *)
Theorem split_into_one (x_mask y_mask : ndarray Z) :
  minibatch_masks x_mask y_mask = true ->
  is_mask x_mask = true -> is_mask y_mask = true ->
  _split_minibatch_into_n x_mask y_mask 1 = Ok [0%nat].
Proof.
  intros Hm Hxm Hym.
  destruct (minibatch_masks_lengths _ _ Hm) as [Hx [Hy Hpos]].
  destruct (split_into_n_unfold _ _ Hm (n := 1%Z) ltac:(lia))
    as [L [sp [HL [Hloop Hres]]]].
  unfold soft_limit_of in HL.
  destruct (py_max (sum_axis0 x_mask)) as [s_max|] eqn:Hs; [|discriminate].
  destruct (py_max (sum_axis0 y_mask)) as [t_max|] eqn:Ht; [|discriminate].
  change (1 =? 0)%Z with false in HL. cbn [bind] in HL.
  injection HL as HL. rewrite ceil_div_one in HL.
  specialize (Hloop (S (batch x_mask)) ltac:(lia)).
  apply (@into_n_loop_result _ _ _ Hx Hy Hpos) in Hloop
    as [[Hhd [Hadj _]] _].
  pose proof (@py_max_upper _ _ Hs) as Hsu.
  pose proof (@py_max_upper _ _ Ht) as Htu.
  pose proof (@py_max_nonneg _ _ Hs (@sum_axis0_nonneg _ Hxm)) as Hs0.
  pose proof (@py_max_nonneg _ _ Ht (@sum_axis0_nonneg _ Hym)) as Ht0.
  destruct sp as [|p0 [|b l]]; [discriminate| |].
  - injection Hhd as ->. rewrite Hres. reflexivity.
  - exfalso. injection Hhd as ->. destruct Hadj as [Hlink _].
    destruct (@link_bin_tokens _ _ _ Hx Hy s_max t_max L Hsu Htu _ _ Hlink)
      as [Hb [Hlo Hhi]].
    subst L. nia.
Qed.

(** The fixed-count split of a non-empty 0/1-masked minibatch closes a
    sub-batch right after the first example that takes it over the soft
    limit: every closed sub-batch has at least two
    examples, its last example overfills it and none before does; and none
    but the very last example overfills the sub-batch left open. *)
Theorem fixed_split_overfills_by_one (x_mask y_mask : ndarray Z) (n : Z)
  (sp : list nat) :
  minibatch_masks x_mask y_mask = true ->
  is_mask x_mask = true -> is_mask y_mask = true ->
  _split_minibatch_into_n x_mask y_mask n = Ok sp ->
  let source_lengths := sum_axis0 x_mask in
  let target_lengths := sum_axis0 y_mask in
  let num_sents := length source_lengths in
  exists soft_limit,
    soft_limit_of source_lengths target_lengths num_sents n = Ok soft_limit
    /\ Forall (fun bin =>
                 let p := fst bin in
                 let q := snd bin in
                 (p + 2 <= q < num_sents)%nat
                 /\ overfills source_lengths target_lengths soft_limit p (q - 1)
                 /\ forall j, (p < j < q - 1)%nat ->
                      ~ overfills source_lengths target_lengths soft_limit p j)
              (closed_bins sp)
    /\ forall j, (last sp 0 < j)%nat -> (j + 1 < num_sents)%nat ->
         ~ overfills source_lengths target_lengths soft_limit (last sp 0%nat) j.
Proof.
  intros Hm _ _ H source_lengths target_lengths num_sents.
  destruct (minibatch_masks_lengths _ _ Hm) as [Hx [Hy Hpos]].
  destruct (split_into_n_ok_inv _ _ _ H) as [L [fuel [HL [Hloop _]]]].
  assert (Hy' : length target_lengths = num_sents)
    by (unfold target_lengths, num_sents, source_lengths; lia).
  assert (Hpos' : (0 < num_sents)%nat)
    by (unfold num_sents, source_lengths; lia).
  apply (@into_n_loop_result _ _ _ eq_refl Hy' Hpos') in Hloop
    as [[_ [Hadj _]] Hlast].
  exists L. split; [exact HL|]. split; [|exact Hlast].
  eapply Forall_impl; [|exact (adjacent_closed_bins _ _ Hadj)].
  intros [p q]. cbn [fst snd].
  intros [j [-> [Hpj [Hq [Hov Hbefore]]]]].
  replace (j + 1 - 1)%nat with j by lia.
  split; [lia|]. split; [exact Hov|]. exact Hbefore.
Qed.

Lemma batch_take_examples {A : Type} (a : ndarray A) (p q : nat) :
  batch (take_examples a p q) = (Nat.min q (batch a) - Nat.min p (batch a))%nat.
Proof. reflexivity. Qed.

Lemma split_array_batches {A : Type} (a : ndarray A) (l : list nat) :
  forall p, adjacent lt (p :: l) ->
  Forall (fun k => (k < batch a)%nat) (p :: l) ->
  let slices := map (fun '(u, v) => take_examples a u v)
                    (combine (p :: l) (l ++ [batch a])) in
  Forall (fun s => (1 <= batch s)%nat) slices
  /\ list_sum (map (@batch _) slices) = (batch a - p)%nat.
Proof.
  induction l as [|q l IH]; intros p Hadj Hall; cbv zeta.
  - inversion Hall as [|? ? Hp _]; subst.
    cbn [app combine map list_sum fold_right].
    rewrite batch_take_examples. split.
    + constructor; [rewrite batch_take_examples; lia | constructor].
    + lia.
  - inversion Hall as [|? ? Hp Hrest]; subst.
    destruct Hadj as [Hpq Hadj].
    destruct (IH q Hadj Hrest) as [IH1 IH2].
    inversion Hrest as [|? ? Hq _]; subst.
    change (combine (p :: q :: l) ((q :: l) ++ [batch a]))
      with ((p, q) :: combine (q :: l) (l ++ [batch a])).
    cbn [map]. split.
    + constructor; [rewrite batch_take_examples; lia | exact IH1].
    + change (list_sum (?x :: ?l)) with (x + list_sum l)%nat.
      rewrite IH2, batch_take_examples. lia.
Qed.

Lemma length_le_batches {A : Type} (l : list (ndarray A)) :
  Forall (fun s => (1 <= batch s)%nat) l ->
  (length l <= list_sum (map (@batch _) l))%nat.
Proof.
  induction 1 as [|s l Hs _ IH]; cbn [length map]; [apply Nat.le_refl|].
  change (list_sum (?x :: ?l)) with (x + list_sum l)%nat. lia.
Qed.

(** Whatever start points a partitioner returns for a non-empty minibatch,
    every sub-batch cut from an array of the minibatch holds at least one
    example, the sub-batch sizes add up to the minibatch size, and there are
    at most as many sub-batches as examples. *)
Theorem sub_batches_nonempty (A : Type) (a : ndarray A)
  (x_mask y_mask : ndarray Z) (n max_sents max_tokens : Z) (sp : list nat) :
  minibatch_masks x_mask y_mask = true ->
  batch a = batch x_mask ->
  _split_minibatch_into_n x_mask y_mask n = Ok sp
  \/ _split_minibatch_for_device_size x_mask y_mask max_sents max_tokens
     = Ok sp ->
  (1 <= length sp <= batch a)%nat
  /\ Forall (fun s => (1 <= batch s)%nat) (split_array a sp)
  /\ list_sum (map (@batch _) (split_array a sp)) = batch a.
Proof.
  intros Hm Hb Hsp.
  pose proof (@partitioners_valid x_mask y_mask n max_sents max_tokens sp
                Hm Hsp) as [Hhd [Hadj Hall]].
  rewrite <- Hb in Hall.
  destruct sp as [|p l]; [discriminate|]. injection Hhd as ->.
  destruct (split_array_batches a Hadj Hall) as [H1 H2]. cbv zeta in H1, H2.
  change (split_array a (0%nat :: l))
    with (map (fun '(u, v) => take_examples a u v)
              (combine (0%nat :: l) (l ++ [batch a]))).
  rewrite Nat.sub_0_r in H2.
  split; [|split; assumption].
  pose proof (length_le_batches H1) as Hlen.
  rewrite H2, length_map, length_combine, length_app in Hlen.
  cbn [length] in *. lia.
Qed.

(** ** The accumulation runs of [update] *)

Lemma split_into_n_returns (x_mask y_mask : ndarray Z) (n : Z) :
  minibatch_masks x_mask y_mask = true ->
  is_mask x_mask = true -> is_mask y_mask = true -> (1 <= n)%Z ->
  exists sp, _split_minibatch_into_n x_mask y_mask n = Ok sp
             /\ (Z.of_nat (length sp) <= n)%Z.
Proof.
  intros Hm Hxm Hym Hn.
  destruct (minibatch_masks_lengths _ _ Hm) as [Hx [Hy Hpos]].
  destruct (split_into_n_unfold _ _ Hm (n := n) ltac:(lia))
    as [L [sp [HL [Hloop Hres]]]].
  exists sp. rewrite Hres.
  assert (Hlen : (Z.of_nat (length sp) <= n)%Z);
    [|apply Z.leb_le in Hlen as Hb; rewrite Hb; split;
      [reflexivity | assumption]].
  unfold soft_limit_of in HL.
  destruct (py_max (sum_axis0 x_mask)) as [s_max|] eqn:Hs; [|discriminate].
  destruct (py_max (sum_axis0 y_mask)) as [t_max|] eqn:Ht; [|discriminate].
  cbn [bind] in HL. destruct (n =? 0)%Z; [discriminate|]. injection HL as HL.
  specialize (Hloop (S (batch x_mask)) ltac:(lia)).
  apply (@into_n_loop_result _ _ _ Hx Hy Hpos) in Hloop
    as [[Hhd [Hadj [sp0 [i [Hsp Hi]]]]] _].
  destruct sp as [|p0 l]; [discriminate|]. injection Hhd as ->.
  pose proof (@py_max_upper _ _ Hs) as Hsu.
  pose proof (@py_max_upper _ _ Ht) as Htu.
  pose proof (@py_max_nonneg _ _ Hs (@sum_axis0_nonneg _ Hxm)) as Hs0.
  pose proof (@py_max_nonneg _ _ Ht (@sum_axis0_nonneg _ Hym)) as Ht0.
  destruct (@linked_bins _ _ _ Hx Hy s_max t_max L Hsu Htu l 0%nat Hadj)
    as [Hall [Hsum [_ Hbins]]].
  assert (Hlast : last (0%nat :: l) 0%nat = i)
    by (rewrite Hsp; apply last_last).
  rewrite Hlast in Hsum.
  pose proof (@count_below_sum L
                (map (bin_tokens (sum_axis0 x_mask) (sum_axis0 y_mask))
                     (closed_bins (0%nat :: l)))) as Hcount.
  rewrite length_map, Hbins in Hcount.
  specialize (Hcount ltac:(now apply Forall_map)).
  set (total := (s_max * Z.of_nat (batch x_mask)
                 + t_max * Z.of_nat (batch x_mask))%Z) in *.
  pose proof (@ceil_div_upper total n ltac:(lia)) as Hceil.
  rewrite HL in Hceil.
  assert (Htotal : (0 <= total)%Z) by (unfold total; nia).
  assert (HL0 : (0 <= L)%Z) by nia.
  assert (Hle : (zsum (map (bin_tokens (sum_axis0 x_mask) (sum_axis0 y_mask))
                           (closed_bins (0%nat :: l))) <= total)%Z)
    by (unfold total; nia).
  cbn [length]. nia.
Qed.

Lemma update_feeds_ok (cfg : config) (num_replicas : nat)
  (x : ndarray (list Z)) (x_mask y y_mask : ndarray Z) (sp : list nat) :
  minibatch x x_mask y y_mask = true -> (1 <= num_replicas)%nat ->
  start_points_of cfg num_replicas x_mask y_mask = Ok sp ->
  exists sm feeds,
    _split_and_pad_minibatch num_replicas x x_mask y y_mask sp = Ok sm
    /\ update_feeds cfg num_replicas x x_mask y y_mask = Ok feeds
    /\ length (split_x sm)
       = (length sp + padding_size_of num_replicas (length sp))%nat
    /\ (length feeds * num_replicas = length (split_x sm))%nat
    /\ Forall (fun feed => length feed = num_replicas) feeds
    /\ (1 <= length sp)%nat.
Proof.
  intros Hmb HR Hsp.
  destruct (minibatch_inv _ _ _ _ Hmb) as [Hm _].
  pose proof (start_points_of_valid _ _ _ _ Hm Hsp) as Hvalid.
  destruct (split_and_pad_unfold x x_mask y y_mask Hmb Hvalid HR)
    as [x_lens [y_lens [fx [fxm [fy [fym [rx [rxm [ry [rym
       [_ [_ [Ex [Exm [Ey [Eym [Lx [Lxm [Ly [Lym Hres]]]]]]]]]]]]]]]]]]]].
  cbv zeta in Hres.
  destruct (padding_size_multiple (length sp) HR) as [Hmul Hlt].
  set (padding_size := padding_size_of num_replicas (length sp)) in *.
  set (total := (length sp + padding_size)%nat) in *.
  match type of Hres with _ = Ok ?r => set (sm := r) in * end.
  assert (Lw : length (normalize (weights sm)) = total).
  { unfold normalize. rewrite length_map. unfold sm. cbn [weights].
    rewrite length_app, length_map, length_combine, repeat_length.
    rewrite Lxm, Lym. unfold total. lia. }
  assert (Ltot : length (split_x sm) = total).
  { unfold sm. cbn [split_x]. rewrite length_app, repeat_length, Lx.
    reflexivity. }
  destruct (@feed_dicts_ok num_replicas sm (normalize (weights sm)) total)
    as [feeds [Hfeeds [Hlen Hall]]];
    try lia; try assumption;
    try (unfold sm; cbn [split_x_mask split_y split_y_mask];
         rewrite length_app, repeat_length; unfold total; lia).
  exists sm, feeds. split; [exact Hres|]. split.
  { unfold update_feeds. rewrite Hsp. cbn [bind]. rewrite Hres. cbn [bind].
    rewrite Ltot. exact Hfeeds. }
  split; [exact Ltot|]. split.
  { rewrite Ltot, Hlen.
    pose proof (Nat.div_mod_eq total num_replicas) as Hdiv.
    unfold total in *. rewrite Hmul, Nat.add_0_r in Hdiv. lia. }
  split.
  { eapply Forall_impl; [|exact Hall]. intros feed [Hflen _]. exact Hflen. }
  destruct Hvalid as [Hhd _]. destruct sp; [discriminate | simpl; lia].
Qed.

Lemma runs_count (num_replicas k runs : nat) :
  (1 <= num_replicas)%nat -> (1 <= k)%nat ->
  (runs * num_replicas = k + padding_size_of num_replicas k)%nat ->
  runs = ((k + num_replicas - 1) / num_replicas)%nat.
Proof.
  intros HR Hk H. destruct (padding_size_multiple k HR) as [_ Hlt].
  apply Nat.div_unique
    with (r := (k + num_replicas - 1 - runs * num_replicas)%nat); lia.
Qed.

(** Without a capacity limit, a non-empty 0/1-masked minibatch is processed
    by [update] in at least one and at most [gradient_aggregation_steps]
    accumulation runs, each feeding every replica: as many runs as it takes
    to give each of the sub-batches of the fixed-count split to a replica. *)
Theorem update_runs_at_most_aggregation_steps (steps : Z) (num_replicas : nat)
  (x : ndarray (list Z)) (x_mask y y_mask : ndarray Z) :
  minibatch x x_mask y y_mask = true ->
  is_mask x_mask = true -> is_mask y_mask = true ->
  (1 <= num_replicas)%nat -> (1 <= steps)%Z ->
  exists sp feeds,
    _split_minibatch_into_n x_mask y_mask (Z.of_nat num_replicas * steps)
    = Ok sp
    /\ update_feeds (Config 0 0 steps) num_replicas x x_mask y y_mask
       = Ok feeds
    /\ length feeds = ((length sp + num_replicas - 1) / num_replicas)%nat
    /\ (1 <= Z.of_nat (length feeds) <= steps)%Z
    /\ Forall (fun feed => length feed = num_replicas) feeds.
Proof.
  intros Hmb Hxm Hym HR Hsteps.
  destruct (minibatch_inv _ _ _ _ Hmb) as [Hm _].
  destruct (@split_into_n_returns x_mask y_mask
              (Z.of_nat num_replicas * steps) Hm Hxm Hym ltac:(nia))
    as [sp [Hsp Hlen]].
  destruct (@update_feeds_ok (Config 0 0 steps) num_replicas x x_mask y y_mask
              sp Hmb HR Hsp)
    as [sm [feeds [_ [Hfeeds [Htotal [Hruns [Hall Hk]]]]]]].
  exists sp, feeds. split; [exact Hsp|]. split; [exact Hfeeds|].
  rewrite Htotal in Hruns.
  split; [now apply runs_count|]. split; [|exact Hall].
  destruct (padding_size_multiple (length sp) HR) as [_ Hlt]. nia.
Qed.

(** With a token limit (and no sentence limit) [update] reaches its
    accumulation runs for every non-empty minibatch, whatever
    [gradient_aggregation_steps] says: it makes as many runs as it takes to
    give each sub-batch of the token-limited split to a replica, and feeds
    every replica in each run. *)
Theorem update_token_limited_returns (max_tokens steps : Z)
  (num_replicas : nat)
  (x : ndarray (list Z)) (x_mask y y_mask : ndarray Z) :
  minibatch x x_mask y y_mask = true ->
  (1 <= num_replicas)%nat -> max_tokens <> 0%Z ->
  exists sp feeds,
    _split_minibatch_for_device_size x_mask y_mask 0 max_tokens = Ok sp
    /\ update_feeds (Config 0 max_tokens steps) num_replicas x x_mask y y_mask
       = Ok feeds
    /\ length feeds = ((length sp + num_replicas - 1) / num_replicas)%nat
    /\ (1 <= length feeds)%nat
    /\ Forall (fun feed => length feed = num_replicas) feeds.
Proof.
  intros Hmb HR Hlimit.
  destruct (minibatch_inv _ _ _ _ Hmb) as [Hm _].
  destruct (split_for_tokens_unfold _ _ Hm Hlimit) as [sp [_ Hsp]].
  assert (Hstart : start_points_of (Config 0 max_tokens steps) num_replicas
                                   x_mask y_mask = Ok sp).
  { unfold start_points_of. cbn [max_sentences_per_device
                                   max_tokens_per_device].
    apply Z.eqb_neq in Hlimit. rewrite Hlimit. exact Hsp. }
  destruct (@update_feeds_ok (Config 0 max_tokens steps) num_replicas
              x x_mask y y_mask sp Hmb HR Hstart)
    as [sm [feeds [_ [Hfeeds [Htotal [Hruns [Hall Hk]]]]]]].
  exists sp, feeds. split; [exact Hsp|]. split; [exact Hfeeds|].
  rewrite Htotal in Hruns.
  split; [now apply runs_count|]. split; [nia | exact Hall].
Qed.

(** ** The normalized weights *)

Lemma zsum_nonneg (l : list Z) :
  Forall (fun w => (0 <= w)%Z) l -> (0 <= zsum l)%Z.
Proof.
  induction 1 as [|w l Hw _ IH]; [reflexivity | rewrite zsum_cons; lia].
Qed.

Lemma zsum_ge_member (l : list Z) (w : Z) :
  Forall (fun v => (0 <= v)%Z) l -> In w l -> (w <= zsum l)%Z.
Proof.
  induction 1 as [|v l Hv Hl IH]; intros Hin; [contradiction|].
  rewrite zsum_cons. pose proof (zsum_nonneg Hl).
  destruct Hin as [->|Hin]; [lia | specialize (IH Hin); lia].
Qed.

Lemma qsum_quotients (s : Q) (l : list Z) :
  qsum (map (fun w => inject_Z w / s) l) == inject_Z (zsum l) / s.
Proof.
  induction l as [|w l IH].
  - cbn [map qsum fold_right]. unfold Qdiv. now rewrite Qmult_0_l.
  - cbn [map qsum fold_right]. fold (qsum (map (fun w => inject_Z w / s) l)).
    rewrite IH, zsum_cons, inject_Z_plus. unfold Qdiv.
    now rewrite Qmult_plus_distr_l.
Qed.

(** When the weights are non-negative and do not sum to 0, the normalized
    weights are all finite, each lies between 0 and 1, they sum to 1 (the
    quotients taken as exact rationals), and a weight of 0, that of a dummy
    sub-batch, stays 0. *)
Theorem normalized_weights_sum_to_one (ws : list Z) :
  Forall (fun w => (0 <= w)%Z) ws -> zsum ws <> 0%Z ->
  exists qs,
    normalize ws = map Finite qs
    /\ qsum qs == 1
    /\ Forall (fun q => 0 <= q /\ q <= 1) qs
    /\ Forall2 (fun w q => w = 0%Z -> q == 0) ws qs.
Proof.
  intros Hnn Hsum. pose proof (zsum_nonneg Hnn) as Hs0.
  set (s := zsum ws) in *.
  assert (Hspos : 0 < inject_Z s) by (unfold Qlt; simpl; lia).
  exists (map (fun w => inject_Z w / inject_Z s) ws).
  split; [|split; [|split]].
  - unfold normalize, np_truediv. fold s.
    apply Z.eqb_neq in Hsum. rewrite Hsum, map_map. reflexivity.
  - rewrite qsum_quotients. fold s. unfold Qdiv. apply Qmult_inv_r.
    unfold Qeq. simpl. lia.
  - apply Forall_map. apply Forall_forall. intros w Hw.
    pose proof (@zsum_ge_member ws w Hnn Hw) as Hle. fold s in Hle.
    rewrite Forall_forall in Hnn. specialize (Hnn w Hw). split.
    + apply Qle_shift_div_l; [exact Hspos|]. unfold Qle. simpl. lia.
    + apply Qle_shift_div_r; [exact Hspos|]. rewrite Qmult_1_l.
      unfold Qle. simpl. lia.
  - generalize (inject_Z s). clear. intros d.
    induction ws as [|w ws IH]; cbn [map]; constructor; [|exact IH].
    intros ->. unfold Qdiv. now rewrite Qmult_0_l.
Qed.

(** ** The order of the feeds *)

Lemma pad_length {A : Type} (l : list (ndarray A)) (k : nat)
  (r : list (ndarray A)) :
  pad l k = Ok r -> length r = (length l + k)%nat.
Proof.
  destruct l as [|first rest]; [discriminate|].
  rewrite pad_ok. intros H. injection H as <-.
  cbn [app length]. now rewrite length_app, repeat_length.
Qed.

Lemma max_lens_of_length (l : list (ndarray Z)) (lens : list Z) :
  max_lens_of l = Ok lens -> length l = length lens.
Proof.
  intros H. apply map_result_inv in H. exact (Forall2_length H).
Qed.

Lemma split_and_pad_lengths (num_replicas : nat)
  (x : ndarray (list Z)) (x_mask y y_mask : ndarray Z) (sp : list nat)
  (sm : split_minibatch) :
  _split_and_pad_minibatch num_replicas x x_mask y y_mask sp = Ok sm ->
  length (split_x_mask sm) = length (split_x sm)
  /\ length (split_y sm) = length (split_x sm)
  /\ length (split_y_mask sm) = length (split_x sm)
  /\ length (weights sm) = length (split_x sm).
Proof.
  intros H. unfold _split_and_pad_minibatch in H. cbv zeta in H.
  apply bind_ok in H as [x_lens [Hx H]].
  apply bind_ok in H as [y_lens [Hy H]].
  apply bind_ok in H as [remainder [_ H]].
  apply bind_ok in H as [px [Hpx H]].
  apply bind_ok in H as [pxm [Hpxm H]].
  apply bind_ok in H as [py [Hpy H]].
  apply bind_ok in H as [pym [Hpym H]].
  injection H as <-. cbn [split_x split_x_mask split_y split_y_mask weights].
  apply max_lens_of_length in Hx, Hy. rewrite length_split_array in Hx, Hy.
  apply pad_length in Hpx, Hpxm, Hpy, Hpym.
  assert (Htrim : forall (A : Type) (a : ndarray A) (lens : list Z),
             length sp = length lens ->
             length (trim_arrays (split_array a sp) lens) = length sp).
  { intros A a lens Hl.
    rewrite length_trim_arrays; rewrite length_split_array;
      [reflexivity | exact Hl]. }
  rewrite Htrim in Hpx by assumption. rewrite Htrim in Hpxm by assumption.
  rewrite Htrim in Hpy by assumption. rewrite Htrim in Hpym by assumption.
  rewrite length_app, length_map, length_combine, repeat_length.
  rewrite !Htrim by assumption. lia.
Qed.

Lemma Forall2_nth_error_left {A B : Type} (R : A -> B -> Prop)
  (l : list A) (l' : list B) :
  Forall2 R l l' ->
  forall i a, nth_error l i = Some a ->
  exists b, nth_error l' i = Some b /\ R a b.
Proof.
  induction 1 as [|a0 b0 l l' Hab _ IH]; intros [|i] a Hi;
    cbn [nth_error] in *; try discriminate.
  - injection Hi as <-. eauto.
  - eauto.
Qed.

Lemma Forall2_right {A B : Type} (R : A -> B -> Prop) (P : B -> Prop)
  (l : list A) (l' : list B) :
  (forall a b, R a b -> P b) -> Forall2 R l l' -> Forall P l'.
Proof.
  intros HP. induction 1; constructor; eauto.
Qed.

Lemma nth_error_seq_lt (a n j : nat) :
  (j < n)%nat -> nth_error (seq a n) j = Some (a + j)%nat.
Proof.
  intros Hj. rewrite nth_error_nth' with (d := 0%nat)
    by (rewrite length_seq; exact Hj).
  now rewrite seq_nth.
Qed.

Lemma feed_dict_at_inv (num_replicas : nat) (sm : split_minibatch)
  (normalized_weights : list npfloat) (i : nat) (feed : list replica_feed) :
  feed_dict_at num_replicas sm normalized_weights i = Ok feed ->
  length feed = num_replicas
  /\ forall j, (j < num_replicas)%nat ->
       exists f,
         nth_error feed j = Some f
         /\ nth_error normalized_weights (i + j) = Some (feed_weight f)
         /\ nth_error (split_x sm) (i + j) = Some (feed_x f)
         /\ nth_error (split_x_mask sm) (i + j) = Some (feed_x_mask f)
         /\ nth_error (split_y sm) (i + j) = Some (feed_y f)
         /\ nth_error (split_y_mask sm) (i + j) = Some (feed_y_mask f).
Proof.
  intros H. unfold feed_dict_at in H. apply map_result_inv in H. split.
  - rewrite <- (Forall2_length H). apply length_seq.
  - intros j Hj.
    destruct (Forall2_nth_error_left H j (nth_error_seq_lt 0 Hj))
      as [f [Hf Hbody]].
    exists f. split; [exact Hf|]. cbn [Nat.add] in Hbody.
    apply bind_ok in Hbody as [w [Hw Hbody]].
    apply bind_ok in Hbody as [fx [Hfx Hbody]].
    apply bind_ok in Hbody as [fxm [Hfxm Hbody]].
    apply bind_ok in Hbody as [fy [Hfy Hbody]].
    apply bind_ok in Hbody as [fym [Hfym Hbody]].
    injection Hbody as <-.
    cbn [feed_weight feed_x feed_x_mask feed_y feed_y_mask].
    repeat split; now apply getitem_ok.
Qed.

Lemma length_concat_blocks {A : Type} (size : nat) (ll : list (list A)) :
  Forall (fun l => length l = size) ll ->
  length (concat ll) = (length ll * size)%nat.
Proof.
  induction 1 as [|l ll Hl _ IH]; [reflexivity|].
  cbn [concat length]. rewrite length_app, IH, Hl. lia.
Qed.

Lemma nth_error_concat_blocks {A : Type} (size : nat) (ll : list (list A)) :
  Forall (fun l => length l = size) ll ->
  forall k j l, nth_error ll k = Some l -> (j < size)%nat ->
  nth_error (concat ll) (k * size + j) = nth_error l j.
Proof.
  induction 1 as [|l0 ll Hl0 _ IH]; intros [|k] j l Hk Hj;
    cbn [nth_error concat] in *; try discriminate.
  - injection Hk as <-. cbn [Nat.mul Nat.add].
    apply nth_error_app1. lia.
  - rewrite nth_error_app2 by lia.
    replace (S k * size + j - length l0)%nat with (k * size + j)%nat by lia.
    now apply IH.
Qed.

Lemma feeds_in_order (num_replicas : nat) (sm : split_minibatch)
  (normalized_weights : list npfloat) (total : nat)
  (feeds : list (list replica_feed)) :
  (1 <= num_replicas)%nat ->
  map_result (feed_dict_at num_replicas sm normalized_weights)
             (range_step total num_replicas) = Ok feeds ->
  Forall (fun feed => length feed = num_replicas) feeds
  /\ length feeds = ((total + num_replicas - 1) / num_replicas)%nat
  /\ forall t, (t < length feeds * num_replicas)%nat ->
       exists f,
         nth_error (concat feeds) t = Some f
         /\ nth_error normalized_weights t = Some (feed_weight f)
         /\ nth_error (split_x sm) t = Some (feed_x f)
         /\ nth_error (split_x_mask sm) t = Some (feed_x_mask f)
         /\ nth_error (split_y sm) t = Some (feed_y f)
         /\ nth_error (split_y_mask sm) t = Some (feed_y_mask f).
Proof.
  intros HR H. apply map_result_inv in H.
  assert (Hblocks : Forall (fun feed => length feed = num_replicas) feeds).
  { eapply Forall2_right; [|exact H]. cbv beta.
    intros i feed Hfeed. now apply feed_dict_at_inv in Hfeed. }
  assert (Hlen : length feeds
                 = ((total + num_replicas - 1) / num_replicas)%nat).
  { rewrite <- (Forall2_length H). unfold range_step.
    now rewrite length_map, length_seq. }
  split; [exact Hblocks|]. split; [exact Hlen|].
  intros t Ht.
  pose proof (Nat.div_mod_eq t num_replicas) as Hdiv.
  pose proof (Nat.mod_upper_bound t num_replicas ltac:(lia)) as Hmod.
  set (k := (t / num_replicas)%nat) in *.
  set (j := (t mod num_replicas)%nat) in *.
  assert (Hk : (k < length feeds)%nat) by nia.
  assert (Hidx : nth_error (range_step total num_replicas) k
                 = Some (k * num_replicas)%nat).
  { unfold range_step. rewrite nth_error_map, nth_error_seq_lt by lia.
    reflexivity. }
  destruct (Forall2_nth_error_left H k Hidx) as [feed [Hfeed Hrun]].
  destruct (feed_dict_at_inv _ _ _ _ Hrun) as [_ Hentries].
  destruct (Hentries j Hmod) as [f [Hf Hrest]].
  replace (k * num_replicas + j)%nat with t in Hrest by lia.
  exists f. split; [|exact Hrest].
  replace t with (k * num_replicas + j)%nat by lia.
  now rewrite (nth_error_concat_blocks Hblocks k Hfeed Hmod).
Qed.

(** The accumulation runs of [update] take the sub-batches in order, each
    exactly once: laid end to end, the feed dictionaries list the padded
    sub-batches of [_split_and_pad_minibatch] with their normalized weights,
    one sub-batch per replica in every run. *)
Theorem update_feeds_in_order (cfg : config) (num_replicas : nat)
  (x : ndarray (list Z)) (x_mask y y_mask : ndarray Z)
  (feeds : list (list replica_feed)) :
  (1 <= num_replicas)%nat ->
  update_feeds cfg num_replicas x x_mask y y_mask = Ok feeds ->
  exists sp sm,
    start_points_of cfg num_replicas x_mask y_mask = Ok sp
    /\ _split_and_pad_minibatch num_replicas x x_mask y y_mask sp = Ok sm
    /\ Forall (fun feed => length feed = num_replicas) feeds
    /\ map feed_weight (concat feeds) = normalize (weights sm)
    /\ map feed_x (concat feeds) = split_x sm
    /\ map feed_x_mask (concat feeds) = split_x_mask sm
    /\ map feed_y (concat feeds) = split_y sm
    /\ map feed_y_mask (concat feeds) = split_y_mask sm.
Proof.
  intros HR H. unfold update_feeds in H.
  apply bind_ok in H as [sp [Hsp H]]. apply bind_ok in H as [sm [Hsm H]].
  cbv zeta in H.
  exists sp, sm. split; [exact Hsp|]. split; [exact Hsm|].
  destruct (split_and_pad_lengths _ _ _ _ _ _ Hsm) as [Lxm [Ly [Lym Lw]]].
  set (total := length (split_x sm)) in *.
  destruct (feeds_in_order _ _ _ HR H) as [Hblocks [Hlen Hentries]].
  split; [exact Hblocks|].
  pose proof (length_concat_blocks Hblocks) as Hcat.
  assert (Htotal : (length feeds * num_replicas)%nat = total).
  { apply Nat.le_antisymm.
    - destruct (length feeds * num_replicas)%nat as [|t] eqn:E; [lia|].
      destruct (Hentries t ltac:(lia)) as [f [_ [_ [Hfx _]]]].
      assert (Hsome : nth_error (split_x sm) t <> None) by congruence.
      apply nth_error_Some in Hsome. fold total in Hsome. lia.
    - rewrite Hlen.
      pose proof (Nat.div_mod_eq (total + num_replicas - 1) num_replicas).
      pose proof (Nat.mod_upper_bound (total + num_replicas - 1)
                    num_replicas ltac:(lia)).
      nia. }
  rewrite Htotal in Hentries, Hcat.
  assert (Hnw : length (normalize (weights sm)) = total)
    by (unfold normalize; now rewrite length_map).
  assert (Hext : forall (B : Type) (proj : replica_feed -> B) (l : list B),
             length l = total ->
             (forall t f, nth_error (concat feeds) t = Some f ->
                          (t < total)%nat ->
                          nth_error l t = Some (proj f)) ->
             map proj (concat feeds) = l).
  { intros B proj l Hl Hproj. apply nth_error_ext. intros t.
    rewrite nth_error_map.
    destruct (Nat.lt_ge_cases t total) as [Ht|Ht].
    - destruct (Hentries t Ht) as [f [Hf _]].
      rewrite Hf. cbn [option_map]. symmetry. now apply Hproj.
    - rewrite (proj2 (nth_error_None (concat feeds) t)) by lia.
      cbn [option_map]. symmetry. apply nth_error_None. lia. }
  repeat split; apply Hext; try assumption; try reflexivity;
    intros t f Hf Ht; destruct (Hentries t Ht) as [f' [Hf' Hall]];
    rewrite Hf in Hf'; injection Hf' as <-; apply Hall.
Qed.

(** ** The weights count the tokens *)

Lemma zsum_map_add {A B : Type} (f : A -> Z) (g : B -> Z) (l1 : list A) :
  forall l2 : list B, length l1 = length l2 ->
  zsum (map (fun '(s, t) => (f s + g t)%Z) (combine l1 l2))
  = (zsum (map f l1) + zsum (map g l2))%Z.
Proof.
  induction l1 as [|a l1 IH]; intros [|b l2] Hlen; try discriminate.
  - reflexivity.
  - cbn [combine map]. rewrite !zsum_cons, IH by (simpl in Hlen; lia). lia.
Qed.

Lemma map_combine_trimmed (sx sy : list (ndarray Z)) :
  forall lx ly,
  Forall2 trimmed_to sx lx -> Forall2 trimmed_to sy ly ->
  map (fun '(s, t) => (np_sum s + np_sum t)%Z)
      (combine (trim_arrays sx lx) (trim_arrays sy ly))
  = map (fun '(s, t) => (np_sum s + np_sum t)%Z) (combine sx sy).
Proof.
  intros lx ly Hx. revert sy ly.
  induction Hx as [|s l sx lx Hs _ IH]; intros sy ly Hy.
  - reflexivity.
  - destruct Hy as [|t l' sy ly Ht Hy]; [reflexivity|].
    unfold trim_arrays in *. cbn [combine map].
    destruct Hs as [_ [_ [_ Hs]]]. destruct Ht as [_ [_ [_ Ht]]].
    rewrite Hs, Ht. f_equal. now apply IH.
Qed.

Lemma zsum_rows_hstack (ra : list (list Z)) :
  forall rb, length ra = length rb ->
  zsum (map zsum (map (fun '(r1, r2) => r1 ++ r2) (combine ra rb)))
  = (zsum (map zsum ra) + zsum (map zsum rb))%Z.
Proof.
  induction ra as [|r ra IH]; intros [|r' rb] Hlen; try discriminate.
  - reflexivity.
  - cbn [combine map]. rewrite !zsum_cons, zsum_app, IH
      by (simpl in Hlen; lia). lia.
Qed.

Lemma seq_len_hstack {A : Type} (a b : ndarray A) :
  seq_len b = seq_len a -> seq_len (hstack a b) = seq_len a.
Proof.
  unfold seq_len, hstack. cbn [rows]. intros H.
  rewrite length_map, length_combine. lia.
Qed.

Lemma np_sum_fold_hstack (l : list (ndarray Z)) :
  forall a, Forall (fun s => seq_len s = seq_len a) l ->
  np_sum (fold_left hstack l a) = (np_sum a + zsum (map np_sum l))%Z.
Proof.
  induction l as [|s l IH]; intros a Hall; cbn [fold_left map].
  - change (zsum []) with 0%Z. lia.
  - inversion Hall as [|? ? Hs Hl]; subst.
    rewrite IH.
    + rewrite zsum_cons. unfold np_sum at 1, hstack. cbn [rows].
      rewrite zsum_rows_hstack by (symmetry; exact Hs).
      unfold np_sum. lia.
    + eapply Forall_impl; [|exact Hl]. cbv beta. intros s' Hs'.
      rewrite seq_len_hstack by exact Hs. exact Hs'.
Qed.

Lemma np_sum_split_array (m : ndarray Z) (sp : list nat) :
  well_shaped m = true -> valid_start_points (batch m) sp ->
  zsum (map np_sum (split_array m sp)) = np_sum m.
Proof.
  intros Hw Hv. pose proof (split_array_lossless m Hw Hv) as Hcat.
  assert (Hlens : Forall (fun s => seq_len s = seq_len m) (split_array m sp)).
  { apply Forall_split_array. intros p q. apply seq_len_take_examples. }
  destruct (split_array m sp) as [|first rest]; [discriminate|].
  cbn [concatenate] in Hcat. injection Hcat as Hcat.
  apply Forall_cons_iff in Hlens as [Hfirst Hrest].
  cbn [map]. rewrite zsum_cons, <- np_sum_fold_hstack.
  - now rewrite Hcat.
  - eapply Forall_impl; [|exact Hrest]. cbv beta. intros s Hs. congruence.
Qed.

Lemma slices_trimmed (m : ndarray Z) (sp : list nat) (lens : list Z) :
  well_shaped m = true -> is_mask m = true -> left_aligned m = true ->
  valid_start_points (batch m) sp ->
  Forall2 (fun s l => py_max (sum_axis0 s) = Ok l) (split_array m sp) lens ->
  Forall2 trimmed_to (split_array m sp) lens.
Proof.
  intros Hw Hmask Hleft Hvalid Hmax.
  pose proof (split_array_shapes m Hw Hvalid) as Hshape.
  assert (Hprops : Forall (fun s => is_mask s = true /\ left_aligned s = true)
                          (split_array m sp)).
  { apply Forall_split_array. intros p q.
    split; [now apply is_mask_take_examples
           | now apply left_aligned_take_examples]. }
  pose proof (Forall2_and_left Hmax (Forall_and Hshape Hprops)) as H.
  eapply Forall2_impl; [|exact H]. cbv beta.
  intros s l [Hl [[Hws _] [Hms Hls]]]. now apply trim_mask_spec.
Qed.

(** For left-aligned 0/1 masks the trimming changes no weight: the weight of
    a real sub-batch is the number of source and target tokens of its
    examples, the dummy sub-batches weigh 0, and so the weights add up to the
    number of tokens of the minibatch. *)
Theorem weights_count_every_token (num_replicas : nat)
  (x : ndarray (list Z)) (x_mask y y_mask : ndarray Z) (sp : list nat) :
  minibatch x x_mask y y_mask = true ->
  is_mask x_mask = true -> is_mask y_mask = true ->
  left_aligned x_mask = true -> left_aligned y_mask = true ->
  valid_start_points (batch x_mask) sp ->
  (1 <= num_replicas)%nat ->
  exists sm,
    _split_and_pad_minibatch num_replicas x x_mask y y_mask sp = Ok sm
    /\ weights sm
       = map (fun '(s, t) => (np_sum s + np_sum t)%Z)
             (combine (split_array x_mask sp) (split_array y_mask sp))
         ++ repeat 0%Z (padding_size_of num_replicas (length sp))
    /\ zsum (weights sm) = (np_sum x_mask + np_sum y_mask)%Z.
Proof.
  intros Hmb Hxm Hym Hxl Hyl Hvalid HR.
  destruct (split_and_pad_unfold x x_mask y y_mask Hmb Hvalid HR)
    as [x_lens [y_lens [fx [fxm [fy [fym [rx [rxm [ry [rym
       [Hxall [Hyall [_ [Exm [_ [Eym [_ [_ [_ [_ Hres]]]]]]]]]]]]]]]]]]]].
  destruct (minibatch_inv _ _ _ _ Hmb)
    as [_ [_ [_ [Hwxm [Hwym [_ [_ [Hbym _]]]]]]]].
  assert (Hvym : valid_start_points (batch y_mask) sp) by now rewrite Hbym.
  pose proof (@slices_trimmed x_mask sp x_lens Hwxm Hxm Hxl Hvalid Hxall)
    as Htx.
  pose proof (@slices_trimmed y_mask sp y_lens Hwym Hym Hyl Hvym Hyall)
    as Hty.
  cbv zeta in Hres. eexists. split; [exact Hres|]. cbn [weights].
  rewrite <- Exm, <- Eym, (map_combine_trimmed Htx Hty).
  split; [reflexivity|].
  rewrite zsum_app, zsum_map_add by now rewrite !length_split_array.
  rewrite (@np_sum_split_array x_mask sp Hwxm Hvalid).
  rewrite (@np_sum_split_array y_mask sp Hwym Hvym).
  rewrite (@zsum_zeros (repeat 0%Z _)); [lia|].
  apply Forall_forall. intros v Hv. now apply repeat_spec in Hv.
Qed.

(** ** Start points that are not valid *)

Lemma map_result_raises {A B : Type} (f : A -> result B) (e : exn)
  (l : list A) :
  (forall a, In a l -> (exists b, f a = Ok b) \/ f a = Raise e) ->
  (exists a, In a l /\ f a = Raise e) ->
  map_result f l = Raise e.
Proof.
  induction l as [|a l IH]; intros Hall [a' [Hin Ha']]; [contradiction|].
  cbn [map_result].
  destruct (Hall a (or_introl eq_refl)) as [[b Hb]|Hb]; rewrite Hb;
    [|reflexivity].
  cbn [bind]. rewrite IH; [reflexivity | |].
  - intros a0 Ha0. apply Hall. now right.
  - destruct Hin as [->|Hin]; [congruence|]. eauto.
Qed.

Lemma in_combine_app {A B : Type} (pq : A * B) (l : list A) :
  forall l1 l2 : list B,
  In pq (combine l l1) -> In pq (combine l (l1 ++ l2)).
Proof.
  induction l as [|a l IH]; intros [|b l1] l2 Hin; try contradiction.
  cbn [app combine] in *. destruct Hin as [<-|Hin]; [now left|].
  right. now apply IH.
Qed.

Lemma in_combine_left {A B : Type} (a : A) (l : list A) :
  forall l' : list B, (length l <= length l')%nat -> In a l ->
  exists b, In (a, b) (combine l l').
Proof.
  induction l as [|a0 l IH]; intros [|b0 l'] Hlen Hin;
    try contradiction; cbn [length] in Hlen; [lia|].
  destruct Hin as [->|Hin].
  - exists b0. now left.
  - destruct (IH l' ltac:(lia) Hin) as [b Hb]. exists b. now right.
Qed.

(** Without start points the split fails in [pad], on the assertion that
    there is a sub-batch to copy the dummy from (with no replica it fails on
    the remainder before that). *)
Theorem split_and_pad_without_start_points (num_replicas : nat)
  (x : ndarray (list Z)) (x_mask y y_mask : ndarray Z) :
  _split_and_pad_minibatch num_replicas x x_mask y y_mask []
  = Raise (if (num_replicas =? 0)%nat then ZeroDivisionError
           else AssertionError).
Proof.
  unfold _split_and_pad_minibatch.
  destruct num_replicas as [|r]; [reflexivity|].
  cbn [split_array tl app combine map max_lens_of map_result bind
       trim_arrays length Nat.eqb].
  rewrite Nat.Div0.mod_0_l. reflexivity.
Qed.

(** Start points that do not increase strictly, or that are not indices of
    examples, give an empty slice, and the split fails on taking the
    maximum of its (empty) vector of lengths. *)
Theorem invalid_start_points_raise (num_replicas : nat)
  (x : ndarray (list Z)) (x_mask y y_mask : ndarray Z) (sp : list nat) :
  (exists p q, In (p, q) (closed_bins sp) /\ (q <= p)%nat)
  \/ (exists p, In p sp /\ (batch x_mask <= p)%nat) ->
  _split_and_pad_minibatch num_replicas x x_mask y y_mask sp
  = Raise ValueError.
Proof.
  intros H.
  assert (Hbin : exists p q,
             In (p, q) (combine sp (tl sp ++ [batch x_mask]))
             /\ (Nat.min q (batch x_mask) <= Nat.min p (batch x_mask))%nat).
  { destruct H as [[p [q [Hin Hle]]]|[p [Hin Hle]]].
    - exists p, q. split; [now apply in_combine_app | lia].
    - destruct (@in_combine_left _ _ p sp (tl sp ++ [batch x_mask]))
        as [q Hq]; [|exact Hin|].
      + rewrite length_app. destruct sp; cbn [tl length]; lia.
      + exists p, q. split; [exact Hq | lia]. }
  destruct Hbin as [p [q [Hin Hle]]].
  unfold _split_and_pad_minibatch. cbv zeta.
  unfold max_lens_of at 1. rewrite (@map_result_raises _ _ _ ValueError).
  - reflexivity.
  - intros m _.
    destruct (sum_axis0 m); [now right | left; eexists; reflexivity].
  - exists (take_examples x_mask p q). split.
    + unfold split_array. apply in_map_iff. exists (p, q). now split.
    + rewrite sum_axis0_no_example; [reflexivity|].
      rewrite batch_take_examples. lia.
Qed.

(** ** The token limit *)

Lemma forall_all_bins (R : nat -> nat -> Prop) (Q : nat * nat -> Prop)
  (num_sents : nat) (l : list nat) :
  forall a, adjacent R (a :: l) ->
  (forall p q, R p q -> Q (p, q)) ->
  Q (last (a :: l) 0%nat, num_sents) ->
  Forall Q (all_bins num_sents (a :: l)).
Proof.
  unfold all_bins. cbn [tl].
  induction l as [|b l IH]; intros a Hadj HR Hlast.
  - cbn [app combine]. constructor; [exact Hlast | constructor].
  - destruct Hadj as [Hab Hadj].
    change (combine (a :: b :: l) ((b :: l) ++ [num_sents]))
      with ((a, b) :: combine (b :: l) (l ++ [num_sents])).
    constructor; [now apply HR|]. now apply IH.
Qed.

Lemma fits_below (r n k m : Z) :
  (0 <= r)%Z -> (0 < n)%Z -> (k <= n)%Z -> (r * n <= m)%Z ->
  (r * k <= m)%Z.
Proof. intros. nia. Qed.

Lemma range_max_fits (l : list Z) (n : nat) (m : Z) (i j : nat) :
  length l = n -> (i < n)%nat ->
  Forall (fun v => (0 <= v)%Z) l ->
  Forall (fun v => (v * Z.of_nat n <= m)%Z) l ->
  (0 <= range_max l i j)%Z /\ (range_max l i j * Z.of_nat n <= m)%Z.
Proof.
  intros Hlen Hi Hnn Hfit. split.
  - pose proof (range_max_ge_first l i j) as Hge.
    rewrite Forall_forall in Hnn.
    specialize (Hnn (nth i l 0%Z) ltac:(apply nth_In; lia)). lia.
  - assert (Hle : (range_max l i j <= m / Z.of_nat n)%Z).
    { apply range_max_le; [lia|].
      eapply Forall_impl; [|exact Hfit]. cbv beta. intros v Hv.
      apply Z.div_le_lower_bound; lia. }
    pose proof (Z.mul_div_le m (Z.of_nat n) ltac:(lia)). nia.
Qed.

(** A minibatch that fits the token limit is not split: when, on the source
    and on the target side, no example of a non-empty 0/1-masked minibatch
    is longer than the limit allows for the whole minibatch, the
    token-limited split returns the single start point 0. *)
Theorem token_split_keeps_fitting_minibatch (x_mask y_mask : ndarray Z)
  (max_tokens : Z) :
  minibatch_masks x_mask y_mask = true ->
  is_mask x_mask = true -> is_mask y_mask = true ->
  max_tokens <> 0%Z ->
  Forall (fun v => (v * Z.of_nat (batch x_mask) <= max_tokens)%Z)
         (sum_axis0 x_mask) ->
  Forall (fun v => (v * Z.of_nat (batch x_mask) <= max_tokens)%Z)
         (sum_axis0 y_mask) ->
  _split_minibatch_for_device_size x_mask y_mask 0 max_tokens = Ok [0%nat].
Proof.
  intros Hm Hxm Hym Hlimit Hsfit Htfit.
  destruct (minibatch_masks_lengths _ _ Hm) as [Hx [Hy Hpos]].
  destruct (split_for_tokens_unfold _ _ Hm Hlimit) as [sp [Hloop Hres]].
  rewrite Hres. f_equal.
  specialize (Hloop (S (batch x_mask)) ltac:(lia)).
  apply (@for_tokens_loop_result _ _ _ Hx Hy Hpos) in Hloop
    as [[Hhd [Hadj _]] _].
  destruct sp as [|p0 [|q l]]; [discriminate | now injection Hhd as -> |].
  exfalso. injection Hhd as ->. destruct Hadj as [[Hq [Hex _]] _].
  destruct (@range_max_fits (sum_axis0 x_mask) (batch x_mask) max_tokens
              0 q Hx Hpos (@sum_axis0_nonneg _ Hxm) Hsfit) as [Hs0 Hs].
  destruct (@range_max_fits (sum_axis0 y_mask) (batch x_mask) max_tokens
              0 q Hy Hpos (@sum_axis0_nonneg _ Hym) Htfit) as [Ht0 Ht].
  destruct Hex as [Hex|Hex].
  - pose proof (@fits_below _ (Z.of_nat (batch x_mask))
                  (Z.of_nat q - Z.of_nat 0 + 1) max_tokens Hs0
                  ltac:(lia) ltac:(lia) Hs). lia.
  - pose proof (@fits_below _ (Z.of_nat (batch x_mask))
                  (Z.of_nat q - Z.of_nat 0 + 1) max_tokens Ht0
                  ltac:(lia) ltac:(lia) Ht). lia.
Qed.

(** The capacity guarantee of the token-limited split of a non-empty
    0/1-masked minibatch: every sub-batch, the last one included, either is
    a single example or fits the limit on both
    sides, the length of its longest example times the number of its
    examples being at most [max_tokens_per_device]. *)
Theorem token_split_respects_limit (x_mask y_mask : ndarray Z)
  (max_tokens : Z) (sp : list nat) :
  minibatch_masks x_mask y_mask = true ->
  is_mask x_mask = true -> is_mask y_mask = true ->
  _split_minibatch_for_device_size x_mask y_mask 0 max_tokens = Ok sp ->
  let source_lengths := sum_axis0 x_mask in
  let target_lengths := sum_axis0 y_mask in
  Forall (fun bin =>
            let p := fst bin in
            let q := snd bin in
            (p < q <= batch x_mask)%nat
            /\ (q = (p + 1)%nat
                \/ ((range_max source_lengths p (q - 1)
                     * (Z.of_nat q - Z.of_nat p) <= max_tokens)%Z
                    /\ (range_max target_lengths p (q - 1)
                        * (Z.of_nat q - Z.of_nat p) <= max_tokens)%Z)))
         (all_bins (batch x_mask) sp).
Proof.
  intros Hm _ _ H source_lengths target_lengths.
  destruct (minibatch_masks_lengths _ _ Hm) as [Hx [Hy Hpos]].
  destruct (split_for_device_size_ok_inv _ _ _ _ H) as [_ [_ [fuel Hloop]]].
  rewrite Hx in Hloop.
  apply (@for_tokens_loop_result _ _ _ Hx Hy Hpos) in Hloop
    as [[Hhd [Hadj [sp0 [i [Hsp Hi]]]]] Hlast].
  assert (Hfit : forall p j, (p < j)%nat ->
             ~ exceeds source_lengths target_lengths max_tokens p j ->
             (range_max source_lengths p j
              * (Z.of_nat (j + 1) - Z.of_nat p) <= max_tokens)%Z
             /\ (range_max target_lengths p j
                 * (Z.of_nat (j + 1) - Z.of_nat p) <= max_tokens)%Z).
  { intros p j Hpj Hno. unfold exceeds in Hno.
    replace (Z.of_nat (j + 1) - Z.of_nat p)%Z
      with (Z.of_nat j - Z.of_nat p + 1)%Z by lia.
    lia. }
  destruct sp as [|a l]; [discriminate|].
  apply forall_all_bins
    with (R := for_tokens_link source_lengths target_lengths (batch x_mask)
                               max_tokens);
    [exact Hadj | |].
  - intros p q [Hpq [_ Hbefore]]. cbn [fst snd]. split; [lia|].
    destruct (Nat.eq_dec q (p + 1)) as [->|Hne]; [now left | right].
    replace q with (q - 1 + 1)%nat at 2 4 by lia.
    apply Hfit; [lia|]. apply Hbefore. lia.
  - assert (Hi' : last (a :: l) 0%nat = i) by (rewrite Hsp; apply last_last).
    rewrite Hi'. rewrite Hi' in Hlast. cbn [fst snd]. split; [lia|].
    destruct (Nat.eq_dec (batch x_mask) (i + 1)) as [->|Hne];
      [now left | right].
    replace (batch x_mask) with (batch x_mask - 1 + 1)%nat at 2 4 by lia.
    apply Hfit; [lia|]. apply Hlast. lia.
Qed.

(** ** The shapes of the sub-batches *)

Lemma pad_inv {A : Type} (l : list (ndarray A)) (k : nat)
  (r : list (ndarray A)) :
  pad l k = Ok r ->
  exists first rest,
    l = first :: rest /\ r = l ++ repeat (last_example first) k.
Proof.
  destruct l as [|first rest]; [discriminate|].
  rewrite pad_ok. intros H. injection H as <-. now exists first, rest.
Qed.

Lemma length_py_prefix {A B : Type} (n : Z) (l : list A) (l' : list B) :
  length l = length l' -> length (py_prefix n l) = length (py_prefix n l').
Proof.
  intros H. unfold py_prefix.
  destruct (n <? 0)%Z; rewrite !length_firstn, H; reflexivity.
Qed.

Lemma shapes_trim_split {A B : Type} (a : ndarray A) (b : ndarray B)
  (sp : list nat) (lens : list Z) :
  batch a = batch b -> seq_len a = seq_len b ->
  map (@seq_len _) (trim_arrays (split_array a sp) lens)
  = map (@seq_len _) (trim_arrays (split_array b sp) lens)
  /\ map (@batch _) (trim_arrays (split_array a sp) lens)
     = map (@batch _) (trim_arrays (split_array b sp) lens).
Proof.
  intros Hb Hs. unfold split_array, trim_arrays. cbv zeta. rewrite Hb.
  generalize (combine sp (tl sp ++ [batch b])). intros bins. revert lens.
  induction bins as [|[p q] bins IH]; intros lens; [now split|].
  destruct lens as [|l lens]; [now split|].
  cbn [map combine]. destruct (IH lens) as [IH1 IH2]. split.
  - f_equal; [|exact IH1].
    unfold seq_len, take_positions, take_examples. cbn [rows].
    apply length_py_prefix. rewrite !length_map. exact Hs.
  - f_equal; [|exact IH2].
    unfold take_positions, take_examples. cbn [batch]. now rewrite Hb.
Qed.

Lemma batches_trim_split {A B : Type} (a : ndarray A) (b : ndarray B)
  (sp : list nat) (la lb : list Z) :
  batch a = batch b -> length la = length sp -> length lb = length sp ->
  map (@batch _) (trim_arrays (split_array a sp) la)
  = map (@batch _) (trim_arrays (split_array b sp) lb).
Proof.
  intros Hb Ha Hb'. rewrite <- (length_split_array b sp) in Ha, Hb'.
  revert Ha Hb'. unfold split_array, trim_arrays. cbv zeta. rewrite Hb.
  rewrite length_map.
  generalize (combine sp (tl sp ++ [batch b])). intros bins.
  revert la lb.
  induction bins as [|[p q] bins IH]; intros [|l1 la] [|l2 lb] H1 H2;
    try discriminate; [reflexivity|].
  cbn [map combine length] in *. f_equal.
  - unfold take_positions, take_examples. cbn [batch]. now rewrite Hb.
  - apply IH; lia.
Qed.

Lemma shape_last_example {A B : Type} (a : ndarray A) (b : ndarray B) :
  batch a = batch b -> seq_len a = seq_len b ->
  seq_len (last_example a) = seq_len (last_example b)
  /\ batch (last_example a) = batch (last_example b).
Proof.
  intros Hb Hs. unfold last_example. split.
  - now rewrite !seq_len_take_examples.
  - unfold take_examples. cbn [batch]. now rewrite Hb.
Qed.

Lemma shapes_padded {A B : Type} (la : list (ndarray A)) (lb : list (ndarray B))
  (k : nat) (ra : list (ndarray A)) (rb : list (ndarray B)) :
  map (@seq_len _) la = map (@seq_len _) lb ->
  map (@batch _) la = map (@batch _) lb ->
  pad la k = Ok ra -> pad lb k = Ok rb ->
  map (@seq_len _) ra = map (@seq_len _) rb
  /\ map (@batch _) ra = map (@batch _) rb.
Proof.
  intros Hs Hb Ha Hb'.
  apply pad_inv in Ha as [fa [resta [-> ->]]].
  apply pad_inv in Hb' as [fb [restb [-> ->]]].
  cbn [map] in Hs, Hb. injection Hs as Hs0 Hs. injection Hb as Hb0 Hb.
  destruct (shape_last_example fa fb Hb0 Hs0) as [Hls Hlb].
  rewrite !map_app, !map_repeat. cbn [map].
  rewrite Hs0, Hs, Hb0, Hb, Hls, Hlb. now split.
Qed.

(** In every sub-batch that [_split_and_pad_minibatch] returns, dummies
    included, the data and its mask have one shape, on the source and on the
    target side, and source and target hold the same number of examples. *)
Theorem sub_batch_shapes_agree (num_replicas : nat)
  (x : ndarray (list Z)) (x_mask y y_mask : ndarray Z) (sp : list nat)
  (sm : split_minibatch) :
  _split_and_pad_minibatch num_replicas x x_mask y y_mask sp = Ok sm ->
  batch x = batch x_mask -> batch y = batch x_mask ->
  batch y_mask = batch x_mask ->
  seq_len x = seq_len x_mask -> seq_len y = seq_len y_mask ->
  map (@seq_len _) (split_x sm) = map (@seq_len _) (split_x_mask sm)
  /\ map (@batch _) (split_x sm) = map (@batch _) (split_x_mask sm)
  /\ map (@seq_len _) (split_y sm) = map (@seq_len _) (split_y_mask sm)
  /\ map (@batch _) (split_y sm) = map (@batch _) (split_y_mask sm)
  /\ map (@batch _) (split_x_mask sm) = map (@batch _) (split_y_mask sm).
Proof.
  intros H Hbx Hby Hbym Hsx Hsy.
  unfold _split_and_pad_minibatch in H. cbv zeta in H.
  apply bind_ok in H as [x_lens [Hx H]].
  apply bind_ok in H as [y_lens [Hy H]].
  apply bind_ok in H as [remainder [_ H]].
  apply bind_ok in H as [px [Hpx H]].
  apply bind_ok in H as [pxm [Hpxm H]].
  apply bind_ok in H as [py [Hpy H]].
  apply bind_ok in H as [pym [Hpym H]].
  injection H as <-. cbn [split_x split_x_mask split_y split_y_mask].
  destruct (shapes_trim_split x x_mask sp x_lens Hbx Hsx) as [Sx Bx].
  destruct (shapes_trim_split y y_mask sp y_lens ltac:(congruence) Hsy)
    as [Sy By].
  destruct (@shapes_padded _ _ _ _ _ _ _ Sx Bx Hpx Hpxm) as [Sx' Bx'].
  destruct (@shapes_padded _ _ _ _ _ _ _ Sy By Hpy Hpym) as [Sy' By'].
  repeat (split; [assumption|]).
  apply max_lens_of_length in Hx, Hy. rewrite length_split_array in Hx, Hy.
  apply pad_inv in Hpxm as [fxm [rxm [Exm ->]]].
  apply pad_inv in Hpym as [fym [rym [Eym ->]]].
  pose proof (@batches_trim_split _ _ x_mask y_mask sp x_lens y_lens
                (eq_sym Hbym) (eq_sym Hx) (eq_sym Hy)) as Hb.
  rewrite !map_app, !map_repeat, Hb. f_equal. f_equal.
  rewrite Exm, Eym in Hb. cbn [map] in Hb. injection Hb as Hb0 _.
  unfold last_example, take_examples. cbn [batch]. now rewrite Hb0.
Qed.

(** ** More on the gradients of one round *)

Lemma variable_eqb_eq (v1 v2 : variable) :
  variable_eqb v1 v2 = true -> v1 = v2.
Proof.
  destruct v1 as [n1 u1], v2 as [n2 u2]. unfold variable_eqb. cbn [name uid].
  intros H. apply andb_true_iff in H as [Hn Hu].
  apply String.eqb_eq in Hn. apply Nat.eqb_eq in Hu. congruence.
Qed.

Lemma skipn_nth_error {A : Type} (l : list A) :
  forall i a, nth_error l i = Some a -> skipn i l = a :: skipn (S i) l.
Proof.
  induction l as [|a0 l IH]; intros [|i] a H; simpl in *; try discriminate.
  - now injection H as ->.
  - now apply IH.
Qed.

Lemma map_result_raise_inv {A B : Type} (f : A -> result B) (e : exn)
  (l : list A) :
  map_result f l = Raise e -> exists a, In a l /\ f a = Raise e.
Proof.
  induction l as [|a l IH]; cbn [map_result]; [discriminate|].
  destruct (f a) as [b|e'] eqn:Ha; cbn [bind].
  - destruct (map_result f l) as [bs|e'']; cbn [bind]; [discriminate|].
    intros H. injection H as ->.
    destruct (IH eq_refl) as [a' [Hin Ha']]. exists a'. split; [now right|].
    exact Ha'.
  - intros H. injection H as ->. exists a. split; [now left | exact Ha].
Qed.

Section SumGradientsMore.

Variables T W : Type.
Variable scale : T -> W -> T.
Variable add : T -> T -> T.
Variable zero : T.

Lemma found_none_value_all_some (l : list (grad_var T)) :
  found_none_value l
  = match all_some (map fst l) with Some _ => false | None => true end.
Proof.
  induction l as [|[[g|] v] l IH]; [reflexivity | | reflexivity].
  unfold found_none_value in *. cbn [existsb map fst all_some orb].
  rewrite IH. now destruct (all_some (map fst l)).
Qed.

Lemma weighted_grads_inv (var : variable) (weights : list W)
  (l : list (grad_var T)) :
  forall i r,
  weighted_grads scale var weights i l = Ok r ->
  exists ts,
    all_some (map fst l) = Some ts
    /\ r = map (fun '(g, w) => scale g w) (combine ts (skipn i weights))
    /\ Forall (fun gv => snd gv = var) l
    /\ (l = [] \/ (i + length l <= length weights)%nat).
Proof.
  induction l as [|[g v] l IH]; intros i r H; cbn [weighted_grads] in H.
  - injection H as <-. exists [].
    split; [reflexivity|]. split; [reflexivity|].
    split; [constructor | now left].
  - apply bind_ok in H as [u [Hv H]].
    apply bind_ok in H as [w [Hw H]].
    apply bind_ok in H as [expanded [Hg H]].
    apply bind_ok in H as [r' [Hr' H]]. injection H as <-.
    destruct g as [t|]; [|discriminate]. injection Hg as <-.
    unfold py_assert in Hv.
    destruct (variable_eqb v var) eqn:Hvar; [|discriminate].
    apply variable_eqb_eq in Hvar. apply getitem_ok in Hw.
    destruct (IH _ _ Hr') as [ts [Hts [-> [Hall Hlen]]]].
    exists (t :: ts). cbn [map fst all_some]. rewrite Hts.
    split; [reflexivity|]. split.
    { rewrite (skipn_nth_error _ _ Hw). reflexivity. }
    split; [constructor; [exact Hvar | exact Hall]|].
    right. cbn [length].
    assert (Hi : (i < length weights)%nat)
      by (apply nth_error_Some; congruence).
    destruct Hlen as [->|Hlen]; cbn [length]; lia.
Qed.

Lemma avg_grad_var_inv (weights : list W) (g0 : option T) (v0 : variable)
  (rest : list (grad_var T)) (o : grad_var T) :
  avg_grad_var scale add zero weights ((g0, v0) :: rest) = Ok o ->
  o = (round_grad scale add zero (g0 :: map fst rest) weights, v0)
  /\ (found_none_value ((g0, v0) :: rest) = false ->
      (S (length rest) <= length weights)%nat
      /\ Forall (fun gv => snd gv = v0) rest).
Proof.
  unfold avg_grad_var. cbn [getitem nth_error bind snd].
  rewrite found_none_value_all_some. unfold round_grad.
  change (g0 :: map fst rest) with (map fst ((g0, v0) :: rest)).
  destruct (all_some (map fst ((g0, v0) :: rest))) as [ts|] eqn:Hts.
  - intros H. apply bind_ok in H as [weighted [Hw H]]. injection H as <-.
    destruct (weighted_grads_inv _ _ _ _ Hw) as [ts' [Hts' [-> [Hall Hlen]]]].
    rewrite Hts in Hts'. injection Hts' as <-. split; [reflexivity|].
    intros _. destruct Hlen as [Hnil|Hlen]; [discriminate|].
    cbn [length] in Hlen. split; [lia|].
    now inversion Hall.
  - intros H. injection H as <-. split; [reflexivity | discriminate].
Qed.

Lemma reports_in_output (all_grad_vars : list (list (grad_var T)))
  (weights : list W) (out : list (grad_var T)) (p : String.string) :
  _sum_gradients scale add zero all_grad_vars weights = Ok out ->
  match concat (map (filter (named p)) all_grad_vars) with
  | [] => find (named p) out = None
  | gv :: rest =>
      exists o, find (named p) out = Some o
                /\ avg_grad_var scale add zero weights (gv :: rest) = Ok o
  end.
Proof.
  intros Hout. unfold _sum_gradients in Hout. apply map_result_inv in Hout.
  destruct (group_by_name_spec all_grad_vars p) as [[Hnd Hnames] Hget].
  assert (Hnames' : Forall (fun entry =>
                              Forall (fun gv => name (snd gv) = fst entry)
                                     (snd entry))
                           (group_by_name all_grad_vars)).
  { eapply Forall_impl; [|exact Hnames]. cbv beta. now intros e [_ H]. }
  pose proof (@find_in_output T W scale add zero weights p
                (group_by_name all_grad_vars) out Hnames' Hout) as Hfind.
  unfold dict_get in Hget.
  destruct (find (fun entry => String.eqb (fst entry) p)
                 (group_by_name all_grad_vars)) as [entry|] eqn:E.
  - rewrite <- Hget.
    destruct (snd entry) as [|gv rest]; [|exact Hfind].
    destruct Hfind as [o [_ Hnone]]. discriminate Hnone.
  - rewrite <- Hget. exact Hfind.
Qed.

(** The weights are matched with the gradients of a variable by their
    position among the pairs reported for it, in the order of the
    sub-batches, whichever sub-batches report it: the result for [p] is
    [None] if one of the reported gradients is, else the sum of the i-th
    reported gradient times the i-th weight, with the variable of the first
    report; a name that no sub-batch reports has no pair in the result. *)
Theorem sum_gradients_by_position
  (all_grad_vars : list (list (grad_var T))) (weights : list W)
  (out : list (grad_var T)) (p : String.string) :
  _sum_gradients scale add zero all_grad_vars weights = Ok out ->
  match concat (map (filter (named p)) all_grad_vars) with
  | [] => find (named p) out = None
  | (g0, v0) :: rest =>
      find (named p) out
      = Some (round_grad scale add zero (g0 :: map fst rest) weights, v0)
  end.
Proof.
  intros Hout. pose proof (reports_in_output _ _ p Hout) as H.
  destruct (concat (map (filter (named p)) all_grad_vars))
    as [|[g0 v0] rest]; [exact H|].
  destruct H as [o [Hfind Havg]].
  apply avg_grad_var_inv in Havg as [-> _]. exact Hfind.
Qed.

(** When [_sum_gradients] returns, every variable whose reported gradients
    are all present was reported at most as many times as there are
    weights, and by one and the same variable object. *)
Theorem sum_gradients_checks_reports
  (all_grad_vars : list (list (grad_var T))) (weights : list W)
  (out : list (grad_var T)) (p : String.string)
  (g0 : option T) (v0 : variable) (rest : list (grad_var T)) :
  _sum_gradients scale add zero all_grad_vars weights = Ok out ->
  concat (map (filter (named p)) all_grad_vars) = (g0, v0) :: rest ->
  found_none_value ((g0, v0) :: rest) = false ->
  (S (length rest) <= length weights)%nat
  /\ Forall (fun gv => snd gv = v0) rest.
Proof.
  intros Hout Hreports Hsome.
  pose proof (reports_in_output _ _ p Hout) as H. rewrite Hreports in H.
  destruct H as [o [_ Havg]].
  apply avg_grad_var_inv in Havg as [_ H]. now apply H.
Qed.

Lemma weighted_grads_raises (var : variable) (weights : list W)
  (l : list (grad_var T)) :
  forall i e, found_none_value l = false ->
  weighted_grads scale var weights i l = Raise e ->
  e = AssertionError \/ e = IndexError.
Proof.
  induction l as [|[g v] l IH]; intros i e Hnone H;
    cbn [weighted_grads] in H; [discriminate|].
  unfold found_none_value in Hnone. cbn [existsb fst] in Hnone.
  destruct g as [t|]; [|discriminate]. cbn [orb] in Hnone.
  destruct (variable_eqb v var); cbn [py_assert bind] in H;
    [|injection H as <-; now left].
  unfold getitem in H. destruct (nth_error weights i) as [w|];
    cbn [bind] in H; [|injection H as <-; now right].
  destruct (weighted_grads scale var weights (S i) l) as [r|e'] eqn:Hrec;
    cbn [bind] in H; [discriminate|].
  injection H as ->. now apply (IH (S i)).
Qed.

(** [_sum_gradients] multiplies no missing gradient by a weight: the only
    exceptions it raises are the [AssertionError] for two variables of one
    name and the [IndexError] for a variable with more reports than there
    are weights. *)
Theorem sum_gradients_raises_only
  (all_grad_vars : list (list (grad_var T))) (weights : list W) (e : exn) :
  _sum_gradients scale add zero all_grad_vars weights = Raise e ->
  e = AssertionError \/ e = IndexError.
Proof.
  intros H. unfold _sum_gradients in H.
  apply map_result_raise_inv in H as [entry [_ H]].
  unfold avg_grad_var in H. unfold getitem in H.
  destruct (nth_error (snd entry) 0) as [first|]; cbn [bind] in H;
    [|injection H as <-; now right].
  destruct (found_none_value (snd entry)) eqn:Hnone; [discriminate|].
  destruct (weighted_grads scale (snd first) weights 0 (snd entry))
    as [r|e'] eqn:Hw; cbn [bind] in H; [discriminate|].
  injection H as ->. exact (weighted_grads_raises _ _ _ _ Hnone Hw).
Qed.

Lemma keys_dict_append (d : grad_dict T) (k : String.string)
  (gv : grad_var T) :
  map fst (dict_append d k gv)
  = if existsb (String.eqb k) (map fst d) then map fst d
    else map fst d ++ [k].
Proof.
  induction d as [|[k' l] d IH]; [reflexivity|].
  cbn [dict_append map fst existsb]. rewrite (String.eqb_sym k k').
  destruct (String.eqb k' k); cbn [orb map fst]; [reflexivity|].
  rewrite IH. now destruct (existsb (String.eqb k) (map fst d)).
Qed.

Lemma keys_add_all (grad_vars : list (grad_var T)) :
  forall d : grad_dict T,
  map fst (add_all d grad_vars)
  = fold_left
      (fun seen k => if existsb (String.eqb k) seen then seen
                     else seen ++ [k])
      (map (fun gv => name (snd gv)) grad_vars) (map fst d).
Proof.
  unfold add_all.
  induction grad_vars as [|gv gvs IH]; intros d; [reflexivity|].
  cbn [fold_left map]. now rewrite IH, keys_dict_append.
Qed.

Lemma keys_group_by_name (all_grad_vars : list (list (grad_var T))) :
  map fst (group_by_name all_grad_vars)
  = first_seen (map (fun gv => name (snd gv)) (concat all_grad_vars)).
Proof.
  unfold group_by_name, first_seen.
  assert (Hgen : forall d : grad_dict T,
             map fst
               (fold_left
                  (fun d grad_vars =>
                     fold_left (fun d gv => dict_append d (name (snd gv)) gv)
                               grad_vars d)
                  all_grad_vars d)
             = fold_left
                 (fun seen k => if existsb (String.eqb k) seen then seen
                                else seen ++ [k])
                 (map (fun gv : grad_var T => name (snd gv))
                      (concat all_grad_vars))
                 (map fst d)).
  { induction all_grad_vars as [|gvs agv IH]; intros d; [reflexivity|].
    cbn [fold_left concat]. rewrite map_app, fold_left_app, IH.
    f_equal. exact (keys_add_all gvs d). }
  exact (Hgen []).
Qed.

(** The result of [_sum_gradients] has one pair for every variable name
    that a sub-batch reports, in the order in which the names first occur
    in the reports of the sub-batches. *)
Theorem sum_gradients_one_pair_per_name
  (all_grad_vars : list (list (grad_var T))) (weights : list W)
  (out : list (grad_var T)) :
  _sum_gradients scale add zero all_grad_vars weights = Ok out ->
  map (fun o => name (snd o)) out
  = first_seen (map (fun gv => name (snd gv)) (concat all_grad_vars))
  /\ NoDup (map (fun o => name (snd o)) out).
Proof.
  intros Hout. unfold _sum_gradients in Hout. apply map_result_inv in Hout.
  destruct (group_by_name_spec all_grad_vars ""%string)
    as [[Hnd Hnames] _].
  assert (Hnames' : Forall (fun entry =>
                              Forall (fun gv => name (snd gv) = fst entry)
                                     (snd entry))
                           (group_by_name all_grad_vars)).
  { eapply Forall_impl; [|exact Hnames]. cbv beta. now intros e [_ H]. }
  rewrite (@output_names T W scale add zero weights
             (group_by_name all_grad_vars) out Hnames' Hout).
  split; [apply keys_group_by_name | exact Hnd].
Qed.

End SumGradientsMore.

(** * The theorems at concrete inputs *)

Lemma valid_start_points_a : valid_start_points 4 [0; 3]%nat.
Proof.
  split; [reflexivity|]. split; [simpl; lia|].
  repeat constructor; lia.
Defined.

Lemma sum_gradients_any_unused_witness :
  let p := Var "w"%string 0 in
  let all_grad_vars := [[(Some (3 # 1), p)]; [(None, p)]] in
  let weights := [1 # 2; 1 # 2] in
  _sum_gradients Qmult Qplus (0 # 1) all_grad_vars weights = Ok [(None, p)]
  /\ find (named "w"%string) [(None, p)]
     = Some (round_grad Qmult Qplus (0 # 1) [Some (3 # 1); None] weights, p).
Proof.
  intros p all_grad_vars weights. split; [reflexivity|].
  apply (@sum_gradients_any_unused Q Q Qmult Qplus (0 # 1) all_grad_vars
           weights [(None, p)] "w"%string p [Some (3 # 1); None] eq_refl).
  - discriminate.
  - repeat constructor.
Defined.

Lemma split_is_lossless_witness :
  minibatch x_a x_mask_a y_a y_mask_a = true
  /\ _split_minibatch_into_n x_mask_a y_mask_a 2 = Ok [0; 3]%nat
  /\ concatenate (split_array x_a [0; 3]%nat) = Ok x_a
  /\ concatenate (split_array x_mask_a [0; 3]%nat) = Ok x_mask_a
  /\ concatenate (split_array y_a [0; 3]%nat) = Ok y_a
  /\ concatenate (split_array y_mask_a [0; 3]%nat) = Ok y_mask_a.
Proof.
  split; [reflexivity|]. split; [reflexivity|].
  apply (@split_is_lossless x_a x_mask_a y_a y_mask_a 2 0 0 [0; 3]%nat
           eq_refl (or_introl eq_refl)).
Defined.

Lemma zero_weight_sum_is_dispatched_witness :
  let cfg := Config 0 0 1 in
  let sm := SplitMinibatch [NdArray 1 []] [NdArray 1 []] [NdArray 1 []]
                           [NdArray 1 []] [0%Z] in
  minibatch x_empty mask_empty y_empty mask_empty = true
  /\ is_mask mask_empty = true
  /\ start_points_of cfg 1 mask_empty mask_empty = Ok [0%nat]
  /\ _split_and_pad_minibatch 1 x_empty mask_empty y_empty mask_empty [0%nat]
     = Ok sm
  /\ zsum (weights sm) = 0%Z
  /\ exists feeds,
       update_feeds cfg 1 x_empty mask_empty y_empty mask_empty = Ok feeds
       /\ (0 < length feeds)%nat.
Proof.
  intros cfg sm. repeat (split; [reflexivity|]).
  destruct (@zero_weight_sum_is_dispatched cfg 1 x_empty mask_empty y_empty
              mask_empty [0%nat] sm eq_refl eq_refl eq_refl (le_n 1)
              eq_refl eq_refl eq_refl) as [_ [feeds [Hfeeds [Hpos _]]]].
  exists feeds. split; assumption.
Defined.


Lemma token_split_closes_before_overflow_witness :
  let x_mask := mask_of_lengths 10 [10; 10; 10]%nat in
  let y_mask := mask_of_lengths 3 [2; 3; 1]%nat in
  minibatch_masks x_mask y_mask = true
  /\ is_mask x_mask = true /\ is_mask y_mask = true
  /\ _split_minibatch_for_device_size x_mask y_mask 0 15
     = Ok [0; 1; 2]%nat
  /\ exists sp,
       _split_minibatch_for_device_size x_mask y_mask 0 12 = Ok sp
       /\ forall j, (last sp 0 < j < 3)%nat ->
            ~ exceeds (sum_axis0 x_mask) (sum_axis0 y_mask) 12
                (last sp 0%nat) j.
Proof.
  intros x_mask y_mask. do 3 (split; [reflexivity|]). split.
  - apply (proj2 token_split_closes_before_overflow y_mask eq_refl eq_refl).
  - destruct (proj1 token_split_closes_before_overflow x_mask y_mask 12%Z
                eq_refl eq_refl eq_refl eq_refl) as [sp [Hsp [_ [Hlast _]]]].
    exists sp. split; assumption.
Defined.

Lemma split_into_n_at_most_n_witness :
  minibatch_masks x_mask_a y_mask_a = true
  /\ is_mask x_mask_a = true /\ is_mask y_mask_a = true
  /\ exists sp,
       _split_minibatch_into_n x_mask_a y_mask_a 2 = Ok sp
       /\ (Z.of_nat (length sp) <= 2)%Z.
Proof.
  repeat (split; [reflexivity|]).
  destruct (@split_into_n_at_most_n x_mask_a y_mask_a 2 eq_refl eq_refl
              eq_refl ltac:(lia))
    as [s_max [t_max [sp [_ [_ [Hsp [Hlen _]]]]]]].
  exists sp. split; assumption.
Defined.


Lemma split_loops_terminate_witness :
  minibatch_masks x_mask_a y_mask_a = true
  /\ (exists sp, forall fuel, (4 < fuel)%nat ->
        while_true fuel
          (into_n_body (sum_axis0 x_mask_a) (sum_axis0 y_mask_a) 4 16) [0%nat]
        = Some (Ok sp))
  /\ exists sp,
       _split_minibatch_for_device_size x_mask_a y_mask_a 0 15 = Ok sp.
Proof.
  split; [reflexivity|].
  pose proof (@split_loops_terminate x_mask_a y_mask_a eq_refl) as H.
  cbv zeta in H. destruct H as [_ [_ [Hinto [_ [_ Htokens]]]]].
  split; [exact (Hinto 16%Z) | apply Htokens; discriminate].
Defined.

Lemma empty_minibatch_raises_witness :
  let m := NdArray 0 [[]; []] in
  _split_minibatch_into_n m m 2 = Raise ValueError
  /\ _split_minibatch_for_device_size m m 0 100 = Raise IndexError.
Proof.
  intros m.
  destruct (@empty_minibatch_raises m m eq_refl eq_refl) as [Hn Htokens].
  split; [apply Hn | apply Htokens; discriminate].
Defined.

Lemma mismatched_masks_raise_witness :
  let y_mask := mask_of_lengths 3 [2; 3]%nat in
  well_shaped x_mask_a = true /\ well_shaped y_mask = true
  /\ _split_minibatch_into_n x_mask_a y_mask 2 = Raise AssertionError
  /\ _split_minibatch_for_device_size x_mask_a y_mask 0 100
     = Raise AssertionError.
Proof.
  intros y_mask. split; [reflexivity|]. split; [reflexivity|].
  destruct (@mismatched_masks_raise x_mask_a y_mask eq_refl eq_refl
              ltac:(discriminate)) as [Hn Htokens].
  split; [apply Hn | apply Htokens; discriminate].
Defined.

Lemma update_with_sentence_limit_raises_witness :
  update_feeds (Config 2 0 1) 1 x_a x_mask_a y_a y_mask_a
  = Raise UnboundLocalError
  /\ update_feeds (Config 2 100 1) 1 x_a x_mask_a y_a y_mask_a
     = Raise AssertionError.
Proof.
  split.
  - apply (@update_with_sentence_limit_raises (Config 2 0 1) 1 x_a x_mask_a
             y_a y_mask_a). discriminate.
  - apply (@update_with_sentence_limit_raises (Config 2 100 1) 1 x_a x_mask_a
             y_a y_mask_a). discriminate.
Defined.

Lemma split_into_n_needs_positive_n_witness :
  minibatch_masks x_mask_a y_mask_a = true
  /\ _split_minibatch_into_n x_mask_a y_mask_a (-1) = Raise AssertionError.
Proof.
  split; [reflexivity|].
  apply (@split_into_n_needs_positive_n x_mask_a y_mask_a (-1) eq_refl).
  lia.
Defined.

Lemma split_into_one_witness :
  minibatch_masks x_mask_a y_mask_a = true
  /\ is_mask x_mask_a = true /\ is_mask y_mask_a = true
  /\ _split_minibatch_into_n x_mask_a y_mask_a 1 = Ok [0%nat].
Proof.
  repeat (split; [reflexivity|]).
  apply (@split_into_one x_mask_a y_mask_a eq_refl eq_refl eq_refl).
Defined.

Lemma fixed_split_overfills_by_one_witness :
  minibatch_masks x_mask_a y_mask_a = true
  /\ is_mask x_mask_a = true /\ is_mask y_mask_a = true
  /\ _split_minibatch_into_n x_mask_a y_mask_a 2 = Ok [0; 3]%nat
  /\ exists soft_limit,
       soft_limit_of (sum_axis0 x_mask_a) (sum_axis0 y_mask_a) 4 2
       = Ok soft_limit
       /\ overfills (sum_axis0 x_mask_a) (sum_axis0 y_mask_a) soft_limit 0 2
       /\ ~ overfills (sum_axis0 x_mask_a) (sum_axis0 y_mask_a) soft_limit 0 1.
Proof.
  repeat (split; [reflexivity|]).
  destruct (@fixed_split_overfills_by_one x_mask_a y_mask_a 2 [0; 3]%nat
              eq_refl eq_refl eq_refl eq_refl) as [soft_limit [HL [Hbins _]]].
  exists soft_limit. split; [exact HL|].
  apply Forall_inv in Hbins. cbv zeta in Hbins. cbn [fst snd] in Hbins.
  destruct Hbins as [_ [Hover Hbefore]].
  split; [exact Hover | apply Hbefore; simpl; lia].
Defined.

Lemma sub_batches_nonempty_witness :
  minibatch_masks x_mask_a y_mask_a = true
  /\ _split_minibatch_into_n x_mask_a y_mask_a 2 = Ok [0; 3]%nat
  /\ map (@batch _) (split_array x_a [0; 3]%nat) = [3; 1]%nat
  /\ Forall (fun s => (1 <= batch s)%nat) (split_array x_a [0; 3]%nat)
  /\ list_sum (map (@batch _) (split_array x_a [0; 3]%nat)) = batch x_a.
Proof.
  repeat (split; [reflexivity|]).
  destruct (@sub_batches_nonempty _ x_a x_mask_a y_mask_a 2 0 0 [0; 3]%nat
              eq_refl eq_refl (or_introl eq_refl)) as [_ H].
  exact H.
Defined.

Lemma update_runs_at_most_aggregation_steps_witness :
  minibatch x_a x_mask_a y_a y_mask_a = true
  /\ is_mask x_mask_a = true /\ is_mask y_mask_a = true
  /\ exists feeds,
       update_feeds (Config 0 0 2) 1 x_a x_mask_a y_a y_mask_a = Ok feeds
       /\ (1 <= Z.of_nat (length feeds) <= 2)%Z.
Proof.
  repeat (split; [reflexivity|]).
  destruct (@update_runs_at_most_aggregation_steps 2 1 x_a x_mask_a y_a
              y_mask_a eq_refl eq_refl eq_refl (le_n 1) ltac:(lia))
    as [sp [feeds [_ [Hfeeds [_ [Hruns _]]]]]].
  exists feeds. split; assumption.
Defined.

Lemma update_token_limited_returns_witness :
  minibatch x_a x_mask_a y_a y_mask_a = true
  /\ exists sp feeds,
       _split_minibatch_for_device_size x_mask_a y_mask_a 0 12 = Ok sp
       /\ update_feeds (Config 0 12 1) 2 x_a x_mask_a y_a y_mask_a = Ok feeds
       /\ length feeds = ((length sp + 2 - 1) / 2)%nat.
Proof.
  split; [reflexivity|].
  destruct (@update_token_limited_returns 12 1 2 x_a x_mask_a y_a y_mask_a
              eq_refl ltac:(lia) ltac:(discriminate))
    as [sp [feeds [Hsp [Hfeeds [Hruns _]]]]].
  exists sp, feeds. repeat split; assumption.
Defined.

Lemma normalized_weights_sum_to_one_witness :
  exists qs,
    normalize [16; 6; 0]%Z = map Finite qs /\ qsum qs == 1.
Proof.
  destruct (@normalized_weights_sum_to_one [16; 6; 0]%Z
              ltac:(repeat constructor; lia) ltac:(discriminate))
    as [qs [Hqs [Hsum _]]].
  exists qs. split; assumption.
Defined.

Lemma update_feeds_in_order_witness :
  exists feeds sm,
    update_feeds (Config 0 0 1) 2 x_a x_mask_a y_a y_mask_a = Ok feeds
    /\ _split_and_pad_minibatch 2 x_a x_mask_a y_a y_mask_a [0; 3]%nat = Ok sm
    /\ map feed_x_mask (concat feeds) = split_x_mask sm
    /\ map feed_weight (concat feeds) = normalize (weights sm).
Proof.
  destruct (update_feeds (Config 0 0 1) 2 x_a x_mask_a y_a y_mask_a)
    as [feeds|e] eqn:E; [|vm_compute in E; discriminate].
  destruct (@update_feeds_in_order (Config 0 0 1) 2 x_a x_mask_a y_a y_mask_a
              feeds ltac:(lia) E)
    as [sp [sm [Hsp [Hsm [_ [Hw [_ [Hxm _]]]]]]]].
  assert (Hsp' : sp = [0; 3]%nat).
  { vm_compute in Hsp. now injection Hsp as <-. }
  subst sp. exists feeds, sm. repeat split; assumption.
Defined.

Lemma weights_count_every_token_witness :
  minibatch x_a x_mask_a y_a y_mask_a = true
  /\ is_mask x_mask_a = true /\ is_mask y_mask_a = true
  /\ left_aligned x_mask_a = true /\ left_aligned y_mask_a = true
  /\ np_sum x_mask_a = 14%Z /\ np_sum y_mask_a = 8%Z
  /\ exists sm,
       _split_and_pad_minibatch 3 x_a x_mask_a y_a y_mask_a [0; 3]%nat = Ok sm
       /\ zsum (weights sm) = 22%Z.
Proof.
  repeat (split; [reflexivity|]).
  destruct (@weights_count_every_token 3 x_a x_mask_a y_a y_mask_a
              [0; 3]%nat eq_refl eq_refl eq_refl eq_refl eq_refl
              valid_start_points_a ltac:(lia)) as [sm [Hsm [_ Hsum]]].
  exists sm. split; assumption.
Defined.

Lemma invalid_start_points_raise_witness :
  _split_and_pad_minibatch 1 x_a x_mask_a y_a y_mask_a [0; 5]%nat
  = Raise ValueError
  /\ _split_and_pad_minibatch 1 x_a x_mask_a y_a y_mask_a [0; 2; 2]%nat
     = Raise ValueError.
Proof.
  split.
  - apply (@invalid_start_points_raise 1 x_a x_mask_a y_a y_mask_a
             [0; 5]%nat).
    right. exists 5%nat. split; [simpl; auto | simpl; lia].
  - apply (@invalid_start_points_raise 1 x_a x_mask_a y_a y_mask_a
             [0; 2; 2]%nat).
    left. exists 2%nat, 2%nat. split; [simpl; auto | lia].
Defined.

Lemma sum_gradients_by_position_witness :
  let p := Var "w"%string 0 in
  let q := Var "b"%string 1 in
  let all_grad_vars :=
    [[(Some (3 # 1), p)]; [(Some (1 # 1), q)]; [(Some (5 # 1), p)]] in
  let weights := [1 # 2; 1 # 4; 1 # 4] in
  exists out,
    _sum_gradients Qmult Qplus (0 # 1) all_grad_vars weights = Ok out
    /\ find (named "w"%string) out
       = Some (round_grad Qmult Qplus (0 # 1) [Some (3 # 1); Some (5 # 1)]
                 weights, p)
    /\ round_grad Qmult Qplus (0 # 1) [Some (3 # 1); Some (5 # 1)] weights
       = Some (Qplus (Qplus (0 # 1) (Qmult (3 # 1) (1 # 2)))
                     (Qmult (5 # 1) (1 # 4)))
    /\ find (named "c"%string) out = None.
Proof.
  intros p q all_grad_vars weights.
  destruct (_sum_gradients Qmult Qplus (0 # 1) all_grad_vars weights)
    as [out|e] eqn:E; [|vm_compute in E; discriminate].
  exists out. split; [reflexivity|]. split.
  - apply (@sum_gradients_by_position Q Q Qmult Qplus (0 # 1) all_grad_vars
             weights out "w"%string E).
  - split; [reflexivity|].
    apply (@sum_gradients_by_position Q Q Qmult Qplus (0 # 1) all_grad_vars
             weights out "c"%string E).
Defined.

Lemma sum_gradients_checks_reports_witness :
  let p := Var "w"%string 0 in
  let all_grad_vars := [[(Some (3 # 1), p)]; [(Some (5 # 1), p)]] in
  let weights := [1 # 2; 1 # 2] in
  _sum_gradients Qmult Qplus (0 # 1) all_grad_vars weights
  = Ok [(Some (Qplus (Qplus (0 # 1) (Qmult (3 # 1) (1 # 2)))
                     (Qmult (5 # 1) (1 # 2))), p)]
  /\ (2 <= length weights)%nat.
Proof.
  intros p all_grad_vars weights. split; [reflexivity|].
  apply (@sum_gradients_checks_reports Q Q Qmult Qplus (0 # 1) all_grad_vars
           weights _ "w"%string (Some (3 # 1)) p [(Some (5 # 1), p)]
           eq_refl eq_refl eq_refl).
Defined.

Lemma sum_gradients_raises_only_witness :
  let p := Var "w"%string 0 in
  let all_grad_vars := [[(Some (3 # 1), p)]; [(Some (5 # 1), p)]] in
  _sum_gradients Qmult Qplus (0 # 1) all_grad_vars [1 # 1] = Raise IndexError
  /\ (IndexError = AssertionError \/ IndexError = IndexError).
Proof.
  intros p all_grad_vars. split; [reflexivity|].
  apply (@sum_gradients_raises_only Q Q Qmult Qplus (0 # 1) all_grad_vars
           [1 # 1] IndexError eq_refl).
Defined.

Lemma sum_gradients_one_pair_per_name_witness :
  let p := Var "w"%string 0 in
  let q := Var "b"%string 1 in
  let all_grad_vars :=
    [[(Some (3 # 1), p)]; [(Some (1 # 1), q); (None, p)]] in
  exists out,
    _sum_gradients Qmult Qplus (0 # 1) all_grad_vars [1 # 2; 1 # 2] = Ok out
    /\ map (fun o => name (snd o)) out = ["w"%string; "b"%string].
Proof.
  intros p q all_grad_vars.
  destruct (_sum_gradients Qmult Qplus (0 # 1) all_grad_vars [1 # 2; 1 # 2])
    as [out|e] eqn:E; [|vm_compute in E; discriminate].
  exists out. split; [reflexivity|].
  destruct (@sum_gradients_one_pair_per_name Q Q Qmult Qplus (0 # 1)
              all_grad_vars [1 # 2; 1 # 2] out E) as [Hnames _].
  rewrite Hnames. reflexivity.
Defined.

Lemma token_split_keeps_fitting_minibatch_witness :
  minibatch_masks x_mask_a y_mask_a = true
  /\ is_mask x_mask_a = true /\ is_mask y_mask_a = true
  /\ sum_axis0 x_mask_a = [3; 5; 2; 4]%Z
  /\ sum_axis0 y_mask_a = [2; 3; 1; 2]%Z
  /\ _split_minibatch_for_device_size x_mask_a y_mask_a 0 20 = Ok [0%nat].
Proof.
  repeat (split; [reflexivity|]).
  apply (@token_split_keeps_fitting_minibatch x_mask_a y_mask_a 20 eq_refl
           eq_refl eq_refl ltac:(discriminate)).
  - vm_compute. repeat constructor; discriminate.
  - vm_compute. repeat constructor; discriminate.
Defined.

Lemma token_split_respects_limit_witness :
  minibatch_masks x_mask_a y_mask_a = true
  /\ is_mask x_mask_a = true /\ is_mask y_mask_a = true
  /\ _split_minibatch_for_device_size x_mask_a y_mask_a 0 12
     = Ok [0; 2]%nat
  /\ all_bins 4 [0; 2]%nat = [(0, 2); (2, 4)]%nat
  /\ (range_max (sum_axis0 x_mask_a) 0 1 * (Z.of_nat 2 - Z.of_nat 0)
      <= 12)%Z.
Proof.
  repeat (split; [reflexivity|]).
  pose proof (@token_split_respects_limit x_mask_a y_mask_a 12
                [0; 2]%nat eq_refl eq_refl eq_refl eq_refl) as H.
  cbv zeta in H. apply Forall_inv in H.
  cbn [fst snd] in H. destruct H as [_ [H|[H _]]]; [discriminate H|].
  exact H.
Defined.

Lemma sub_batch_shapes_agree_witness :
  exists sm,
    _split_and_pad_minibatch 3 x_a x_mask_a y_a y_mask_a [0; 3]%nat = Ok sm
    /\ map (@seq_len _) (split_x sm) = [5; 4; 5]%nat
    /\ map (@seq_len _) (split_x sm) = map (@seq_len _) (split_x_mask sm)
    /\ map (@batch _) (split_x sm) = map (@batch _) (split_x_mask sm)
    /\ map (@batch _) (split_x_mask sm) = map (@batch _) (split_y_mask sm).
Proof.
  destruct (_split_and_pad_minibatch 3 x_a x_mask_a y_a y_mask_a
              [0; 3]%nat) as [sm|e] eqn:E; [|vm_compute in E; discriminate].
  exists sm. split; [reflexivity|].
  split; [vm_compute in E; injection E as <-; reflexivity|].
  destruct (@sub_batch_shapes_agree 3 x_a x_mask_a y_a y_mask_a [0; 3]%nat
              sm E eq_refl eq_refl eq_refl eq_refl eq_refl)
    as [Hs [Hb [_ [_ Hxy]]]].
  repeat split; assumption.
Defined.
